(** * 190proof: a shallow embedding of [src/index.ts]

    The development follows the source file top to bottom.  JavaScript
    values are modelled as the engine has them: strings are sequences of
    UTF-16 code units, numbers are IEEE-754 binary64 values, JSON documents
    are trees, [undefined] is the absent case of an [option].  Exceptions
    are an explicit error type; console output, sleeps and network calls
    are recorded in an event trace. *)

From Stdlib Require Import ZArith NArith List String Ascii Bool Lia.
From Stdlib Require Import Strings.Byte.
From Stdlib Require Import DecimalString.
From stdpp Require Import base option list gmap.

Local Open Scope Z_scope.
Local Open Scope list_scope.
#[local] Set Warnings "-register-all".

(** ** JavaScript strings *)

(** A JavaScript string is a sequence of UTF-16 code units. *)
Abbreviation jsstring := (list N).

Module JsString.

(** Source literals: every character of a Rocq string is one code unit. *)
Definition js (s : string) : jsstring :=
  map N_of_ascii (list_ascii_of_string s).

(** The same, with the apostrophe standing for the double quote, so that
    JSON text can be written down. *)
Definition jq (s : string) : jsstring :=
  map (fun c => if N.eqb c 39 then 34%N else c) (js s).

(** The line feed. *)
Definition newline : jsstring := [10%N].

Definition is_empty {A} (s : list A) : bool :=
  match s with [] => true | _ => false end.

Fixpoint starts_with (pat s : jsstring) : bool :=
  match pat, s with
  | [], _ => true
  | p :: pat', c :: s' => N.eqb p c && starts_with pat' s'
  | _ :: _, [] => false
  end.

(** [String.prototype.includes]. *)
Fixpoint includes (pat s : jsstring) : bool :=
  starts_with pat s ||
  match s with
  | [] => false
  | _ :: s' => includes pat s'
  end.

Definition eqb (a b : jsstring) : bool := bool_decide (a = b).

(** ECMAScript LineTerminator. *)
Definition is_line_terminator (c : N) : bool :=
  (N.eqb c 10 || N.eqb c 13 || N.eqb c 0x2028 || N.eqb c 0x2029)%N.

(** ECMAScript WhiteSpace (TAB, VT, FF, ZWNBSP and the Unicode
    space separators). *)
Definition is_white_space (c : N) : bool :=
  (N.eqb c 9 || N.eqb c 11 || N.eqb c 12 || N.eqb c 32 || N.eqb c 0xA0
   || N.eqb c 0x1680 || (N.leb 0x2000 c && N.leb c 0x200A)
   || N.eqb c 0x202F || N.eqb c 0x205F || N.eqb c 0x3000
   || N.eqb c 0xFEFF)%N.

Definition is_trimmable (c : N) : bool :=
  is_white_space c || is_line_terminator c.

Fixpoint trim_start (s : jsstring) : jsstring :=
  match s with
  | c :: s' => if is_trimmable c then trim_start s' else s
  | [] => []
  end.

(** [String.prototype.trim]. *)
Definition trim (s : jsstring) : jsstring :=
  rev (trim_start (rev (trim_start s))).

(** [s.split(/^data: /gm)]: the pieces of [s] between the occurrences of
    the marker that stand at the start of the input or right after a line
    terminator.  [skip] counts the marker characters still to be dropped,
    [bol] tells whether the current position is the beginning of a line,
    [cur] holds the piece being read, reversed. *)
Definition marker : jsstring := js "data: ".

Fixpoint split_go (skip : nat) (bol : bool) (cur s : jsstring)
  : list jsstring :=
  match s with
  | [] => [rev cur]
  | c :: s' =>
      match skip with
      | S k => split_go k false cur s'
      | O =>
          if bol && starts_with marker s
          then rev cur :: split_go 5 false [] s'
          else split_go 0 (is_line_terminator c) (c :: cur) s'
      end
  end.

Definition split_data (s : jsstring) : list jsstring :=
  split_go 0 true [] s.

(** Decimal digits of a natural number. *)
Definition of_N (n : N) : jsstring :=
  js (NilZero.string_of_uint (N.to_uint n)).

Definition of_Z (z : Z) : jsstring :=
  if z <? 0 then js "-" ++ of_N (Z.to_N (- z)) else of_N (Z.to_N z).

End JsString.

Import JsString.

(** ** JavaScript numbers *)

Module JsNumber.

(** The binary64 values a JSON document or a length can denote (there
    is no NaN among them).  [NFin neg m e] is [m * 2^e] with [m] odd,
    negated when [neg]. *)
Inductive jsnum :=
| NZero (neg : bool)
| NInf (neg : bool)
| NFin (neg : bool) (m : positive) (e : Z).

Fixpoint canon (m : positive) (e : Z) : positive * Z :=
  match m with
  | xO p => canon p (e + 1)
  | _ => (m, e)
  end.

(** Round the positive rational [num / den] to the nearest binary64,
    ties to even. *)
Definition round_ratio (neg : bool) (num den : Z) : jsnum :=
  if (num <=? 0) || (den <=? 0) then NZero neg else
  let e1 := Z.log2 num - Z.log2 den - 53 in
  let scaled :=
    if 0 <=? e1 then num / (den * 2 ^ e1) else (num * 2 ^ (- e1)) / den in
  let e2 := if scaled <? 2 ^ 53 then e1 else e1 + 1 in
  let E := Z.max e2 (-1074) in
  let n' := if 0 <=? E then num else num * 2 ^ (- E) in
  let d' := if 0 <=? E then den * 2 ^ E else den in
  let t := n' / d' in
  let r := n' mod d' in
  let t' :=
    if (d' <? 2 * r) || ((d' =? 2 * r) && Z.odd t) then t + 1 else t in
  if t' <=? 0 then NZero neg
  else if 1024 <=? Z.log2 t' + E then NInf neg
  else let (m, e) := canon (Z.to_pos t') E in NFin neg m e.

(** The value of a decimal numeral [mant * 10^dexp]. *)
Definition of_decimal (neg : bool) (mant : Z) (dexp : Z) : jsnum :=
  if 0 <=? dexp then round_ratio neg (mant * 10 ^ dexp) 1
  else round_ratio neg mant (10 ^ (- dexp)).

Definition of_nat (n : nat) : jsnum := of_decimal false (Z.of_nat n) 0.

Definition is_zero (x : jsnum) : bool :=
  match x with NZero _ => true | _ => false end.

Definition eqb (x y : jsnum) : bool :=
  match x, y with
  | NZero a, NZero b => Bool.eqb a b
  | NInf a, NInf b => Bool.eqb a b
  | NFin a m e, NFin b m' e' => Bool.eqb a b && Pos.eqb m m' && Z.eqb e e'
  | _, _ => false
  end.

(** [m * 2^e * 10^p] as a fraction. *)
Definition scaled_num (m : positive) (e p : Z) : Z :=
  Zpos m * 2 ^ (Z.max e 0) * 10 ^ (Z.max p 0).
Definition scaled_den (e p : Z) : Z :=
  2 ^ (Z.max (- e) 0) * 10 ^ (Z.max (- p) 0).

(** The decimal exponent [n] of [v = m * 2^e]: [10^(n-1) <= v < 10^n]. *)
Definition below_pow10 (m : positive) (e n : Z) : bool :=
  scaled_num m e (- n) <? scaled_den e (- n).

Definition decimal_exponent (m : positive) (e : Z) : Z :=
  let est := ((Z.log2 (Zpos m) + e) * 30103) / 100000 in
  let fix search (fuel : nat) (n : Z) : Z :=
    match fuel with
    | O => n
    | S f => if below_pow10 m e n then n else search f (n + 1)
    end in
  search 4%nat (est - 1).

(** The digits [s] with [k] places that denote [v], if any: the
    candidates are the two integers around [v * 10^(k-n)]; a candidate
    is kept when it reads back as [v], the closer one wins, the even
    one on a tie. *)
Definition digits_at (m : positive) (e n k : Z) : option Z :=
  let a := scaled_num m e (k - n) in
  let b := scaled_den e (k - n) in
  let lo := a / b in
  let hi := lo + 1 in
  let ok s := (0 <? s) && eqb (of_decimal false s (n - k)) (NFin false m e) in
  let lo_closer :=
    let dl := a - lo * b in      (* (v' - lo) * b *)
    let dh := hi * b - a in      (* (hi - v') * b *)
    (dl <? dh) || ((dl =? dh) && Z.even lo) in
  match ok lo, ok hi with
  | true, true => Some (if lo_closer then lo else hi)
  | true, false => Some lo
  | false, true => Some hi
  | false, false => None
  end.

Fixpoint shortest (m : positive) (e n : Z) (fuel : nat) (k : Z)
  : Z * Z :=
  match fuel with
  | O => (0, k)
  | S f =>
      match digits_at m e n k with
      | Some s => (s, k)
      | None => shortest m e n f (k + 1)
      end
  end.

Definition zeros (n : Z) : jsstring := repeat 48%N (Z.to_nat n).

(** [Number::toString] of a positive finite value. *)
Definition to_string_pos (m : positive) (e : Z) : jsstring :=
  let n0 := decimal_exponent m e in
  let '(s0, k) := shortest m e n0 17%nat 1 in
  (* a carry to the next power of ten *)
  let '(s, n) := if s0 =? 10 ^ k then (10 ^ (k - 1), n0 + 1) else (s0, n0) in
  let digits := of_Z s in
  if (k <=? n) && (n <=? 21) then digits ++ zeros (n - k)
  else if (0 <? n) && (n <=? 21) then
    take (Z.to_nat n) digits ++ js "." ++ drop (Z.to_nat n) digits
  else if (-6 <? n) && (n <=? 0) then
    js "0." ++ zeros (- n) ++ digits
  else
    let ex := n - 1 in
    let sign := if ex <? 0 then js "-" else js "+" in
    let mant :=
      if k =? 1 then digits
      else take 1 digits ++ js "." ++ drop 1 digits in
    mant ++ js "e" ++ sign ++ of_Z (Z.abs ex).

(** [Number::toString]. *)
Definition to_string (x : jsnum) : jsstring :=
  match x with
  | NZero _ => js "0"
  | NInf false => js "Infinity"
  | NInf true => js "-Infinity"
  | NFin false m e => to_string_pos m e
  | NFin true m e => js "-" ++ to_string_pos m e
  end.

End JsNumber.

Import JsNumber.

(** ** JSON values and the property reads of the program *)

Module Json.

(** A parsed JSON document.  The members of an object are kept in
    source order, duplicates included; a read takes the last one, as
    [JSON.parse] lets a later member overwrite an earlier one. *)
Inductive json :=
| JNull
| JBool (b : bool)
| JNum (n : jsnum)
| JStr (s : jsstring)
| JArr (l : list json)
| JObj (members : list (jsstring * json)).

(** A JavaScript value as the program meets it: [None] is [undefined]. *)
Abbreviation jsval := (option json).

(** ToBoolean. *)
Definition truthy (v : jsval) : bool :=
  match v with
  | None => false
  | Some JNull => false
  | Some (JBool b) => b
  | Some (JNum n) => negb (is_zero n)
  | Some (JStr s) => negb (is_empty s)
  | Some (JArr _) => true
  | Some (JObj _) => true
  end.

Definition nullish (v : jsval) : bool :=
  match v with
  | None => true
  | Some JNull => true
  | _ => false
  end.

Fixpoint lookup_last (k : jsstring) (ms : list (jsstring * json))
  : jsval :=
  match ms with
  | [] => None
  | (k', v) :: ms' =>
      match lookup_last k ms' with
      | Some w => Some w
      | None => if JsString.eqb k k' then Some v else None
      end
  end.

(** An array index written canonically: decimal digits, no leading zero. *)
Definition is_digit (c : N) : bool := (N.leb 48 c && N.leb c 57)%N.

Definition parse_index (k : jsstring) : option nat :=
  match k with
  | [] => None
  | c :: rest =>
      if forallb is_digit k && (negb (N.eqb c 48) || is_empty rest)
      then Some (N.to_nat
                   (fold_left (fun acc d => (acc * 10 + (d - 48))%N) k 0%N))
      else None
  end.

(** [v[k]] for a value that is neither [null] nor [undefined]: the own
    properties of the value.  None of the names the program reads is
    defined on a built-in prototype, so the own properties are all
    there is to find. *)
Definition get_prop (v : json) (k : jsstring) : jsval :=
  match v with
  | JObj ms => lookup_last k ms
  | JArr l =>
      if JsString.eqb k (js "length") then Some (JNum (of_nat (length l)))
      else match parse_index k with
           | Some i => nth_error l i
           | None => None
           end
  | JStr s =>
      if JsString.eqb k (js "length") then Some (JNum (of_nat (length s)))
      else match parse_index k with
           | Some i => option_map (fun c => JStr [c]) (nth_error s i)
           | None => None
           end
  | _ => None
  end.

(** [v?.[k]]: [undefined] when [v] is [null] or [undefined]. *)
Definition get_opt (v : jsval) (k : jsstring) : jsval :=
  match v with
  | None => None
  | Some JNull => None
  | Some j => get_prop j k
  end.

Definition has_key (k : jsstring) (ms : list (jsstring * json)) : bool :=
  existsb (fun kv => JsString.eqb k (fst kv)) ms.

(** ToString of a value that is appended to a string with [+=].
    [None] is a TypeError: an object whose own ["toString"] member (never
    callable in a JSON document) hides [Object.prototype.toString]. *)
Fixpoint to_string (v : json) : option jsstring :=
  match v with
  | JNull => Some (js "null")
  | JBool true => Some (js "true")
  | JBool false => Some (js "false")
  | JNum n => Some (JsNumber.to_string n)
  | JStr s => Some s
  | JArr l =>
      (fix join (first : bool) (l : list json) : option jsstring :=
         match l with
         | [] => Some []
         | x :: r =>
             let sx := match x with JNull => Some [] | _ => to_string x end in
             match sx, join false r with
             | Some a, Some b =>
                 Some ((if first then [] else js ",") ++ a ++ b)
             | _, _ => None
             end
         end) true l
  | JObj ms =>
      if has_key (js "toString") ms then None
      else Some (js "[object Object]")
  end.

(** *** [JSON.parse]: the lexer *)

Inductive token :=
| TLBrace | TRBrace | TLBracket | TRBracket | TColon | TComma
| TString (s : jsstring)
| TNumber (n : jsnum)
| TTrue | TFalse | TNull.

(** Where the lexer stands inside a number. *)
Inductive num_phase :=
| PMinus      (* after the sign, a digit must follow *)
| PZero       (* after a leading 0 *)
| PInt        (* inside the integer digits *)
| PDot        (* after the point, a digit must follow *)
| PFrac       (* inside the fraction digits *)
| PExp        (* after e or E, a sign or a digit must follow *)
| PExpSign    (* after the exponent sign, a digit must follow *)
| PExpDigits. (* inside the exponent digits *)

Record num_acc := {
  n_neg : bool;     (* a leading minus *)
  n_mant : Z;       (* the digits read so far, the point ignored *)
  n_frac : Z;       (* how many of them follow the point *)
  n_eneg : bool;    (* a minus in the exponent *)
  n_exp : Z         (* the exponent digits *)
}.

Definition num_value (a : num_acc) : jsnum :=
  of_decimal (n_neg a) (n_mant a)
    ((if n_eneg a then - n_exp a else n_exp a) - n_frac a).

Definition num_accepting (p : num_phase) : bool :=
  match p with
  | PZero | PInt | PFrac | PExpDigits => true
  | _ => false
  end.

Inductive lex_state :=
| LDefault
| LStr (acc : jsstring)                     (* reversed *)
| LEsc (acc : jsstring)
| LUni (acc : jsstring) (k : nat) (v : N)   (* [S k] hex digits to read *)
| LLit (rest : jsstring) (t : token)
| LNum (p : num_phase) (a : num_acc).

Definition hex_value (c : N) : option N :=
  (if N.leb 48 c && N.leb c 57 then Some (c - 48)
   else if N.leb 65 c && N.leb c 70 then Some (c - 55)
   else if N.leb 97 c && N.leb c 102 then Some (c - 87)
   else None)%N.

Definition digit_value (c : N) : Z := Z.of_N (c - 48).

Definition is_json_ws (c : N) : bool :=
  (N.eqb c 9 || N.eqb c 10 || N.eqb c 13 || N.eqb c 32)%N.

Definition num_start (neg : bool) (d : Z) : num_acc :=
  {| n_neg := neg; n_mant := d; n_frac := 0; n_eneg := false; n_exp := 0 |}.

(** One character read between tokens. *)
Definition lex_default (c : N) : option (list token * lex_state) :=
  if is_json_ws c then Some ([], LDefault)
  else if N.eqb c 123 then Some ([TLBrace], LDefault)
  else if N.eqb c 125 then Some ([TRBrace], LDefault)
  else if N.eqb c 91 then Some ([TLBracket], LDefault)
  else if N.eqb c 93 then Some ([TRBracket], LDefault)
  else if N.eqb c 58 then Some ([TColon], LDefault)
  else if N.eqb c 44 then Some ([TComma], LDefault)
  else if N.eqb c 34 then Some ([], LStr [])
  else if N.eqb c 45 then Some ([], LNum PMinus (num_start true 0))
  else if N.eqb c 48 then Some ([], LNum PZero (num_start false 0))
  else if is_digit c then Some ([], LNum PInt (num_start false (digit_value c)))
  else if N.eqb c 116 then Some ([], LLit (js "rue") TTrue)
  else if N.eqb c 102 then Some ([], LLit (js "alse") TFalse)
  else if N.eqb c 110 then Some ([], LLit (js "ull") TNull)
  else None.

Definition push_digit (a : num_acc) (c : N) (frac : bool) : num_acc :=
  {| n_neg := n_neg a;
     n_mant := n_mant a * 10 + digit_value c;
     n_frac := if frac then n_frac a + 1 else n_frac a;
     n_eneg := n_eneg a; n_exp := n_exp a |}.

Definition push_exp (a : num_acc) (c : N) : num_acc :=
  {| n_neg := n_neg a; n_mant := n_mant a; n_frac := n_frac a;
     n_eneg := n_eneg a; n_exp := n_exp a * 10 + digit_value c |}.

Definition set_eneg (a : num_acc) (b : bool) : num_acc :=
  {| n_neg := n_neg a; n_mant := n_mant a; n_frac := n_frac a;
     n_eneg := b; n_exp := n_exp a |}.

Definition is_e (c : N) : bool := (N.eqb c 101 || N.eqb c 69)%N.

(** One character read inside a number: the next phase, or [None] when
    the character does not continue the number. *)
Definition num_step (p : num_phase) (a : num_acc) (c : N)
  : option (num_phase * num_acc) :=
  match p with
  | PMinus =>
      if N.eqb c 48 then Some (PZero, a)
      else if is_digit c then Some (PInt, push_digit a c false)
      else None
  | PZero =>
      if N.eqb c 46 then Some (PDot, a)
      else if is_e c then Some (PExp, a)
      else None
  | PInt =>
      if is_digit c then Some (PInt, push_digit a c false)
      else if N.eqb c 46 then Some (PDot, a)
      else if is_e c then Some (PExp, a)
      else None
  | PDot =>
      if is_digit c then Some (PFrac, push_digit a c true) else None
  | PFrac =>
      if is_digit c then Some (PFrac, push_digit a c true)
      else if is_e c then Some (PExp, a)
      else None
  | PExp =>
      if N.eqb c 43 then Some (PExpSign, a)
      else if N.eqb c 45 then Some (PExpSign, set_eneg a true)
      else if is_digit c then Some (PExpDigits, push_exp a c)
      else None
  | PExpSign =>
      if is_digit c then Some (PExpDigits, push_exp a c) else None
  | PExpDigits =>
      if is_digit c then Some (PExpDigits, push_exp a c) else None
  end.

Definition lex_step (st : lex_state) (c : N)
  : option (list token * lex_state) :=
  match st with
  | LDefault => lex_default c
  | LStr acc =>
      if N.eqb c 34 then Some ([TString (rev acc)], LDefault)
      else if N.eqb c 92 then Some ([], LEsc acc)
      else if N.ltb c 32 then None
      else Some ([], LStr (c :: acc))
  | LEsc acc =>
      if N.eqb c 34 then Some ([], LStr (34%N :: acc))
      else if N.eqb c 92 then Some ([], LStr (92%N :: acc))
      else if N.eqb c 47 then Some ([], LStr (47%N :: acc))
      else if N.eqb c 98 then Some ([], LStr (8%N :: acc))
      else if N.eqb c 102 then Some ([], LStr (12%N :: acc))
      else if N.eqb c 110 then Some ([], LStr (10%N :: acc))
      else if N.eqb c 114 then Some ([], LStr (13%N :: acc))
      else if N.eqb c 116 then Some ([], LStr (9%N :: acc))
      else if N.eqb c 117 then Some ([], LUni acc 3 0%N)
      else None
  | LUni acc k v =>
      match hex_value c with
      | None => None
      | Some h =>
          let v' := (v * 16 + h)%N in
          match k with
          | O => Some ([], LStr (v' :: acc))
          | S k' => Some ([], LUni acc k' v')
          end
      end
  | LLit rest t =>
      match rest with
      | [] => None
      | r :: rest' =>
          if N.eqb c r
          then match rest' with
               | [] => Some ([t], LDefault)
               | _ => Some ([], LLit rest' t)
               end
          else None
      end
  | LNum p a =>
      match num_step p a c with
      | Some (p', a') => Some ([], LNum p' a')
      | None =>
          if num_accepting p
          then match lex_default c with
               | Some (ts, st') => Some (TNumber (num_value a) :: ts, st')
               | None => None
               end
          else None
      end
  end.

Fixpoint lex_go (st : lex_state) (s : jsstring) : option (list token) :=
  match s with
  | [] =>
      match st with
      | LDefault => Some []
      | LNum p a => if num_accepting p then Some [TNumber (num_value a)] else None
      | _ => None
      end
  | c :: s' =>
      match lex_step st c with
      | None => None
      | Some (ts, st') =>
          match lex_go st' s' with
          | None => None
          | Some rest => Some (ts ++ rest)
          end
      end
  end.

(** *** [JSON.parse]: the grammar, as a stack machine over the tokens *)

Inductive frame :=
| FArr (elems : list json)                            (* reversed *)
| FObj (members : list (jsstring * json)) (key : option jsstring).

Inductive mode :=
| MValue      (* a value must follow *)
| MArrStart   (* just after [: a value or ] *)
| MObjStart   (* just after {: a key or } *)
| MKey        (* after a comma in an object: a key *)
| MColon      (* after a key *)
| MAfter      (* after a value inside a container *)
| MDone (v : json).

(** A finished value goes to the container on top of the stack, or ends
    the document. *)
Definition deliver (v : json) (stack : list frame)
  : option (mode * list frame) :=
  match stack with
  | [] => Some (MDone v, [])
  | FArr es :: st => Some (MAfter, FArr (v :: es) :: st)
  | FObj ms (Some k) :: st => Some (MAfter, FObj ((k, v) :: ms) None :: st)
  | FObj _ None :: _ => None
  end.

Definition start_value (t : token) (stack : list frame)
  : option (mode * list frame) :=
  match t with
  | TLBrace => Some (MObjStart, FObj [] None :: stack)
  | TLBracket => Some (MArrStart, FArr [] :: stack)
  | TString s => deliver (JStr s) stack
  | TNumber n => deliver (JNum n) stack
  | TTrue => deliver (JBool true) stack
  | TFalse => deliver (JBool false) stack
  | TNull => deliver JNull stack
  | _ => None
  end.

Definition set_key (k : jsstring) (stack : list frame)
  : option (mode * list frame) :=
  match stack with
  | FObj ms None :: st => Some (MColon, FObj ms (Some k) :: st)
  | _ => None
  end.

Definition close_array (stack : list frame) : option (mode * list frame) :=
  match stack with
  | FArr es :: st => deliver (JArr (rev es)) st
  | _ => None
  end.

Definition close_object (stack : list frame) : option (mode * list frame) :=
  match stack with
  | FObj ms None :: st => deliver (JObj (rev ms)) st
  | _ => None
  end.

Definition parse_step (m : mode) (stack : list frame) (t : token)
  : option (mode * list frame) :=
  match m with
  | MValue => start_value t stack
  | MArrStart =>
      match t with
      | TRBracket => close_array stack
      | _ => start_value t stack
      end
  | MObjStart =>
      match t with
      | TRBrace => close_object stack
      | TString k => set_key k stack
      | _ => None
      end
  | MKey =>
      match t with
      | TString k => set_key k stack
      | _ => None
      end
  | MColon =>
      match t with
      | TColon => Some (MValue, stack)
      | _ => None
      end
  | MAfter =>
      match t with
      | TComma =>
          match stack with
          | FArr _ :: _ => Some (MValue, stack)
          | FObj _ None :: _ => Some (MKey, stack)
          | _ => None
          end
      | TRBracket => close_array stack
      | TRBrace => close_object stack
      | _ => None
      end
  | MDone _ => None
  end.

Fixpoint parse_go (m : mode) (stack : list frame) (ts : list token)
  : option json :=
  match ts with
  | [] => match m with MDone v => Some v | _ => None end
  | t :: ts' =>
      match parse_step m stack t with
      | None => None
      | Some (m', stack') => parse_go m' stack' ts'
      end
  end.

(** [JSON.parse] of a string; [None] is a SyntaxError. *)
Definition parse (s : jsstring) : option json :=
  match lex_go LDefault s with
  | None => None
  | Some ts => parse_go MValue [] ts
  end.

End Json.

Import Json.

(** ** [new TextDecoder().decode(value)] *)

Module Utf8.

(** The state of the WHATWG UTF-8 decoder. *)
Record dstate := {
  d_cp : N;        (* code point under construction *)
  d_needed : nat;  (* continuation bytes still to read *)
  d_lower : N;     (* bounds for the next continuation byte *)
  d_upper : N
}.

Definition d_init : dstate :=
  {| d_cp := 0; d_needed := 0; d_lower := 0x80; d_upper := 0xBF |}.

Definition replacement : N := 0xFFFD.

(** A byte read when no sequence is open. *)
Definition lead (b : N) : list N * dstate :=
  (if N.leb b 0x7F then ([b], d_init)
   else if N.leb 0xC2 b && N.leb b 0xDF then
     ([], {| d_cp := N.land b 0x1F; d_needed := 1;
             d_lower := 0x80; d_upper := 0xBF |})
   else if N.leb 0xE0 b && N.leb b 0xEF then
     ([], {| d_cp := N.land b 0xF; d_needed := 2;
             d_lower := if N.eqb b 0xE0 then 0xA0 else 0x80;
             d_upper := if N.eqb b 0xED then 0x9F else 0xBF |})
   else if N.leb 0xF0 b && N.leb b 0xF4 then
     ([], {| d_cp := N.land b 0x7; d_needed := 3;
             d_lower := if N.eqb b 0xF0 then 0x90 else 0x80;
             d_upper := if N.eqb b 0xF4 then 0x8F else 0xBF |})
   else ([replacement], d_init))%N.

Definition step (st : dstate) (b : N) : list N * dstate :=
  match d_needed st with
  | O => lead b
  | S k =>
      if (N.leb (d_lower st) b && N.leb b (d_upper st))%N then
        let cp := N.lor (N.shiftl (d_cp st) 6) (N.land b 0x3F) in
        match k with
        | O => ([cp], d_init)
        | S _ => ([], {| d_cp := cp; d_needed := k;
                         d_lower := 0x80; d_upper := 0xBF |})
        end
      else
        (* the open sequence is malformed: one replacement character,
           and the byte is read again as the start of a sequence *)
        let '(out, st') := lead b in (replacement :: out, st')
  end.

Fixpoint scalars (st : dstate) (bs : list byte) : list N :=
  match bs with
  | [] => match d_needed st with O => [] | S _ => [replacement] end
  | b :: bs' =>
      let '(out, st') := step st (Byte.to_N b) in
      out ++ scalars st' bs'
  end.

(** A scalar value as UTF-16 code units. *)
Definition utf16 (cp : N) : jsstring :=
  (if N.ltb cp 0x10000 then [cp]
   else let c := cp - 0x10000 in
        [0xD800 + N.shiftr c 10; 0xDC00 + N.land c 0x3FF])%N.

(** The decoder is created afresh for every buffer and is not asked to
    stream: a sequence cut by the end of the buffer is flushed as a
    replacement character, and a leading byte order mark is dropped. *)
Definition decode (bs : list byte) : jsstring :=
  let cps := scalars d_init bs in
  let cps' := match cps with
              | c :: rest => if N.eqb c 0xFEFF then rest else cps
              | [] => []
              end in
  concat (map utf16 cps').

(** The UTF-8 bytes of a source literal ([jq]'s convention for quotes). *)
Definition bytes (s : string) : list byte :=
  map (fun b => if Byte.eqb b "'"%byte then x22 else b)
      (list_byte_of_string s).

End Utf8.

(** ** The data of [interfaces.ts] *)

Module Types.

(** [role: "user" | "assistant" | "system"]. *)
Inductive role := User | Assistant | System.

Definition role_eqb (a b : role) : bool :=
  match a, b with
  | User, User | Assistant, Assistant | System, System => true
  | _, _ => false
  end.

(** [FunctionCall], with the fields as loosely typed as the values
    that reach them at run time. *)
Record FunctionCall := {
  fc_name : jsval;
  fc_arguments : jsval
}.

(** What the [function_call] field of a response holds. *)
Inductive call_slot :=
| CallNull
| CallUndefined
| CallOf (fc : FunctionCall).

(** [ParsedResponseMessage]; [Some JNull] is a [null] content. *)
Record ParsedResponseMessage := {
  prm_role : role;
  prm_content : jsval;
  prm_function_call : call_slot
}.

(** [FunctionDefinition]. *)
Record FunctionDefinition := {
  fd_name : jsstring;
  fd_description : option jsstring;
  fd_parameters : json
}.

(** [File]. *)
Record File := {
  f_mimeType : option jsstring;
  f_url : option jsstring;
  f_data : option jsstring
}.

(** [GenericMessage]. *)
Record GenericMessage := {
  gm_role : role;
  gm_content : jsstring;
  gm_files : option (list File)
}.

(** The [function_call] directive of a request. *)
Inductive call_directive :=
| DirNone
| DirAuto
| DirFunction (name : jsstring).

(** [GenericPayload]. *)
Record GenericPayload := {
  gp_model : jsstring;
  gp_messages : list GenericMessage;
  gp_functions : option (list FunctionDefinition);
  gp_function_call : option call_directive;
  gp_temperature : option jsnum
}.

(** [OpenAIContentBlock]. *)
Inductive OpenAIContentBlock :=
| OText (text : jsstring)
| OImageUrl (url : jsstring)
| OAudioUrl (url : jsstring).

(** [content: string | OpenAIContentBlock[]]. *)
Inductive OpenAIContent :=
| OString (s : jsstring)
| OBlocks (blocks : list OpenAIContentBlock).

Record OpenAIMessage := {
  om_role : role;
  om_content : OpenAIContent
}.

(** [tool_choice]: ["none"], ["auto"], or one function by name. *)
Inductive tool_choice :=
| ChoiceNone
| ChoiceAuto
| ChoiceFunction (name : jsstring).

(** [OpenAIPayload] and [GroqPayload]; every tool is a function
    definition wrapped as [{type: "function", function: fn}]. *)
Record OpenAIPayload := {
  op_model : jsstring;
  op_messages : list OpenAIMessage;
  op_tools : option (list FunctionDefinition);
  op_tool_choice : option tool_choice;
  op_temperature : option jsnum
}.

(** The [service] of a configuration object. *)
Inductive service := Azure | OpenAI | Anthropic | Bedrock.

Record AzureModelConfig := {
  az_endpoint : option jsstring;
  az_deployment : jsstring;
  az_apiVersion : jsstring;
  az_apiKey : jsstring
}.

(** [OpenAIConfig | AnthropicAIConfig]: the caller hands over one
    object, which each path reads as the configuration of its own
    provider.  An [AnthropicAIConfig] has the [service] only. *)
Record AIConfig := {
  cfg_service : service;
  cfg_apiKey : option jsstring;
  cfg_baseUrl : option jsstring;
  cfg_orgId : option jsstring;
  cfg_modelConfigMap : option (gmap jsstring AzureModelConfig)
}.

(** [AnthropicContentBlock]. *)
Inductive AnthropicContentBlock :=
| AText (text : jsstring)
| AImage (media_type : jsstring) (data : jsstring).

(** [content: string | AnthropicContentBlock[]]. *)
Inductive AnthropicContent :=
| AString (s : jsstring)
| ABlocks (blocks : list AnthropicContentBlock).

Record AnthropicAIMessage := {
  am_role : role;
  am_content : AnthropicContent
}.

Record AnthropicAIPayload := {
  ap_model : jsstring;
  ap_messages : list AnthropicAIMessage;
  ap_functions : option (list FunctionDefinition);
  ap_temperature : option jsnum;
  ap_system : option jsstring
}.

(** [GoogleAIPart]. *)
Inductive GoogleAIPart :=
| GText (text : jsstring)
| GInlineData (mimeType : jsstring) (data : jsstring).

(** [role: "user" | "model"], and whatever else is copied there. *)
Inductive google_role := GUser | GModel.

Record GoogleAIMessage := {
  ggm_role : google_role;
  ggm_parts : list GoogleAIPart
}.

Record GoogleAIPayload := {
  ggp_model : jsstring;
  ggp_messages : list GoogleAIMessage;
  ggp_tools : option (list FunctionDefinition);
  ggp_systemInstruction : option jsstring
}.

(** The model enumerations. *)
Module ClaudeModel.
Definition HAIKU := js "claude-3-haiku-20240307".
Definition SONNET := js "claude-3-sonnet-20240229".
Definition OPUS := js "claude-3-opus-20240229".
Definition values : list jsstring := [HAIKU; SONNET; OPUS].
End ClaudeModel.

Module GPTModel.
Definition GPT35_0613 := js "gpt-3.5-turbo-0613".
Definition GPT35_0613_16K := js "gpt-3.5-turbo-16k-0613".
Definition GPT35_0125 := js "gpt-3.5-turbo-0125".
Definition GPT4_1106_PREVIEW := js "gpt-4-1106-preview".
Definition GPT4_0125_PREVIEW := js "gpt-4-0125-preview".
Definition GPT4_0409 := js "gpt-4-turbo-2024-04-09".
Definition GPT4O := js "gpt-4o".
Definition values : list jsstring :=
  [GPT35_0613; GPT35_0613_16K; GPT35_0125; GPT4_1106_PREVIEW;
   GPT4_0125_PREVIEW; GPT4_0409; GPT4O].
End GPTModel.

Module GroqModel.
Definition LLAMA_3_70B_8192 := js "llama3-70b-8192".
Definition values : list jsstring := [LLAMA_3_70B_8192].
End GroqModel.

Module GeminiModel.
Definition GEMINI_15_PRO := js "gemini-1.5-pro-latest".
Definition values : list jsstring := [GEMINI_15_PRO].
End GeminiModel.

End Types.

Import Types.

(** ** Exceptions, console output and the outside world *)

Module Effects.

(** What the program throws and catches. *)
Inductive js_error :=
| Error_ (message : jsstring)
    (* [new Error(message)] *)
| ErrorWithData (message : jsstring) (data : json)
    (* the same with a [data] property set afterwards; the [requestBody]
       set along with it, which nothing reads, is left out *)
| ErrorWithResponse (message : jsstring)
                    (response : option ParsedResponseMessage)
    (* the same with a [response] property set afterwards *)
| TypeError
    (* a property read on [null] or [undefined], a failed ToPrimitive *)
| SyntaxError
    (* [JSON.parse] *)
| External (data : jsval) (response_data : jsval).
    (* thrown by the transport or by a library: what the program reads
       of it is [e.data] and [e.response?.data] *)

(** [error.data]. *)
Definition error_data (e : js_error) : jsval :=
  match e with
  | ErrorWithData _ d => Some d
  | External d _ => d
  | _ => None
  end.

(** [e.response?.data]: the response this program attaches is a
    [ParsedResponseMessage], which has no [data]. *)
Definition error_response_data (e : js_error) : jsval :=
  match e with
  | External _ r => r
  | _ => None
  end.

Inductive result (A : Type) :=
| Ok (a : A)
| Throw (e : js_error).
Arguments Ok {A} a.
Arguments Throw {A} e.

(** Console output, one constructor for every call site, sleeps, and
    the requests that leave the process. *)
Inductive event :=
(* parseStreamedResponse *)
| LogArgsParseError (args : jsstring)
| LogNoContentOrCall (paragraph name args : jsstring)
(* callOpenAiWithRetries *)
| LogCallingOpenAI (service : option service) (model : jsstring)
| LogError (e : js_error)
| LogRetryingOpenAI (service : option service) (model : jsstring)
                    (e : js_error)
| LogRetryFailedWithCode (i : Z) (code : json)
| LogSwitchPolicyViolation
| LogSwitchContentFilter
| LogSwitchAzureError
| LogNoToolChoice
| LogOpenAIExhausted (retries : Z)
(* callOpenAIStream *)
| LogUsingAzure (model : jsstring)
| LogUsingEndpoint (endpoint : jsstring)
| LogUsingOpenAI (model : jsstring)
| LogUsingOrgId (orgId : jsstring)
| LogEndedViaDoneFlag (chunks : nat) (raw : jsstring)
| LogExplicitDone (chunks : nat)
| LogStreamParsingError (raw : jsstring)
| LogOpenAIStreamError (error : json)
| LogNoChoices (record : json)
(* the Anthropic path *)
| LogCallingAnthropic
| LogRetryingAnthropic (e : js_error)
| LogMissingAnswer
| LogMissingAnswerType
| LogNoTextInAnswer (text : jsstring)
| LogMissingTextAndFns
| LogSkippingFile
| LogNormalizingImage (url : jsstring)
(* the Groq and Google paths *)
| LogCallingGroq
| LogRetryingGroq (e : js_error)
| LogMissingGroqAnswer
| LogCallingGoogle
(* callWithRetries *)
| LogDelegating (provider : jsstring)
(* timeout(ms) *)
| Sleep (ms : Z)
(* a request sent to a provider *)
| Request (provider : jsstring).

(** A computation: what it printed and did, and how it ended. *)
Definition M (A : Type) : Type := list event * result A.

Definition ret {A} (a : A) : M A := ([], Ok a).
Definition throw {A} (e : js_error) : M A := ([], Throw e).
Definition emit (ev : event) : M unit := ([ev], Ok tt).

Definition bind {A B} (m : M A) (k : A -> M B) : M B :=
  match m with
  | (l, Ok a) => let '(l', r) := k a in (l ++ l', r)
  | (l, Throw e) => (l, Throw e)
  end.

(** [try { m } catch (error) { h error }]. *)
Definition catch {A} (m : M A) (h : js_error -> M A) : M A :=
  match m with
  | (l, Ok a) => (l, Ok a)
  | (l, Throw e) => let '(l', r) := h e in (l ++ l', r)
  end.

(** A pure step that may throw. *)
Definition lift {A} (r : result A) : M A := ([], r).

(** How many events of a trace pass a test. *)
Definition count_events (t : event -> bool) (l : list event) : nat :=
  length (List.filter t l).

(** The requests a trace shows. *)
Definition is_request (ev : event) : bool :=
  match ev with Request _ => true | _ => false end.

Definition requests_made (l : list event) : nat :=
  count_events is_request l.

Definition events {A} (m : M A) : list event := fst m.
Definition outcome {A} (m : M A) : result A := snd m.

(** A computation none of whose events passes the test. *)
Definition silent (t : event -> bool) {A} (m : M A) : Prop :=
  count_events t (events m) = 0%nat.

End Effects.

Import Effects.

(** ** The outside world *)

Module World.

(** How a [fetch] of the streaming endpoint ends. *)
Inductive fetch_outcome :=
| FetchThrows (e : js_error)
    (* the promise rejects *)
| FetchNoBody
    (* [response.body] is null *)
| FetchBody (chunks : list (list byte)) (ending : option js_error).
    (* the buffers [reader.read()] yields one after the other, and then
       either the done flag ([None]) or a rejection, as after an abort *)

(** What [callAnthropic] sends. *)
Record AnthropicRequest := {
  ar_service : service;
  ar_model : jsstring;
  ar_messages : list AnthropicAIMessage;
  ar_tools : option (list FunctionDefinition);
  ar_temperature : option jsnum;
  ar_system : option jsstring
}.

(** What the Google client hands back: [response.text()] and
    [response.functionCalls()], the calls as (name, args) pairs. *)
Record GoogleResponse := {
  gr_text : option jsstring;
  gr_functionCalls : option (list (jsstring * json))
}.

(** Everything the program does not decide: the answers of the
    providers (the [n]-th request of a call may fare differently from
    the one before), the image normalizer and the environment. *)
Record world := {
  w_fetch : nat -> jsstring -> AIConfig -> OpenAIPayload -> fetch_outcome;
  w_OPENAI_API_KEY : option jsstring;
  w_anthropic_post : nat -> AnthropicRequest -> result json;
  w_bedrock_send : nat -> AnthropicRequest -> result (list byte);
  w_groq_post : nat -> OpenAIPayload -> result json;
  w_google_send : GoogleAIPayload -> result GoogleResponse;
  w_normalized_png : jsstring -> jsstring -> result jsstring
}.

End World.

Import World.

Declare Scope js_scope.
Delimit Scope js_scope with js.
Notation "'do' x <- m ; k" := (bind m (fun x => k))
  (at level 10, x pattern, m at level 100, k at level 200) : js_scope.
Notation "m ;; k" := (bind m (fun _ => k))
  (at level 100, k at level 200, right associativity) : js_scope.
Local Open Scope js_scope.

(** Property reads and conversions that may throw. *)
Module JsOps.

(** [v.k]: a TypeError when [v] is [null] or [undefined]. *)
Definition read_val (v : jsval) (k : jsstring) : M jsval :=
  if nullish v then throw TypeError else ret (get_opt v k).

(** ToString of any value. *)
Definition to_string_val (v : jsval) : M jsstring :=
  match v with
  | None => ret (js "undefined")
  | Some j =>
      match to_string j with
      | Some t => ret t
      | None => throw TypeError
      end
  end.

(** [v === "s"]. *)
Definition is_string (v : jsval) (s : jsstring) : bool :=
  match v with
  | Some (JStr c) => JsString.eqb c s
  | _ => false
  end.

Fixpoint index_of (pat s : jsstring) : option nat :=
  if starts_with pat s then Some O
  else match s with
       | [] => None
       | _ :: s' => option_map S (index_of pat s')
       end.

End JsOps.

Import JsOps.

(** ** [utils.ts] *)

Module Utils.

(** [name.split(".").pop()]: what follows the last dot of [name], all of
    [name] when it has no dot. *)
Definition last_segment (name : jsstring) : jsstring :=
  fold_left (fun cur c => if N.eqb c 46 then [] else cur ++ [c]) name [].

Definition heic_extensions : list jsstring :=
  [js "heic"; js "heif"; js "heics"].

Definition heic_mimes : list jsstring :=
  [js "image/heic"; js "image/heif"; js "image/heic-sequence"].

(** [isHeicImage(name, mime)].  [toLowerCase] is the engine's
    [String.prototype.toLowerCase], the case mapping of Unicode. *)
Definition isHeicImage (toLowerCase : jsstring -> jsstring)
    (name : jsstring) (mime : option jsstring) : bool :=
  let extension := toLowerCase (last_segment name) in
  bool_decide (extension ∈ heic_extensions)
  || match mime with
     | Some ((_ :: _) as m) => bool_decide (m ∈ heic_mimes)
     | _ => false
     end.

(** The case mapping on the letters of Basic Latin. *)
Definition ascii_lower (s : jsstring) : jsstring :=
  map (fun c => if (N.leb 65 c && N.leb c 90)%N then (c + 32)%N else c) s.

End Utils.

(** ** The OpenAI stream: [callOpenAIStream] and [parseStreamedResponse] *)

Module Stream.

(** [parseStreamedResponse]. *)
Definition parseStreamedResponse
    (identifier paragraph functionCallName functionCallArgs : jsstring)
    (allowedFunctionNames : option (gset jsstring))
  : M ParsedResponseMessage :=
  do functionCall <-
    (if negb (is_empty functionCallName) && negb (is_empty functionCallArgs)
     then
       if match allowedFunctionNames with
          | Some names => negb (bool_decide (functionCallName ∈ names))
          | None => false
          end
       then throw (Error_
              (js "Stream error: received function call with unknown name: "
               ++ functionCallName))
       else
         match parse functionCallArgs with
         | Some arguments =>
             ret (CallOf {| fc_name := Some (JStr functionCallName);
                            fc_arguments := Some arguments |})
         | None =>
             emit (LogArgsParseError functionCallArgs) ;;
             throw SyntaxError
         end
     else ret CallNull);
  if is_empty paragraph
     && match functionCall with CallNull => true | _ => false end
  then
    emit (LogNoContentOrCall paragraph functionCallName functionCallArgs) ;;
    throw (Error_
      (js "Stream error: received message without content or function_call"))
  else
    ret {| prm_role := Assistant;
           prm_content :=
             if is_empty paragraph then Some JNull
             else Some (JStr paragraph);
           prm_function_call := functionCall |}.

(** The variables of the read loop. *)
Record acc := {
  rawStreamedBody : jsstring;
  paragraph : jsstring;
  functionCallName : jsstring;
  functionCallArgs : jsstring;
  partialChunk : jsstring
}.

Definition acc_init : acc :=
  {| rawStreamedBody := []; paragraph := []; functionCallName := [];
     functionCallArgs := []; partialChunk := [] |}.

Definition set_raw (st : acc) (s : jsstring) : acc :=
  {| rawStreamedBody := s; paragraph := paragraph st;
     functionCallName := functionCallName st;
     functionCallArgs := functionCallArgs st;
     partialChunk := partialChunk st |}.
Definition set_paragraph (st : acc) (s : jsstring) : acc :=
  {| rawStreamedBody := rawStreamedBody st; paragraph := s;
     functionCallName := functionCallName st;
     functionCallArgs := functionCallArgs st;
     partialChunk := partialChunk st |}.
Definition set_name (st : acc) (s : jsstring) : acc :=
  {| rawStreamedBody := rawStreamedBody st; paragraph := paragraph st;
     functionCallName := s;
     functionCallArgs := functionCallArgs st;
     partialChunk := partialChunk st |}.
Definition set_args (st : acc) (s : jsstring) : acc :=
  {| rawStreamedBody := rawStreamedBody st; paragraph := paragraph st;
     functionCallName := functionCallName st;
     functionCallArgs := s;
     partialChunk := partialChunk st |}.
Definition set_partial (st : acc) (s : jsstring) : acc :=
  {| rawStreamedBody := rawStreamedBody st; paragraph := paragraph st;
     functionCallName := functionCallName st;
     functionCallArgs := functionCallArgs st;
     partialChunk := s |}.

(** [json.k] on a parsed record: a TypeError on [null]. *)
Definition read (v : json) (k : jsstring) : M jsval :=
  match v with
  | JNull => throw TypeError
  | _ => ret (get_prop v k)
  end.

(** [s += v] for a truthy [v]. *)
Definition append (s : jsstring) (v : jsval) : M jsstring :=
  match v with
  | Some j =>
      match to_string j with
      | Some t => ret (s ++ t)
      | None => throw TypeError
      end
  | None => ret (s ++ js "undefined")
  end.

(** [!json.choices || !json.choices.length], once [json.choices] is
    read. *)
Definition lacks_choices (choices : jsval) : bool :=
  negb (truthy choices) || negb (truthy (get_opt choices (js "length"))).

(** [json.choices?.[0]?.delta]. *)
Definition first_delta (choices : jsval) : jsval :=
  get_opt (get_opt choices (js "0")) (js "delta").

(** The body of the loop over the pieces, from the successful
    [JSON.parse] on: the variables as the record leaves them. *)
Definition process_record (chunkIndex : nat) (st : acc) (json : json)
  : M acc :=
  do choices <- read json (js "choices");
  if lacks_choices choices then
    do error <- read json (js "error");
    if truthy error then
      match error with
      | Some data =>
          emit (LogOpenAIStreamError data) ;;
          throw (ErrorWithData (js "Stream error: OpenAI error") data)
      | None => ret st
      end
    else
      (if negb (Nat.eqb chunkIndex 0) then emit (LogNoChoices json)
       else ret tt) ;;
      ret st
  else
    let dToolCall :=
      get_opt (get_opt (first_delta choices) (js "tool_calls")) (js "0") in
    do st1 <-
      (if truthy dToolCall then
         (* toolCallIndex === 0 exactly when dToolCall.index is falsy *)
         if negb (truthy (get_opt dToolCall (js "index"))) then
           let fn := get_opt dToolCall (js "function") in
           let dFn := if truthy fn then fn else Some (JObj []) in
           let name := get_opt dFn (js "name") in
           do st' <-
             (if truthy name then
                do s <- append (functionCallName st) name;
                ret (set_name st s)
              else ret st);
           let arguments := get_opt dFn (js "arguments") in
           if truthy arguments then
             do s <- append (functionCallArgs st') arguments;
             ret (set_args st' s)
           else ret st'
         else ret st
       else ret st);
    let text := get_opt (first_delta choices) (js "content") in
    if truthy text then
      do s <- append (paragraph st1) text;
      ret (set_paragraph st1 s)
    else ret st1.

(** How the loop over the pieces of one buffer ends, when it does not
    throw. *)
Inductive pieces_result :=
| Continue (st : acc)                     (* on to the next read *)
| Return (m : ParsedResponseMessage).     (* the [return] in the loop *)

Definition sentinel : jsstring := js "[DONE]".

(** [for (let jsonString of jsonStrings) { ... }]. *)
Fixpoint process_pieces (identifier : jsstring)
    (functionNames : option (gset jsstring))
    (chunkIndex : nat) (st : acc) (jsonStrings : list jsstring)
  : M pieces_result :=
  match jsonStrings with
  | [] => ret (Continue st)
  | jsonString :: rest =>
      if is_empty jsonString then
        process_pieces identifier functionNames chunkIndex st rest
      else if includes sentinel jsonString then
        emit (LogExplicitDone (chunkIndex + 1)) ;;
        do m <- catch
                  (parseStreamedResponse identifier (paragraph st)
                     (functionCallName st) (functionCallArgs st)
                     functionNames)
                  (fun error =>
                     emit (LogStreamParsingError (rawStreamedBody st)) ;;
                     throw error);
        ret (Return m)
      else
        match parse (trim jsonString) with
        | None =>
            process_pieces identifier functionNames chunkIndex
              (set_partial st jsonString) rest
        | Some json =>
            do st' <- process_record chunkIndex st json;
            process_pieces identifier functionNames chunkIndex st' rest
        end
  end.

(** The text the pieces of a read are cut from, and the variables
    before the cut. *)
Definition take_chunk (st : acc) (value : list byte) : jsstring * acc :=
  let chunk := Utf8.decode value in
  let st1 := set_raw st (rawStreamedBody st ++ chunk ++ newline) in
  if negb (is_empty (partialChunk st1))
  then (partialChunk st1 ++ chunk, set_partial st1 [])
  else (chunk, st1).

(** [while (true) { ... }], the reads that are still to come being
    [chunks] followed by [ending]. *)
Fixpoint read_loop (identifier : jsstring)
    (functionNames : option (gset jsstring))
    (chunks : list (list byte)) (ending : option js_error)
    (chunkIndex : nat) (st : acc)
  : M ParsedResponseMessage :=
  match chunks with
  | [] =>
      match ending with
      | Some e => throw e
      | None =>
          emit (LogEndedViaDoneFlag (chunkIndex + 1) (rawStreamedBody st)) ;;
          throw (Error_ (js "Stream error: ended prematurely"))
      end
  | value :: rest =>
      let '(chunk, st1) := take_chunk st value in
      do r <- process_pieces identifier functionNames chunkIndex st1
                (split_data chunk);
      match r with
      | Return m => ret m
      | Continue st' =>
          read_loop identifier functionNames rest ending (S chunkIndex) st'
      end
  end.

Definition azure_endpoint (c : AzureModelConfig) (endpoint : jsstring)
  : jsstring :=
  endpoint ++ js "/openai/deployments/" ++ az_deployment c
  ++ js "/chat/completions?api-version=" ++ az_apiVersion c.

Definition openai_endpoint : jsstring :=
  js "https://api.openai.com/v1/chat/completions".

Definition default_config (w : world) : AIConfig :=
  {| cfg_service := OpenAI; cfg_apiKey := w_OPENAI_API_KEY w;
     cfg_baseUrl := Some []; cfg_orgId := None;
     cfg_modelConfigMap := None |}.

(** The two branches of [callOpenAIStream] up to the [fetch]: the
    endpoint the request goes to.  The model is one of [GPTModel] on every
    path, so that the lookup in the configuration map finds an entry of the
    map or nothing. *)
Definition choose_endpoint (openAiPayload : OpenAIPayload)
    (config : AIConfig) : M jsstring :=
  match cfg_service config with
  | Azure =>
      emit (LogUsingAzure (op_model openAiPayload)) ;;
      match cfg_modelConfigMap config with
      | None =>
          throw (Error_ (js
            "OpenAI config modelConfigMap is required when using Azure OpenAI service."))
      | Some modelConfigMap =>
          match modelConfigMap !! op_model openAiPayload with
          | None => throw TypeError
          | Some azureConfig =>
              match az_endpoint azureConfig with
              | Some ((_ :: _) as e) =>
                  let endpoint := azure_endpoint azureConfig e in
                  emit (LogUsingEndpoint endpoint) ;;
                  ret endpoint
              | _ =>
                  throw (Error_ (js
                    "Azure OpenAI endpoint is required in modelConfigMap."))
              end
          end
      end
  | _ =>
      (* openai by default *)
      emit (LogUsingOpenAI (op_model openAiPayload)) ;;
      match cfg_orgId config with
      | Some ((_ :: _) as orgId) => emit (LogUsingOrgId orgId)
      | _ => ret tt
      end ;;
      ret openai_endpoint
  end.

(** [callOpenAIStream]; [n] numbers the request.  The per-chunk timer
    only acts through the transport: when it fires, the pending read
    rejects, which is an [ending] of the body. *)
Definition callOpenAIStream (w : world) (n : nat)
    (identifier : jsstring) (openAiPayload : OpenAIPayload)
    (openAiConfig : option AIConfig)
  : M ParsedResponseMessage :=
  let functionNames : option (gset jsstring) :=
    option_map (fun tools => list_to_set (map fd_name tools))
               (op_tools openAiPayload) in
  let config := match openAiConfig with
                | Some c => c
                | None => default_config w
                end in
  do endpoint <- choose_endpoint openAiPayload config;
  emit (Request endpoint) ;;
  match w_fetch w n endpoint config openAiPayload with
  | FetchThrows e => throw e
  | FetchNoBody => throw (Error_ (js "Stream error: no response body"))
  | FetchBody chunks ending =>
      read_loop identifier functionNames chunks ending 0 acc_init
  end.

End Stream.

(** ** [callOpenAiWithRetries] *)

Module OpenAiRetries.

(** [error.data?.code]. *)
Definition error_code (error : js_error) : jsval :=
  get_opt (error_data error) (js "code").

(** The number [0.8]. *)
Definition temperature_0_8 : jsnum := of_decimal false 8 (-1).

Definition is_text_block (b : OpenAIContentBlock) : bool :=
  match b with OText _ => true | _ => false end.

(** [message.content = message.content.filter(c => c.type === "text")]
    when the content is an array. *)
Definition strip_non_text (message : OpenAIMessage) : OpenAIMessage :=
  match om_content message with
  | OBlocks blocks =>
      {| om_role := om_role message;
         om_content := OBlocks (List.filter is_text_block blocks) |}
  | OString _ => message
  end.

Definition service_of (c : option AIConfig) : option service :=
  option_map cfg_service c.

Definition is_azure (c : option AIConfig) : bool :=
  match service_of c with Some Azure => true | _ => false end.

(** [openAiConfig.service = "openai"]. *)
Definition switch_to_openai (c : option AIConfig) : option AIConfig :=
  option_map (fun c => {| cfg_service := OpenAI;
                          cfg_apiKey := cfg_apiKey c;
                          cfg_baseUrl := cfg_baseUrl c;
                          cfg_orgId := cfg_orgId c;
                          cfg_modelConfigMap := cfg_modelConfigMap c |}) c.

Definition set_model_temperature (p : OpenAIPayload) : OpenAIPayload :=
  {| op_model := GPTModel.GPT4_0409;
     op_messages := op_messages p;
     op_tools := op_tools p;
     op_tool_choice := op_tool_choice p;
     op_temperature := Some temperature_0_8 |}.

Definition set_messages (p : OpenAIPayload) (ms : list OpenAIMessage)
  : OpenAIPayload :=
  {| op_model := op_model p;
     op_messages := ms;
     op_tools := op_tools p;
     op_tool_choice := op_tool_choice p;
     op_temperature := op_temperature p |}.

Definition set_tool_choice_none (p : OpenAIPayload) : OpenAIPayload :=
  {| op_model := op_model p;
     op_messages := op_messages p;
     op_tools := op_tools p;
     op_tool_choice := Some ChoiceNone;
     op_temperature := op_temperature p |}.

(** [openAiPayload.tools] is truthy. *)
Definition has_tools (p : OpenAIPayload) : bool :=
  match op_tools p with Some _ => true | None => false end.

(** The two objects the attempts share. *)
Abbreviation retry_state := (OpenAIPayload * option AIConfig)%type.

(** The [catch] block of the loop, for the attempt of index [i]: what
    it prints, and the payload and the configuration as it leaves
    them. *)
Definition catch_block (i : nat) (error : js_error) (s : retry_state)
  : list event * retry_state :=
  let '(p0, c0) := s in
  let errorCode := error_code error in
  let l0 :=
    [LogError error;
     LogRetryingOpenAI (service_of c0) (op_model p0) error] ++
    match errorCode with
    | Some code => if truthy errorCode
                   then [LogRetryFailedWithCode (Z.of_nat i) code] else []
    | None => []
    end in
  (* to solve context length issue or JSON parsing error *)
  let p1 := set_model_temperature p0 in
  (* usually due to image content *)
  let '(l2, p2) :=
    if is_string errorCode (js "content_policy_violation")
    then ([LogSwitchPolicyViolation],
          set_messages p1 (map strip_non_text (op_messages p1)))
    else ([], p1) in
  (* on 2nd or more retries, if the Azure content policy error persists *)
  let '(l3, c3) :=
    if (2 <=? i)%nat && is_azure c0
       && is_string errorCode (js "content_filter")
    then ([LogSwitchContentFilter], switch_to_openai c0)
    else ([], c0) in
  (* on 3rd retry *)
  let '(l4, c4) :=
    if (i =? 3)%nat && is_azure c3
    then ([LogSwitchAzureError], switch_to_openai c3)
    else ([], c3) in
  (* on 4th retry *)
  let '(l5, p5) :=
    if (i =? 4)%nat && has_tools p2
    then ([LogNoToolChoice], set_tool_choice_none p2)
    else ([], p2) in
  (l0 ++ l2 ++ l3 ++ l4 ++ l5 ++ [Sleep 250], (p5, c4)).

(** [for (let i = ...; i <= retries; i++) { try ... catch ... }] with
    [fuel] iterations left: the value returned from inside the loop, if
    any, and the two objects at the end. *)
Fixpoint attempts (w : world) (identifier : jsstring)
    (fuel i : nat) (s : retry_state)
  : list event * (option ParsedResponseMessage * retry_state) :=
  match fuel with
  | O => ([], (None, s))
  | S fuel' =>
      match Stream.callOpenAIStream w i identifier (fst s) (snd s) with
      | (l, Ok res) => (l, (Some res, s))
      | (l, Throw error) =>
          let '(l', s') := catch_block i error s in
          let '(l'', r) := attempts w identifier fuel' (S i) s' in
          (l ++ l' ++ l'', r)
      end
  end.

Definition exhausted_message (identifier : jsstring) (retries : Z)
  : jsstring :=
  identifier ++ js ": Failed to call OpenAI API after " ++ of_Z retries
  ++ js " attempts. Please lookup OpenAI status for active issues.".

(** [retries: number = 5]. *)
Definition default_retries : Z := 5.

(** [callOpenAiWithRetries]: how the call ends, and the payload and
    configuration objects as it leaves them.  [retries] is a whole
    number. *)
Definition callOpenAiWithRetries (w : world) (identifier : jsstring)
    (openAiPayload : OpenAIPayload) (openAiConfig : option AIConfig)
    (retries : Z)
  : M ParsedResponseMessage * retry_state :=
  let l0 := [LogCallingOpenAI (service_of openAiConfig)
                              (op_model openAiPayload)] in
  let '(l, (r, s)) :=
    attempts w identifier (Z.to_nat (retries + 1)) 0
             (openAiPayload, openAiConfig) in
  match r with
  | Some res => ((l0 ++ l, Ok res), s)
  | None =>
      ((l0 ++ l ++ [LogOpenAIExhausted retries],
        Throw (Error_ (exhausted_message identifier retries))), s)
  end.

(** The attempts a trace shows: each call of [callOpenAIStream] starts
    by announcing the service it uses. *)
Definition is_attempt (ev : event) : bool :=
  match ev with
  | LogUsingAzure _ | LogUsingOpenAI _ => true
  | _ => false
  end.

Definition attempts_made (l : list event) : nat :=
  count_events is_attempt l.

End OpenAiRetries.

(** ** The Anthropic path *)

Module AnthropicPath.

(** The message [{role: "user", content: "..."}]. *)
Definition placeholder : AnthropicAIMessage :=
  {| am_role := User; am_content := AString (js "...") |}.

Definition as_blocks (c : AnthropicContent) : list AnthropicContentBlock :=
  match c with
  | ABlocks b => b
  | AString s => [AText s]
  end.

Definition separator : AnthropicContentBlock :=
  AText (newline ++ newline ++ js "---" ++ newline ++ newline).

(** A message object together with its place in the caller's array,
    [None] for an object made here: the reduction below assigns to the
    [content] of the objects it is given.  The objects of the caller's
    array are distinct, as [prepareAnthropicPayload] makes them. *)
Abbreviation tracked := (option nat * AnthropicAIMessage)%type.

Definition merged (lastMessage message : AnthropicAIMessage)
  : AnthropicAIMessage :=
  {| am_role := am_role lastMessage;
     am_content := ABlocks (as_blocks (am_content lastMessage)
                            ++ [separator]
                            ++ as_blocks (am_content message)) |}.

Definition converted (message : AnthropicAIMessage) : AnthropicAIMessage :=
  match am_content message with
  | AString s => {| am_role := am_role message;
                    am_content := ABlocks [AText s] |}
  | ABlocks _ => message
  end.

(** The callback of [reduce]; the accumulator is held last message
    first. *)
Definition reduce_step (acc : list tracked) (message : tracked)
  : list tracked :=
  match acc with
  | [] => [message]
  | (at_, lastMessage) :: before =>
      if role_eqb (am_role lastMessage) (am_role (snd message))
      then (at_, merged lastMessage (snd message)) :: before
      else (fst message, converted (snd message)) :: acc
  end.

Definition track (messages : list AnthropicAIMessage) : list tracked :=
  imap (fun i m => (Some i, m)) messages.

(** If the first message is not user, add an empty user message at
    the start. *)
Definition opened (messages : list AnthropicAIMessage) : list tracked :=
  match messages with
  | m :: _ =>
      if role_eqb (am_role m) User then track messages
      else (None, placeholder) :: track messages
  | [] => [(None, placeholder)]
  end.

(** If the last message is assistant, add an empty user message; the
    list is still held last message first. *)
Definition closed (acc : list tracked) : list tracked :=
  match acc with
  | (_, lastMessage) :: _ =>
      if role_eqb (am_role lastMessage) Assistant
      then (None, placeholder) :: acc
      else acc
  | [] => acc
  end.

(** [jigAnthropicMessages], every object of the result with its place
    in [messages]. *)
Definition jig_tracked (messages : list AnthropicAIMessage)
  : list tracked :=
  rev (closed (fold_left reduce_step (opened messages) [])).

(** [jigAnthropicMessages]: the array it returns. *)
Definition jigAnthropicMessages (messages : list AnthropicAIMessage)
  : list AnthropicAIMessage :=
  map snd (jig_tracked messages).

(** [jigAnthropicMessages]: the caller's array once it has returned. *)
Definition messages_after_jig (messages : list AnthropicAIMessage)
  : list AnthropicAIMessage :=
  fold_right (fun (t : tracked) l =>
                match fst t with
                | Some i => <[i := snd t]> l
                | None => l
                end)
             messages (jig_tracked messages).

Definition image_types : list jsstring :=
  [js "image/png"; js "image/jpeg"; js "image/gif"; js "image/webp"].

Definition invalid_mime_message : jsstring :=
  js "Invalid image mimeType. Supported types are: image/png, image/jpeg, image/gif, image/webp".

(** [file.mimeType?.startsWith("image")]. *)
Definition is_image (f : File) : bool :=
  match f_mimeType f with
  | Some m => starts_with (js "image") m
  | None => false
  end.

Definition nonempty (s : option jsstring) : option jsstring :=
  match s with
  | Some (_ :: _) => s
  | _ => None
  end.

(** [getNormalizedBase64PNG(url, mime)]: the download and the
    re-encoding are the world's. *)
Definition getNormalizedBase64PNG (w : world) (url mime : jsstring)
  : M jsstring :=
  emit (LogNormalizingImage url) ;;
  lift (w_normalized_png w url mime).

(** The loop over the files of one message. *)
Fixpoint file_blocks (w : world) (files : list File)
  : M (list AnthropicContentBlock) :=
  match files with
  | [] => ret []
  | file :: rest =>
      do here <-
        (if negb (is_image file) then emit LogSkippingFile ;; ret []
         else
           match nonempty (f_url file), nonempty (f_data file) with
           | Some url, _ =>
               do data <- getNormalizedBase64PNG w url
                            (default [] (f_mimeType file));
               ret [AImage (js "image/png") data]
           | None, Some data =>
               let mime := default [] (f_mimeType file) in
               if negb (bool_decide (mime ∈ image_types))
               then throw (Error_ invalid_mime_message)
               else ret [AImage mime data]
           | None, None => ret []
           end);
      do more <- file_blocks w rest;
      ret (here ++ more)
  end.

Definition with_system (p : AnthropicAIPayload) (s : jsstring)
  : AnthropicAIPayload :=
  {| ap_model := ap_model p; ap_messages := ap_messages p;
     ap_functions := ap_functions p; ap_temperature := ap_temperature p;
     ap_system := Some s |}.

Definition push_message (p : AnthropicAIPayload) (m : AnthropicAIMessage)
  : AnthropicAIPayload :=
  {| ap_model := ap_model p; ap_messages := ap_messages p ++ [m];
     ap_functions := ap_functions p; ap_temperature := ap_temperature p;
     ap_system := ap_system p |}.

(** The loop over the messages of the request. *)
Fixpoint prepare_messages (w : world) (messages : list GenericMessage)
    (preparedPayload : AnthropicAIPayload)
  : M AnthropicAIPayload :=
  match messages with
  | [] => ret preparedPayload
  | message :: rest =>
      match gm_role message with
      | System =>
          prepare_messages w rest
            (with_system preparedPayload (gm_content message))
      | _ =>
          let text := if is_empty (gm_content message) then []
                      else [AText (gm_content message)] in
          do images <- file_blocks w (default [] (gm_files message));
          prepare_messages w rest
            (push_message preparedPayload
               {| am_role := gm_role message;
                  am_content := ABlocks (text ++ images) |})
      end
  end.

(** [prepareAnthropicPayload]. *)
Definition prepareAnthropicPayload (w : world) (payload : GenericPayload)
  : M AnthropicAIPayload :=
  prepare_messages w (gp_messages payload)
    {| ap_model := gp_model payload; ap_messages := [];
       ap_functions := gp_functions payload;
       ap_temperature := gp_temperature payload;
       ap_system := None |}.

(** [s.replace(/<thinking>.*?<\/thinking>/gs, "")]: from left to
    right, every opening tag that has a closing tag somewhere after it
    goes, with everything up to the first such closing tag. *)
Definition thinking_open : jsstring := js "<thinking>".
Definition thinking_close : jsstring := js "</thinking>".

Fixpoint remove_thinking_go (skip : nat) (s : jsstring) : jsstring :=
  match s with
  | [] => []
  | c :: s' =>
      match skip with
      | S k => remove_thinking_go k s'
      | O =>
          if starts_with thinking_open s then
            match index_of thinking_close
                           (drop (length thinking_open) s) with
            | Some k =>
                remove_thinking_go
                  (length thinking_open + k + length thinking_close - 1) s'
            | None => c :: remove_thinking_go 0 s'
            end
          else c :: remove_thinking_go 0 s'
      end
  end.

Definition remove_thinking (s : jsstring) : jsstring :=
  remove_thinking_go 0 s.

(** [s.replace(/t1|t2|.../gs, "")] for literal tags. *)
Fixpoint remove_tags_go (tags : list jsstring) (skip : nat) (s : jsstring)
  : jsstring :=
  match s with
  | [] => []
  | c :: s' =>
      match skip with
      | S k => remove_tags_go tags k s'
      | O =>
          match find (fun t => starts_with t s) tags with
          | Some t => remove_tags_go tags (length t - 1) s'
          | None => c :: remove_tags_go tags 0 s'
          end
      end
  end.

Definition remove_tags (tags : list jsstring) (s : jsstring) : jsstring :=
  remove_tags_go tags 0 s.

Definition answer_tags : list jsstring := [js "<answer>"; js "</answer>"].
Definition all_tags : list jsstring :=
  [thinking_open; thinking_close; js "<answer>"; js "</answer>"].

(** The text of one answer of type ["text"]. *)
Definition answer_text (raw : jsstring) : M jsstring :=
  let text := trim (remove_tags answer_tags (remove_thinking raw)) in
  if is_empty text then
    (* remove the tags and return the text within *)
    let text' := remove_tags all_tags raw in
    emit (LogNoTextInAnswer text') ;;
    ret text'
  else ret text.

(** [for (const answer of answers) { ... }] over the elements of an
    array. *)
Fixpoint collect_answers (answers : list json)
    (textResponse : jsstring) (functionCalls : list FunctionCall)
  : M (jsstring * list FunctionCall) :=
  match answers with
  | [] => ret (textResponse, functionCalls)
  | answer :: rest =>
      do type <- read_val (Some answer) (js "type");
      if negb (truthy type) then
        emit LogMissingAnswerType ;;
        throw (Error_ (js "Missing answer type in Anthropic API"))
      else if is_string type (js "text") then
        match get_prop answer (js "text") with
        | Some (JStr raw) =>
            do text <- answer_text raw;
            collect_answers rest
              (if is_empty textResponse then text
               else textResponse ++ newline ++ newline ++ text)
              functionCalls
        | _ => throw TypeError   (* [replace] is not there to call *)
        end
      else if is_string type (js "tool_use") then
        collect_answers rest textResponse
          (functionCalls ++
           [{| fc_name := get_prop answer (js "name");
               fc_arguments := get_prop answer (js "input") |}])
      else collect_answers rest textResponse functionCalls
  end.

(** [callAnthropic], from [const answers = data.content] on. *)
Definition read_answers (data : json) : M ParsedResponseMessage :=
  do answers <- read_val (Some data) (js "content");
  do first <- read_val answers (js "0");
  if negb (truthy first) then
    emit LogMissingAnswer ;;
    throw (Error_ (js "Missing answer in Anthropic API"))
  else
    do r <-
      match answers with
      | Some (JArr l) => collect_answers l [] []
      | Some (JStr _) =>
          (* the first character is an answer without a type *)
          emit LogMissingAnswerType ;;
          throw (Error_ (js "Missing answer type in Anthropic API"))
      | _ => throw TypeError   (* not iterable *)
      end;
    let '(textResponse, functionCalls) := r in
    if is_empty textResponse && is_empty functionCalls then
      emit LogMissingTextAndFns ;;
      throw (Error_ (js "Missing text & fns in Anthropic API response"))
    else
      ret {| prm_role := Assistant;
             prm_content := Some (JStr textResponse);
             prm_function_call :=
               match functionCalls with
               | fc :: _ => CallOf fc
               | [] => CallUndefined
               end |}.

Definition bedrock_model_id : jsstring :=
  js "anthropic.claude-3-haiku-20240307-v1:0".

Definition is_bedrock (c : option AIConfig) : bool :=
  match option_map cfg_service c with Some Bedrock => true | _ => false end.

(** [callAnthropic]; [n] numbers the request. *)
Definition callAnthropic (w : world) (n : nat) (identifier : jsstring)
    (AiPayload : AnthropicAIPayload) (AiConfig : option AIConfig)
  : M ParsedResponseMessage :=
  let anthropicMessages := jigAnthropicMessages (ap_messages AiPayload) in
  do data <-
    (if is_bedrock AiConfig then
       emit (Request bedrock_model_id) ;;
       do body <- lift (w_bedrock_send w n
                    {| ar_service := Bedrock;
                       ar_model := bedrock_model_id;
                       ar_messages := anthropicMessages;
                       ar_tools := ap_functions AiPayload;
                       ar_temperature := None;
                       ar_system := None |});
       match parse (Utf8.decode body) with
       | Some data => ret data
       | None => throw SyntaxError
       end
     else
       emit (Request (js "https://api.anthropic.com/v1/messages")) ;;
       lift (w_anthropic_post w n
               {| ar_service := Anthropic;
                  ar_model := ap_model AiPayload;
                  ar_messages := anthropicMessages;
                  ar_tools := ap_functions AiPayload;
                  ar_temperature := ap_temperature AiPayload;
                  ar_system := ap_system AiPayload |}));
  read_answers data.

Definition set_model (p : AnthropicAIPayload) (model : jsstring)
  : AnthropicAIPayload :=
  {| ap_model := model; ap_messages := ap_messages p;
     ap_functions := ap_functions p; ap_temperature := ap_temperature p;
     ap_system := ap_system p |}.

Definition set_messages (p : AnthropicAIPayload)
    (ms : list AnthropicAIMessage) : AnthropicAIPayload :=
  {| ap_model := ap_model p; ap_messages := ms;
     ap_functions := ap_functions p; ap_temperature := ap_temperature p;
     ap_system := ap_system p |}.

(** [e.response?.data?.error?.type === "rate_limit_error"]. *)
Definition is_rate_limit (e : js_error) : bool :=
  is_string (get_opt (get_opt (error_response_data e) (js "error"))
                     (js "type"))
            (js "rate_limit_error").

(** The loop of [callAnthropicWithRetries], [fuel] iterations left:
    the value returned from inside the loop, if any, and the payload
    object at the end. *)
Fixpoint attempts_loop (w : world) (identifier : jsstring)
    (AiConfig : option AIConfig) (attempts : Z)
    (fuel i : nat) (AiPayload : AnthropicAIPayload)
  : list event * (option ParsedResponseMessage * AnthropicAIPayload) :=
  match fuel with
  | O => ([], (None, AiPayload))
  | S fuel' =>
      (* if last attempt, fallback to sonnet model *)
      let p1 := if Z.of_nat i =? attempts - 1
                then set_model AiPayload ClaudeModel.SONNET
                else AiPayload in
      let m := callAnthropic w i identifier p1 AiConfig in
      (* the message objects as the call leaves them *)
      let p2 := set_messages p1 (messages_after_jig (ap_messages p1)) in
      match m with
      | (l, Ok lastResponse) => (l, (Some lastResponse, p2))
      | (l, Throw e) =>
          let p3 := if is_rate_limit e
                    then set_model p2 ClaudeModel.SONNET
                    else p2 in
          let l' := [LogError e; LogRetryingAnthropic e;
                     Sleep (125 * Z.of_nat i)] in
          let '(l'', r) :=
            attempts_loop w identifier AiConfig attempts fuel' (S i) p3 in
          (l ++ l' ++ l'', r)
      end
  end.

Definition exhausted_message (attempts : Z) : jsstring :=
  js "Failed to call Anthropic API after " ++ of_Z attempts
  ++ js " attempts".

(** [attempts = 5]. *)
Definition default_attempts : Z := 5.

(** [callAnthropicWithRetries].  [lastResponse] is assigned only on
    the line before the [return], so the error thrown after the loop
    carries [undefined]. *)
Definition callAnthropicWithRetries (w : world) (identifier : jsstring)
    (AiPayload : AnthropicAIPayload) (AiConfig : option AIConfig)
    (attempts : Z)
  : M ParsedResponseMessage * AnthropicAIPayload :=
  let '(l, (r, p)) :=
    attempts_loop w identifier AiConfig attempts (Z.to_nat attempts) 0
                  AiPayload in
  match r with
  | Some res => ((LogCallingAnthropic :: l, Ok res), p)
  | None =>
      ((LogCallingAnthropic :: l,
        Throw (ErrorWithResponse (exhausted_message attempts) None)), p)
  end.

End AnthropicPath.

(** ** The Groq path *)

Module GroqPath.

(** [normalizeMessageContent]. *)
Definition normalizeMessageContent (content : AnthropicContent)
  : jsstring :=
  match content with
  | AString s => s
  | ABlocks blocks =>
      let texts := map (fun c => match c with
                                 | AText t => t
                                 | AImage _ _ => js "[image]"
                                 end) blocks in
      match texts with
      | [] => []
      | t :: ts => fold_left (fun acc x => acc ++ newline ++ x) ts t
      end
  end.

Definition choice_of (d : call_directive) : tool_choice :=
  match d with
  | DirNone => ChoiceNone
  | DirAuto => ChoiceAuto
  | DirFunction name => ChoiceFunction name
  end.

(** [prepareGroqPayload]. *)
Definition prepareGroqPayload (payload : GenericPayload) : OpenAIPayload :=
  {| op_model := gp_model payload;
     op_messages :=
       map (fun message =>
              {| om_role := gm_role message;
                 om_content :=
                   OString (normalizeMessageContent
                              (AString (gm_content message))) |})
           (gp_messages payload);
     op_tools := gp_functions payload;
     op_tool_choice := option_map choice_of (gp_function_call payload);
     op_temperature := gp_temperature payload |}.

Definition groq_endpoint : jsstring :=
  js "https://api.groq.com/openai/v1/chat/completions".

(** [callGroq]; [n] numbers the request. *)
Definition callGroq (w : world) (n : nat) (identifier : jsstring)
    (payload : OpenAIPayload) : M ParsedResponseMessage :=
  emit (Request groq_endpoint) ;;
  do data <- lift (w_groq_post w n payload);
  do choices <- read_val (Some data) (js "choices");
  do first <- read_val choices (js "0");
  do answer <- read_val first (js "message");
  if negb (truthy answer) then
    emit LogMissingGroqAnswer ;;
    throw (Error_ (js "Missing answer in Groq API"))
  else
    let content := get_opt answer (js "content") in
    let textResponse := if truthy content then content else Some JNull in
    let tool_calls := get_opt answer (js "tool_calls") in
    do functionCall <-
      (if truthy tool_calls && truthy (get_opt tool_calls (js "length"))
       then
         let toolCall := get_opt tool_calls (js "0") in
         do fn <- read_val toolCall (js "function");
         do name <- read_val fn (js "name");
         do arguments <- read_val fn (js "arguments");
         do text <- to_string_val arguments;
         match parse text with
         | Some parsed =>
             ret (CallOf {| fc_name := name; fc_arguments := Some parsed |})
         | None => throw SyntaxError
         end
       else ret CallNull);
    ret {| prm_role := Assistant;
           prm_content := textResponse;
           prm_function_call := functionCall |}.

(** The loop of [callGroqWithRetries], [fuel] iterations left. *)
Fixpoint attempts_loop (w : world) (identifier : jsstring)
    (payload : OpenAIPayload) (fuel i : nat)
  : list event * option ParsedResponseMessage :=
  match fuel with
  | O => ([], None)
  | S fuel' =>
      match callGroq w i identifier payload with
      | (l, Ok lastResponse) => (l, Some lastResponse)
      | (l, Throw e) =>
          let l' := [LogError e; LogRetryingGroq e;
                     Sleep (125 * Z.of_nat i)] in
          let '(l'', r) := attempts_loop w identifier payload fuel' (S i) in
          (l ++ l' ++ l'', r)
      end
  end.

Definition exhausted_message (retries : Z) : jsstring :=
  js "Failed to call Groq API after " ++ of_Z retries ++ js " attempts".

(** [retries: number = 5]. *)
Definition default_retries : Z := 5.

(** [callGroqWithRetries]. *)
Definition callGroqWithRetries (w : world) (identifier : jsstring)
    (payload : OpenAIPayload) (retries : Z)
  : M ParsedResponseMessage :=
  let '(l, r) :=
    attempts_loop w identifier payload (Z.to_nat retries) 0 in
  match r with
  | Some res => (LogCallingGroq :: l, Ok res)
  | None =>
      (LogCallingGroq :: l,
       Throw (ErrorWithResponse (exhausted_message retries) None))
  end.

End GroqPath.

(** ** The Google path *)

Module GooglePath.

Import AnthropicPath.

(** The loop over the files of one message. *)
Fixpoint file_parts (w : world) (files : list File)
  : M (list GoogleAIPart) :=
  match files with
  | [] => ret []
  | file :: rest =>
      do here <-
        (if negb (is_image file) then emit LogSkippingFile ;; ret []
         else
           match nonempty (f_url file), nonempty (f_data file) with
           | Some url, _ =>
               do data <- getNormalizedBase64PNG w url
                            (default [] (f_mimeType file));
               ret [GInlineData (js "image/png") data]
           | None, Some data =>
               let mime := default [] (f_mimeType file) in
               if negb (bool_decide (mime ∈ image_types))
               then throw (Error_ invalid_mime_message)
               else ret [GInlineData mime data]
           | None, None => ret []
           end);
      do more <- file_parts w rest;
      ret (here ++ more)
  end.

Definition with_system (p : GoogleAIPayload) (s : jsstring)
  : GoogleAIPayload :=
  {| ggp_model := ggp_model p; ggp_messages := ggp_messages p;
     ggp_tools := ggp_tools p; ggp_systemInstruction := Some s |}.

Definition push_message (p : GoogleAIPayload) (m : GoogleAIMessage)
  : GoogleAIPayload :=
  {| ggp_model := ggp_model p; ggp_messages := ggp_messages p ++ [m];
     ggp_tools := ggp_tools p;
     ggp_systemInstruction := ggp_systemInstruction p |}.

(** The loop over the messages of the request. *)
Fixpoint prepare_messages (w : world) (messages : list GenericMessage)
    (preparedPayload : GoogleAIPayload)
  : M GoogleAIPayload :=
  match messages with
  | [] => ret preparedPayload
  | message :: rest =>
      match gm_role message with
      | System =>
          prepare_messages w rest
            (with_system preparedPayload (gm_content message))
      | r =>
          let text := if is_empty (gm_content message) then []
                      else [GText (gm_content message)] in
          do images <- file_parts w (default [] (gm_files message));
          prepare_messages w rest
            (push_message preparedPayload
               {| ggm_role := match r with
                              | Assistant => GModel
                              | _ => GUser
                              end;
                  ggm_parts := text ++ images |})
      end
  end.

(** [prepareGoogleAIPayload]; the description of a function moves
    into its parameters. *)
Definition prepareGoogleAIPayload (w : world) (payload : GenericPayload)
  : M GoogleAIPayload :=
  prepare_messages w (gp_messages payload)
    {| ggp_model := gp_model payload; ggp_messages := [];
       ggp_tools := gp_functions payload;
       ggp_systemInstruction := None |}.

(** [callGoogleAI]. *)
Definition callGoogleAI (w : world) (identifier : jsstring)
    (payload : GoogleAIPayload) : M ParsedResponseMessage :=
  emit LogCallingGoogle ;;
  match ggp_messages payload with
  | [] => throw TypeError     (* [lastMessage.parts] of [undefined] *)
  | _ =>
      emit (Request (ggp_model payload)) ;;
      do response <- lift (w_google_send w payload);
      ret {| prm_role := Assistant;
             prm_content :=
               match gr_text response with
               | Some ((_ :: _) as text) => Some (JStr text)
               | _ => Some JNull
               end;
             prm_function_call :=
               match gr_functionCalls response with
               | Some ((name, args) :: _) =>
                   CallOf {| fc_name := Some (JStr name);
                             fc_arguments := Some args |}
               | _ => CallNull
               end |}
  end.

End GooglePath.

(** ** [callWithRetries] *)

Module Dispatch.

(** [Object.values(E).includes(payload.model)]. *)
Definition isAnthropicPayload (payload : GenericPayload) : bool :=
  bool_decide (gp_model payload ∈ ClaudeModel.values).
Definition isOpenAiPayload (payload : GenericPayload) : bool :=
  bool_decide (gp_model payload ∈ GPTModel.values).
Definition isGroqPayload (payload : GenericPayload) : bool :=
  bool_decide (gp_model payload ∈ GroqModel.values).
Definition isGoogleAIPayload (payload : GenericPayload) : bool :=
  bool_decide (gp_model payload ∈ GeminiModel.values).

(** The loop over the files of one message in [prepareOpenAIPayload]. *)
Fixpoint file_blocks (files : list File) : M (list OpenAIContentBlock) :=
  match files with
  | [] => ret []
  | file :: rest =>
      do here <-
        (if AnthropicPath.is_image file then
           match AnthropicPath.nonempty (f_url file),
                 AnthropicPath.nonempty (f_data file) with
           | Some url, _ => ret [OImageUrl url]
           | None, Some data =>
               ret [OImageUrl (js "data:" ++ default [] (f_mimeType file)
                               ++ js ";base64," ++ data)]
           | None, None => ret []
           end
         else emit LogSkippingFile ;; ret []);
      do more <- file_blocks rest;
      ret (here ++ more)
  end.

Fixpoint prepare_messages (messages : list GenericMessage)
  : M (list OpenAIMessage) :=
  match messages with
  | [] => ret []
  | message :: rest =>
      let text := if is_empty (gm_content message) then []
                  else [OText (gm_content message)] in
      do images <- file_blocks (default [] (gm_files message));
      do more <- prepare_messages rest;
      ret ({| om_role := gm_role message;
              om_content := OBlocks (text ++ images) |} :: more)
  end.

(** [prepareOpenAIPayload]. *)
Definition prepareOpenAIPayload (payload : GenericPayload)
  : M OpenAIPayload :=
  do messages <- prepare_messages (gp_messages payload);
  ret {| op_model := gp_model payload;
         op_messages := messages;
         op_tools := gp_functions payload;
         op_tool_choice :=
           option_map GroqPath.choice_of (gp_function_call payload);
         op_temperature := gp_temperature payload |}.

Definition unknown_model_message : jsstring :=
  js "Invalid AI payload: Unknown model type.".

(** [retries: number = 5]. *)
Definition default_retries : Z := 5.

(** [callWithRetries]: how the call ends, and the caller's
    configuration object as it leaves it.  The per-chunk timeout acts
    through the world only. *)
Definition callWithRetries (w : world) (identifier : jsstring)
    (aiPayload : GenericPayload) (aiConfig : option AIConfig)
    (retries : Z)
  : M ParsedResponseMessage * option AIConfig :=
  if isAnthropicPayload aiPayload then
    (emit (LogDelegating (js "Anthropic")) ;;
     do prepared <- AnthropicPath.prepareAnthropicPayload w aiPayload;
     fst (AnthropicPath.callAnthropicWithRetries w identifier prepared
            aiConfig retries),
     aiConfig)
  else if isOpenAiPayload aiPayload then
    match prepareOpenAIPayload aiPayload with
    | (l, Ok prepared) =>
        let '(m, s) :=
          OpenAiRetries.callOpenAiWithRetries w identifier prepared
            aiConfig retries in
        (emit (LogDelegating (js "OpenAI")) ;; (l, Ok tt) ;; m, snd s)
    | (l, Throw e) =>
        (emit (LogDelegating (js "OpenAI")) ;; (l, Throw e), aiConfig)
    end
  else if isGroqPayload aiPayload then
    (emit (LogDelegating (js "Groq")) ;;
     GroqPath.callGroqWithRetries w identifier
       (GroqPath.prepareGroqPayload aiPayload) GroqPath.default_retries,
     aiConfig)
  else if isGoogleAIPayload aiPayload then
    (emit (LogDelegating (js "Google AI")) ;;
     do prepared <- GooglePath.prepareGoogleAIPayload w aiPayload;
     GooglePath.callGoogleAI w identifier prepared,
     aiConfig)
  else (throw (Error_ unknown_model_message), aiConfig).

End Dispatch.

(** ** Notions the statements below are written with *)

Module Runs.

Import Stream.

(** The variables of the read loop once the reads [chunks] have all
    been consumed, when the loop gets that far: no piece of any of them
    made it return or throw. *)
Fixpoint state_after (identifier : jsstring)
    (functionNames : option (gset jsstring))
    (chunks : list (list byte)) (chunkIndex : nat) (st : acc)
  : option acc :=
  match chunks with
  | [] => Some st
  | value :: rest =>
      let '(chunk, st1) := take_chunk st value in
      match outcome (process_pieces identifier functionNames chunkIndex
                       st1 (split_data chunk)) with
      | Ok (Continue st') =>
          state_after identifier functionNames rest (S chunkIndex) st'
      | _ => None
      end
  end.

(** The variables handed to [parseStreamedResponse]. *)
Definition finalized (identifier : jsstring)
    (functionNames : option (gset jsstring)) (st : acc)
  : M ParsedResponseMessage :=
  parseStreamedResponse identifier (paragraph st) (functionCallName st)
    (functionCallArgs st) functionNames.

(** The pieces the loop cuts out of the read [value] when it comes
    in state [st]. *)
Definition pieces_of (st : acc) (value : list byte) : list jsstring :=
  split_data (fst (take_chunk st value)).

(** The payload and the configuration after the attempts of index
    [i], [i+1], ... have failed with [errors]. *)
Fixpoint remediated (i : nat) (errors : list js_error)
    (s : OpenAiRetries.retry_state) : OpenAiRetries.retry_state :=
  match errors with
  | [] => s
  | e :: rest =>
      remediated (S i) rest (snd (OpenAiRetries.catch_block i e s))
  end.

(** The name passes the allow-list, when there is one. *)
Definition name_allowed (allowed : option (gset jsstring))
    (name : jsstring) : Prop :=
  forall names, allowed = Some names -> name ∈ names.

(** A response has something in it. *)
Definition has_text (m : ParsedResponseMessage) : Prop :=
  exists s, prm_content m = Some (JStr s) /\ s <> [].
Definition has_call (m : ParsedResponseMessage) : Prop :=
  exists fc, prm_function_call m = CallOf fc.

(** The invariants of a message sequence. *)
Fixpoint alternates (roles : list role) : Prop :=
  match roles with
  | a :: (b :: _) as rest => a <> b /\ alternates rest
  | _ => True
  end.

Definition roles (ms : list AnthropicAIMessage) : list role :=
  map am_role ms.

Definition no_system (ms : list AnthropicAIMessage) : Prop :=
  Forall (fun m => am_role m <> System) ms.

(** The roles of an accumulator of the reduction. *)
Definition troles (acc : list AnthropicPath.tracked) : list role :=
  map (fun t => am_role (snd t)) acc.

(** The content of the last system message of a request, if it has
    one. *)
Definition last_system (messages : list GenericMessage) : option jsstring :=
  fold_left (fun s m => match gm_role m with
                        | System => Some (gm_content m)
                        | _ => s
                        end) messages None.

(** The messages of a request that are not system messages. *)
Definition conversation (messages : list GenericMessage)
  : list GenericMessage :=
  List.filter (fun m => negb (role_eqb (gm_role m) System)) messages.

(** The blocks of a content: a string counts as one text block. *)
Definition blocks_of (c : AnthropicContent) : list AnthropicContentBlock :=
  match c with
  | ABlocks blocks => blocks
  | AString s => [AText s]
  end.

(** The rule between the contents of two messages merged into one: a
    text block of three dashes between two empty lines. *)
Definition rule : AnthropicContentBlock :=
  AText [10%N; 10%N; 45%N; 45%N; 45%N; 10%N; 10%N].

(** The blocks a run of messages of one role is merged into: those of
    the first message, then, for every follower, the rule and its
    blocks. *)
Definition joined (blocks : list AnthropicContentBlock)
    (followers : list AnthropicAIMessage) : list AnthropicContentBlock :=
  blocks ++ concat (map (fun m => rule :: blocks_of (am_content m))
                        followers).

(** No character of the text is a [<]. *)
Definition tag_free (s : jsstring) : Prop := Forall (fun c => c <> 60%N) s.

(** [json.choices?.[0]?.delta?.tool_calls?.[0]] of a parsed record. *)
Definition tool_call_delta (record : json) : jsval :=
  get_opt (get_opt (first_delta (get_prop record (js "choices")))
                   (js "tool_calls")) (js "0").

(** Every attempt of the streaming call fails, whatever it is asked. *)
Definition always_fails (w : world) (identifier : jsstring) : Prop :=
  forall n p c, exists e,
    outcome (callOpenAIStream w n identifier p c) = Throw e.

(** The requests a trace shows, in order. *)
Definition requests (l : list event) : list event :=
  List.filter is_request l.

(** The tool uses of an answer of Claude's as function calls, in their
    order: the elements whose [type] is ["tool_use"], each with its
    [name] and its [input]. *)
Definition tool_uses (answers : list json) : list FunctionCall :=
  map (fun answer => {| fc_name := get_prop answer (js "name");
                        fc_arguments := get_prop answer (js "input") |})
      (List.filter (fun answer =>
                      is_string (get_prop answer (js "type")) (js "tool_use"))
                   answers).

(** What a message of the conversation becomes on the Anthropic path:
    a message of the same role whose blocks are the text, when there is
    some, and then images. *)
Definition on_anthropic (message : GenericMessage) (m : AnthropicAIMessage)
  : Prop :=
  am_role m = gm_role message
  /\ exists images,
       am_content m
       = ABlocks ((if is_empty (gm_content message) then []
                   else [AText (gm_content message)]) ++ images)
       /\ Forall (fun b => exists t d, b = AImage t d) images.

(** The same on the Google path, where an assistant is a model. *)
Definition on_google (message : GenericMessage) (m : GoogleAIMessage)
  : Prop :=
  ggm_role m = match gm_role message with
               | Assistant => GModel
               | _ => GUser
               end
  /\ exists images,
       ggm_parts m
       = (if is_empty (gm_content message) then []
          else [GText (gm_content message)]) ++ images
       /\ Forall (fun b => exists t d, b = GInlineData t d) images.

(** The same on the OpenAI path. *)
Definition on_openai (message : GenericMessage) (m : OpenAIMessage) : Prop :=
  om_role m = gm_role message
  /\ exists images,
       om_content m
       = OBlocks ((if is_empty (gm_content message) then []
                   else [OText (gm_content message)]) ++ images)
       /\ Forall (fun b => exists url, b = OImageUrl url) images.

End Runs.

(** ** Sample inputs *)

Module Samples.

Definition nl : string := String (Ascii.ascii_of_nat 10) EmptyString.

(** A world in which every provider is unreachable. *)
Definition offline : world :=
  {| w_fetch := fun _ _ _ _ => FetchThrows (External None None);
     w_OPENAI_API_KEY := None;
     w_anthropic_post := fun _ _ => Throw (External None None);
     w_bedrock_send := fun _ _ => Throw (External None None);
     w_groq_post := fun _ _ => Throw (External None None);
     w_google_send := fun _ => Throw (External None None);
     w_normalized_png := fun _ _ => Throw (External None None) |}.

Definition user_says (text : string) : GenericMessage :=
  {| gm_role := User; gm_content := js text; gm_files := None |}.

Definition request (model : jsstring) : GenericPayload :=
  {| gp_model := model;
     gp_messages := [user_says "Tell me a joke."];
     gp_functions := None;
     gp_function_call := None;
     gp_temperature := None |}.

(** The stream of the scenario in the specification. *)
Definition hello_stream : list (list byte) :=
  [Utf8.bytes ("data: {'choices':[{'delta':{'content':'Hel'}}]}" ++ nl);
   Utf8.bytes ("data: {'choices':[{'delta':{'content':'lo'}}]}" ++ nl);
   Utf8.bytes ("data: [DONE]" ++ nl)].

Definition run (chunks : list (list byte)) : M ParsedResponseMessage :=
  Stream.read_loop (js "id") None chunks None 0 Stream.acc_init.

(** A stream whose text has a character of two bytes, whole and cut
    between the two. *)
Definition cafe_head : list byte :=
  Utf8.bytes "data: {'choices':[{'delta':{'content':'caf" ++ [xc3].
Definition cafe_tail : list byte :=
  [xa9] ++ Utf8.bytes ("'}}]}" ++ nl ++ nl ++ "data: [DONE]" ++ nl ++ nl).
Definition cafe_whole : list byte := cafe_head ++ cafe_tail.

(** A stream of three text records and the sentinel record, one record
    to the read; the text of the second record has [word] in it. *)
Definition mention_stream (word : string) : list (list byte) :=
  [Utf8.bytes ("data: {'choices':[{'delta':{'content':'Hi'}}]}" ++ nl ++ nl);
   Utf8.bytes ("data: {'choices':[{'delta':{'content':', type " ++ word
               ++ " to stop'}}]}" ++ nl ++ nl);
   Utf8.bytes ("data: {'choices':[{'delta':{'content':'!'}}]}" ++ nl ++ nl);
   Utf8.bytes ("data: [DONE]" ++ nl ++ nl)].

(** The record of a text delta. *)
Definition text_record (text : string) : json :=
  JObj [(js "choices",
         JArr [JObj [(js "delta",
                      JObj [(js "content", JStr (js text))])]])].

(** The pieces of a read that are not empty, trimmed. *)
Definition records_of (value : list byte) : list jsstring :=
  map trim (List.filter (fun piece => negb (is_empty piece))
              (split_data (Utf8.decode value))).

(** A provider that answers every request with a content filter
    error. *)
Definition filter_error_body : list byte :=
  Utf8.bytes "{'error':{'code':'content_filter'}}".

Definition filtering : world :=
  {| w_fetch := fun _ _ _ _ => FetchBody [filter_error_body] None;
     w_OPENAI_API_KEY := None;
     w_anthropic_post := fun _ _ => Throw (External None None);
     w_bedrock_send := fun _ _ => Throw (External None None);
     w_groq_post := fun _ _ => Throw (External None None);
     w_google_send := fun _ => Throw (External None None);
     w_normalized_png := fun _ _ => Throw (External None None) |}.

Definition filter_error : js_error :=
  ErrorWithData (js "Stream error: OpenAI error")
    (JObj [(js "code", JStr (js "content_filter"))]).

Definition policy_error : js_error :=
  ErrorWithData (js "Stream error: OpenAI error")
    (JObj [(js "code", JStr (js "content_policy_violation"))]).

Definition deployment : AzureModelConfig :=
  {| az_endpoint := Some (js "https://example.openai.azure.com");
     az_deployment := js "gpt4"; az_apiVersion := js "2024-02-01";
     az_apiKey := js "key" |}.

Definition azure_config : AIConfig :=
  {| cfg_service := Azure; cfg_apiKey := Some (js "key");
     cfg_baseUrl := Some []; cfg_orgId := None;
     cfg_modelConfigMap :=
       Some (<[GPTModel.GPT4O := deployment]>
               (<[GPTModel.GPT4_0409 := deployment]> ∅)) |}.

Definition score_function : FunctionDefinition :=
  {| fd_name := js "get_game_score";
     fd_description := Some (js "Get the score for a given NBA game");
     fd_parameters := JObj [(js "type", JStr (js "object"))] |}.

Definition picture_question : OpenAIPayload :=
  {| op_model := GPTModel.GPT4O;
     op_messages :=
       [{| om_role := User;
           om_content := OBlocks [OText (js "Where is this?");
                                  OImageUrl (js "https://example.com/a.png")] |}];
     op_tools := Some [score_function];
     op_tool_choice := None;
     op_temperature := None |}.

(** A Groq answer and a Google answer with neither text nor call. *)
Definition empty_groq_answer : json :=
  JObj [(js "choices",
         JArr [JObj [(js "message",
                      JObj [(js "role", JStr (js "assistant"));
                            (js "content", JNull)])]])].

Definition empty_groq : world :=
  {| w_fetch := w_fetch offline;
     w_OPENAI_API_KEY := None;
     w_anthropic_post := w_anthropic_post offline;
     w_bedrock_send := w_bedrock_send offline;
     w_groq_post := fun _ _ => Ok empty_groq_answer;
     w_google_send := fun _ =>
       Ok {| gr_text := Some []; gr_functionCalls := None |};
     w_normalized_png := w_normalized_png offline |}.

Definition empty_response : ParsedResponseMessage :=
  {| prm_role := Assistant; prm_content := Some JNull;
     prm_function_call := CallNull |}.

(** An Anthropic endpoint that answers every request with a rate
    limit error. *)
Definition rate_limit_body : json :=
  JObj [(js "type", JStr (js "error"));
        (js "error", JObj [(js "type", JStr (js "rate_limit_error"))])].

Definition rate_limited : world :=
  {| w_fetch := w_fetch offline;
     w_OPENAI_API_KEY := None;
     w_anthropic_post := fun _ _ =>
       Throw (External None (Some rate_limit_body));
     w_bedrock_send := w_bedrock_send offline;
     w_groq_post := w_groq_post offline;
     w_google_send := w_google_send offline;
     w_normalized_png := w_normalized_png offline |}.

(** A record with an error member that is null. *)
Definition null_error_record : json := JObj [(js "error", JNull)].

(** A record with an error member that says what went wrong. *)
Definition filter_error_record : json :=
  JObj [(js "error", JObj [(js "code", JStr (js "content_filter"))])].

Definition text_message (s : jsstring) : ParsedResponseMessage :=
  {| prm_role := Assistant; prm_content := Some (JStr s);
     prm_function_call := CallNull |}.

(** The call returns a message with this text and no function call. *)
Definition returns_text (s : jsstring) (m : M ParsedResponseMessage) : bool :=
  match outcome m with
  | Ok {| prm_role := Assistant; prm_content := Some (JStr c);
          prm_function_call := CallNull |} => JsString.eqb c s
  | _ => false
  end.

(** The bytes of [hello_stream] in one buffer, and cut in two after the
    first [i] bytes. *)
Definition hello_bytes : list byte := concat hello_stream.

Definition cut (i : nat) (bs : list byte) : list (list byte) :=
  [take i bs; drop i bs].

(** A record with a tool call fragment of index 1. *)
Definition second_tool_call : json :=
  default JNull
    (parse (jq "{'choices':[{'delta':{'tool_calls':[{'index':1,'function':{'name':'second','arguments':'{}'}}]}}]}")).

(** A request with two system messages. *)
Definition two_system_request (model : jsstring) : GenericPayload :=
  {| gp_model := model;
     gp_messages :=
       [{| gm_role := System; gm_content := js "Be brief.";
           gm_files := None |};
        user_says "Tell me a joke.";
        {| gm_role := System; gm_content := js "Be thorough.";
           gm_files := None |}];
     gp_functions := None;
     gp_function_call := None;
     gp_temperature := None |}.

(** An inline image of a type that Anthropic does not take. *)
Definition bitmap : File :=
  {| f_mimeType := Some (js "image/bmp"); f_url := None;
     f_data := Some (js "Qk0=") |}.

(** A provider that streams the greeting of the scenario. *)
Definition greeting : world :=
  {| w_fetch := fun _ _ _ _ => FetchBody hello_stream None;
     w_OPENAI_API_KEY := None;
     w_anthropic_post := w_anthropic_post offline;
     w_bedrock_send := w_bedrock_send offline;
     w_groq_post := w_groq_post offline;
     w_google_send := w_google_send offline;
     w_normalized_png := w_normalized_png offline |}.

(** An answer of Claude's that is a tool use and nothing else, and one
    that is a greeting. *)
Definition tool_answer : json :=
  JObj [(js "content",
         JArr [JObj [(js "type", JStr (js "tool_use"));
                     (js "name", JStr (js "get_game_score"));
                     (js "input", JObj [])]])].

Definition hello_answer : json :=
  JObj [(js "content",
         JArr [JObj [(js "type", JStr (js "text"));
                     (js "text", JStr (js "Hello"))]])].

Definition answering (answer : json) : world :=
  {| w_fetch := w_fetch offline;
     w_OPENAI_API_KEY := None;
     w_anthropic_post := fun _ _ => Ok answer;
     w_bedrock_send := w_bedrock_send offline;
     w_groq_post := w_groq_post offline;
     w_google_send := w_google_send offline;
     w_normalized_png := w_normalized_png offline |}.

(** A provider that, on the first request, answers for the Sonnet model
    only. *)
Definition sonnet_at_first : world :=
  {| w_fetch := w_fetch offline;
     w_OPENAI_API_KEY := None;
     w_anthropic_post := fun n request =>
       match n with
       | O => if JsString.eqb (ar_model request) ClaudeModel.SONNET
              then Ok hello_answer
              else Throw (External None None)
       | S _ => Ok hello_answer
       end;
     w_bedrock_send := w_bedrock_send offline;
     w_groq_post := w_groq_post offline;
     w_google_send := w_google_send offline;
     w_normalized_png := w_normalized_png offline |}.

Definition opus_question : AnthropicAIPayload :=
  {| ap_model := ClaudeModel.OPUS;
     ap_messages :=
       [{| am_role := User;
           am_content := ABlocks [AText (js "Tell me a joke.")] |}];
     ap_functions := None; ap_temperature := None; ap_system := None |}.

Definition bedrock_config : AIConfig :=
  {| cfg_service := Bedrock; cfg_apiKey := None; cfg_baseUrl := None;
     cfg_orgId := None; cfg_modelConfigMap := None |}.

(** A stream that calls the score function, and a request that offers
    it. *)
Definition score_stream : list (list byte) :=
  [Utf8.bytes ("data: {'choices':[{'delta':{'tool_calls':[{'index':0,'function':{'name':'get_game_score','arguments':'{}'}}]}}]}"
               ++ nl);
   Utf8.bytes ("data: [DONE]" ++ nl)].

Definition scoring : world :=
  {| w_fetch := fun _ _ _ _ => FetchBody score_stream None;
     w_OPENAI_API_KEY := None;
     w_anthropic_post := w_anthropic_post offline;
     w_bedrock_send := w_bedrock_send offline;
     w_groq_post := w_groq_post offline;
     w_google_send := w_google_send offline;
     w_normalized_png := w_normalized_png offline |}.

Definition score_request : GenericPayload :=
  {| gp_model := GPTModel.GPT4O;
     gp_messages := [user_says "Who won?"];
     gp_functions := Some [score_function];
     gp_function_call := None;
     gp_temperature := None |}.

End Samples.

(** * Properties *)

Section Monad.

Context {A B : Type}.

Lemma outcome_bind_ok (m : M A) (k : A -> M B) (b : B) :
  outcome (bind m k) = Ok b ->
  exists a, outcome m = Ok a /\ outcome (k a) = Ok b.
Proof.
  destruct m as [l [a | e]]; simpl.
  - destruct (k a) as [l' r] eqn:E. simpl. intros ->.
    exists a. rewrite E. auto.
  - discriminate.
Qed.

Lemma bind_ok (l : list event) (a : A) (k : A -> M B) :
  bind (l, Ok a) k = (l ++ events (k a), outcome (k a)).
Proof. simpl. destruct (k a); reflexivity. Qed.

Lemma bind_throw (l : list event) (e : js_error) (k : A -> M B) :
  bind (l, Throw e) k = (l, Throw e).
Proof. reflexivity. Qed.

Lemma outcome_bind (m : M A) (k : A -> M B) :
  outcome (bind m k) =
  match outcome m with
  | Ok a => outcome (k a)
  | Throw e => Throw e
  end.
Proof.
  destruct m as [l [a | e]]; simpl; [destruct (k a) |]; reflexivity.
Qed.

End Monad.

Lemma outcome_catch_ok {A} (m : M A) (h : js_error -> M A) (a : A) :
  (forall e, exists e', outcome (h e) = Throw e') ->
  outcome (catch m h) = Ok a -> outcome m = Ok a.
Proof.
  intros Hh. destruct m as [l [x | e]]; simpl; auto.
  destruct (Hh e) as [e' He']. destruct (h e) as [l' r]. simpl in *.
  congruence.
Qed.

(** ** [parseStreamedResponse] *)

Section ParseStreamedResponse.

Import Stream.

Variables identifier paragraph name args : jsstring.
Variable allowed : option (gset jsstring).

Let result := outcome (parseStreamedResponse identifier paragraph name args allowed).

Lemma parse_response_call (m : ParsedResponseMessage) (fc : FunctionCall) :
  result = Ok m -> prm_function_call m = CallOf fc ->
  name <> [] /\ args <> [] /\ Runs.name_allowed allowed name /\
  exists v, parse args = Some v /\
            fc = {| fc_name := Some (JStr name); fc_arguments := Some v |}.
Proof.
  subst result. unfold parseStreamedResponse, Runs.name_allowed.
  destruct name as [| n0 nr]; destruct args as [| a0 ar]; simpl.
  1-3: destruct paragraph; simpl; intros H; inversion H; subst; simpl;
       discriminate.
  destruct allowed as [names |].
  - destruct (bool_decide (n0 :: nr ∈ names)) eqn:Hin; simpl;
      [| discriminate].
    apply bool_decide_eq_true in Hin.
    destruct (parse (a0 :: ar)) as [v |] eqn:Hp; simpl; [| discriminate].
    rewrite andb_false_r. intros H; inversion H; subst; simpl.
    intros [= <-]. repeat split; try discriminate.
    + intros names' [= <-]. exact Hin.
    + eauto.
  - simpl. destruct (parse (a0 :: ar)) as [v |] eqn:Hp; simpl;
      [| discriminate].
    rewrite andb_false_r. intros H; inversion H; subst; simpl.
    intros [= <-]. repeat split; try discriminate. eauto.
Qed.

Lemma parse_response_call_returned (v : json) :
  name <> [] -> args <> [] -> Runs.name_allowed allowed name ->
  parse args = Some v ->
  result =
    Ok {| prm_role := Assistant;
          prm_content := if is_empty paragraph then Some JNull
                         else Some (JStr paragraph);
          prm_function_call :=
            CallOf {| fc_name := Some (JStr name);
                      fc_arguments := Some v |} |}.
Proof.
  subst result. unfold parseStreamedResponse, Runs.name_allowed.
  intros Hn Ha Hal Hp.
  destruct name as [| n0 nr]; [congruence |].
  destruct args as [| a0 ar]; [congruence |]. simpl.
  destruct allowed as [names |].
  - rewrite bool_decide_eq_true_2 by auto. simpl. rewrite Hp. simpl.
    rewrite andb_false_r. reflexivity.
  - simpl. rewrite Hp. simpl. rewrite andb_false_r. reflexivity.
Qed.

Lemma parse_response_no_call (m : ParsedResponseMessage) :
  name = [] \/ args = [] ->
  result = Ok m -> prm_function_call m = CallNull.
Proof.
  subst result. unfold parseStreamedResponse.
  intros [-> | ->]; simpl.
  - destruct paragraph; simpl; intros H; inversion H; reflexivity.
  - rewrite andb_false_r. simpl.
    destruct paragraph; simpl; intros H; inversion H; reflexivity.
Qed.

Lemma parse_response_slot (m : ParsedResponseMessage) :
  result = Ok m ->
  prm_function_call m = CallNull
  \/ exists fc, prm_function_call m = CallOf fc.
Proof.
  subst result. unfold parseStreamedResponse. rewrite outcome_bind.
  match goal with
  | |- context [outcome ?c] => destruct (outcome c) as [slot | e] eqn:Es
  end; [| discriminate].
  assert (slot = CallNull \/ exists fc, slot = CallOf fc) as Hs.
  { revert Es.
    destruct (negb (is_empty name) && negb (is_empty args)); simpl.
    - destruct (match allowed with
                | Some names => negb (bool_decide (name ∈ names))
                | None => false
                end); simpl; [discriminate |].
      destruct (parse args); simpl; [| discriminate].
      intros [= <-]. eauto.
    - intros [= <-]. auto. }
  destruct (is_empty paragraph && _); simpl; [discriminate |].
  intros [= <-]. exact Hs.
Qed.

Lemma parse_response_shape (m : ParsedResponseMessage) :
  result = Ok m ->
  prm_role m = Assistant /\
  prm_content m = (if is_empty paragraph then Some JNull
                   else Some (JStr paragraph)) /\
  (paragraph <> [] \/ prm_function_call m <> CallNull).
Proof.
  subst result. unfold parseStreamedResponse. rewrite outcome_bind.
  match goal with
  | |- context [outcome ?m] => destruct (outcome m) as [slot | e]
  end; [| discriminate].
  destruct (is_empty paragraph &&
            match slot with CallNull => true | _ => false end) eqn:E;
    simpl; [discriminate |].
  intros H; inversion H; subst; simpl. repeat split.
  apply andb_false_iff in E. destruct E as [E | E].
  - left. destruct paragraph; [discriminate | congruence].
  - right. destruct slot; congruence.
Qed.

End ParseStreamedResponse.

(** C9.  [parseStreamedResponse] returns a message with a function call
    exactly when the accumulated name and the accumulated arguments are
    both non-empty, the name passes the allow-list (when there is one)
    and the arguments parse as JSON; the function call it returns then
    holds the accumulated name and the parsed arguments.  The
    [function_call] field of a returned message is that call or null,
    never undefined, and it is null when the name or the arguments are
    empty.  A returned message has role assistant, and its content is
    null, not the empty string, when no text was accumulated. *)
Theorem parseStreamedResponse_function_call :
  forall (identifier paragraph name args : jsstring)
         (allowed : option (gset jsstring)),
    let result :=
      outcome (Stream.parseStreamedResponse identifier paragraph name args
                 allowed) in
    ((exists m fc, result = Ok m /\ prm_function_call m = CallOf fc) <->
     (name <> [] /\ args <> [] /\ Runs.name_allowed allowed name /\
      exists v, parse args = Some v))
    /\ (forall v,
          name <> [] -> args <> [] -> Runs.name_allowed allowed name ->
          parse args = Some v ->
          result =
            Ok {| prm_role := Assistant;
                  prm_content := if is_empty paragraph then Some JNull
                                 else Some (JStr paragraph);
                  prm_function_call :=
                    CallOf {| fc_name := Some (JStr name);
                              fc_arguments := Some v |} |})
    /\ (forall m, result = Ok m ->
                  prm_function_call m = CallNull
                  \/ exists v,
                       parse args = Some v
                       /\ prm_function_call m
                          = CallOf {| fc_name := Some (JStr name);
                                      fc_arguments := Some v |})
    /\ (forall m, result = Ok m -> name = [] \/ args = [] ->
                  prm_function_call m = CallNull)
    /\ (forall m, result = Ok m ->
                  prm_role m = Assistant /\
                  (paragraph = [] -> prm_content m = Some JNull) /\
                  (paragraph <> [] -> prm_content m = Some (JStr paragraph))).
Proof.
  intros identifier paragraph name args allowed result. subst result.
  split; [split | split; [| split; [| split]]].
  - intros (m & fc & Hm & Hslot).
    destruct (parse_response_call identifier paragraph name args allowed
                m fc Hm Hslot) as (Hn & Ha & Hal & v & Hv & _).
    eauto 6.
  - intros (Hn & Ha & Hal & v & Hv).
    eexists. eexists. split.
    + apply (parse_response_call_returned identifier paragraph name args
               allowed v); assumption.
    + reflexivity.
  - intros v Hn Ha Hal Hv.
    apply (parse_response_call_returned identifier paragraph name args
             allowed v); assumption.
  - intros m Hm.
    destruct (parse_response_slot identifier paragraph name args allowed
                m Hm) as [Hnull | [fc Hslot]]; [left; exact Hnull |].
    destruct (parse_response_call identifier paragraph name args allowed
                m fc Hm Hslot) as (_ & _ & _ & v & Hv & ->).
    right. exists v. split; [exact Hv | exact Hslot].
  - intros m Hm Hempty.
    eapply parse_response_no_call; eauto.
  - intros m Hm.
    destruct (parse_response_shape identifier paragraph name args allowed
                m Hm) as (Hr & Hc & _).
    split; [exact Hr |]. rewrite Hc. split.
    + intros ->. reflexivity.
    + intros Hp. destruct paragraph; [congruence | reflexivity].
Qed.

(** The call of the score function: the arguments that were streamed in
    pieces come back parsed, under the name that was streamed. *)
Lemma parseStreamedResponse_function_call_witness :
  outcome (Stream.parseStreamedResponse (js "id") [] (js "get_game_score")
             (jq "{'team_name':'Lakers'}") None)
  = Ok {| prm_role := Assistant;
          prm_content := Some JNull;
          prm_function_call :=
            CallOf {| fc_name := Some (JStr (js "get_game_score"));
                      fc_arguments :=
                        Some (JObj [(js "team_name",
                                     JStr (js "Lakers"))]) |} |}.
Proof.
  apply (proj1 (proj2 (parseStreamedResponse_function_call (js "id") []
                         (js "get_game_score")
                         (jq "{'team_name':'Lakers'}") None))).
  - discriminate.
  - discriminate.
  - intros names H. discriminate H.
  - vm_compute. reflexivity.
Defined.

(** ** The read loop *)

Section ReadLoop.

Import Stream Runs.

Variable identifier : jsstring.
Variable functionNames : option (gset jsstring).

Let finalized := Runs.finalized identifier functionNames.

(** A piece that contains the sentinel ends the loop over the pieces,
    whatever follows it. *)
Lemma process_pieces_sentinel (chunkIndex : nat) (st : acc)
    (piece : jsstring) (rest : list jsstring) :
  includes sentinel piece = true ->
  process_pieces identifier functionNames chunkIndex st (piece :: rest) =
    (emit (LogExplicitDone (chunkIndex + 1)) ;;
     do m <- catch (finalized st)
               (fun error =>
                  emit (LogStreamParsingError (rawStreamedBody st)) ;;
                  throw error);
     ret (Return m)).
Proof.
  intros H. simpl. destruct piece as [| c piece'].
  - discriminate H.
  - simpl is_empty. cbv iota. rewrite H. reflexivity.
Qed.

(** The loop over the pieces returns only at a piece that contains the
    sentinel, and what it returns is the variables finalized. *)
Lemma process_pieces_return (pieces : list jsstring) :
  forall (chunkIndex : nat) (st : acc) (m : ParsedResponseMessage),
    outcome (process_pieces identifier functionNames chunkIndex st pieces)
    = Ok (Return m) ->
    exists piece st',
      In piece pieces /\ includes sentinel piece = true /\
      outcome (finalized st') = Ok m.
Proof.
  induction pieces as [| piece rest IH]; intros chunkIndex st m.
  - simpl. discriminate.
  - cbn [process_pieces]. destruct (is_empty piece) eqn:Hempty.
    + intros H. destruct (IH _ _ _ H) as (p & st' & Hin & Hp & Hf).
      exists p, st'. simpl. auto.
    + destruct (includes sentinel piece) eqn:Hinc.
      * intros H. exists piece, st. split; [left; reflexivity |].
        split; [exact Hinc |].
        rewrite outcome_bind in H. cbn [emit outcome snd] in H.
        rewrite outcome_bind in H.
        match type of H with
        | context [outcome (catch ?c ?h)] =>
            destruct (outcome (catch c h)) as [m' | e] eqn:Hc
        end; [| discriminate].
        simpl in H. inversion H; subst m'.
        eapply outcome_catch_ok; [| exact Hc].
        intros e. exists e. reflexivity.
      * destruct (parse (trim piece)) as [json |].
        -- rewrite outcome_bind.
           destruct (outcome (process_record chunkIndex st json))
             as [st' | e]; [| discriminate].
           intros H. destruct (IH _ _ _ H) as (p & st'' & Hin & Hp & Hf).
           exists p, st''. simpl. auto.
        -- intros H. destruct (IH _ _ _ H) as (p & st'' & Hin & Hp & Hf).
           exists p, st''. simpl. auto.
Qed.

(** The loop over the reads, one read unfolded. *)
Lemma read_loop_cons (value : list byte) (rest : list (list byte))
    (ending : option js_error) (chunkIndex : nat) (st : acc) :
  read_loop identifier functionNames (value :: rest) ending chunkIndex st =
    (do r <- process_pieces identifier functionNames chunkIndex
               (snd (take_chunk st value)) (pieces_of st value);
     match r with
     | Return m => ret m
     | Continue st' =>
         read_loop identifier functionNames rest ending (S chunkIndex) st'
     end).
Proof.
  unfold pieces_of. simpl. destruct (take_chunk st value). reflexivity.
Qed.

Lemma state_after_cons (value : list byte) (rest : list (list byte))
    (chunkIndex : nat) (st : acc) :
  state_after identifier functionNames (value :: rest) chunkIndex st =
    match outcome (process_pieces identifier functionNames chunkIndex
                     (snd (take_chunk st value)) (pieces_of st value)) with
    | Ok (Continue st') =>
        state_after identifier functionNames rest (S chunkIndex) st'
    | _ => None
    end.
Proof.
  unfold pieces_of. simpl. destruct (take_chunk st value). reflexivity.
Qed.

(** When the reads run out, the loop throws: the transport's error if
    the last read rejects, "ended prematurely" if it reports the done
    flag. *)
Lemma read_loop_runs_out (chunks : list (list byte)) :
  forall (ending : option js_error) (chunkIndex : nat) (st st' : acc),
    state_after identifier functionNames chunks chunkIndex st = Some st' ->
    outcome (read_loop identifier functionNames chunks ending chunkIndex st)
    = Throw (match ending with
             | Some e => e
             | None => Error_ (js "Stream error: ended prematurely")
             end)
    /\ (ending = None ->
        last (events (read_loop identifier functionNames chunks ending
                        chunkIndex st))
        = Some (LogEndedViaDoneFlag (chunkIndex + length chunks + 1)
                  (rawStreamedBody st'))).
Proof.
  induction chunks as [| value rest IH]; intros ending chunkIndex st st'.
  - simpl. intros [= <-]. destruct ending; simpl; split; auto.
    + discriminate.
    + intros _. do 2 f_equal. lia.
  - rewrite state_after_cons, read_loop_cons.
    destruct (process_pieces identifier functionNames chunkIndex
                (snd (take_chunk st value)) (pieces_of st value))
      as [l [[st1 | m] | e]]; simpl; try discriminate.
    intros H. destruct (IH ending (S chunkIndex) st1 st' H) as [Ho He].
    destruct (read_loop identifier functionNames rest ending
                (S chunkIndex) st1) as [l' r] eqn:E.
    simpl in *. split; [exact Ho |].
    intros Hn. specialize (He Hn).
    destruct l' as [| ev l'']; [discriminate He |].
    rewrite last_app. rewrite He.
    do 2 f_equal. lia.
Qed.

(** A read loop that returns has met, in some read, a piece that
    contains the sentinel; it returns the variables finalized, and
    nothing that comes after that read matters. *)
Lemma read_loop_return (chunks : list (list byte)) :
  forall (ending : option js_error) (chunkIndex : nat) (st : acc)
         (m : ParsedResponseMessage),
    outcome (read_loop identifier functionNames chunks ending chunkIndex st)
    = Ok m ->
    exists before value after st0,
      chunks = before ++ value :: after
      /\ state_after identifier functionNames before chunkIndex st = Some st0
      /\ (exists piece, In piece (pieces_of st0 value)
                        /\ includes sentinel piece = true)
      /\ (exists st', outcome (finalized st') = Ok m)
      /\ (forall after' ending',
            read_loop identifier functionNames (before ++ value :: after')
              ending' chunkIndex st
            = read_loop identifier functionNames chunks ending chunkIndex st).
Proof.
  induction chunks as [| value rest IH]; intros ending chunkIndex st m.
  - simpl. destruct ending; discriminate.
  - rewrite read_loop_cons.
    destruct (process_pieces identifier functionNames chunkIndex
                (snd (take_chunk st value)) (pieces_of st value))
      as [l [[st1 | m'] | e]] eqn:Hp; simpl; try discriminate.
    + destruct (read_loop identifier functionNames rest ending
                  (S chunkIndex) st1) as [l' r] eqn:E. simpl.
      intros ->.
      destruct (IH ending (S chunkIndex) st1 m) as
        (before & v & after & st0 & Hc & Hs & Hpiece & Hfin & Hshort).
      { rewrite E. reflexivity. }
      exists (value :: before), v, after, st0.
      split; [simpl; congruence |].
      split; [rewrite state_after_cons, Hp; exact Hs |].
      split; [exact Hpiece |]. split; [exact Hfin |].
      intros after' ending'. simpl app. rewrite !read_loop_cons, Hp.
      simpl. rewrite Hshort, E. reflexivity.
    + intros [= ->].
      destruct (process_pieces_return (pieces_of st value) chunkIndex
                  (snd (take_chunk st value)) m)
        as (piece & st' & Hin & Hinc & Hf).
      { rewrite Hp. reflexivity. }
      exists [], value, rest, st.
      split; [reflexivity |]. split; [reflexivity |].
      split; [eauto |]. split; [eauto |].
      intros after' ending'. simpl app. rewrite !read_loop_cons, Hp.
      reflexivity.
Qed.

End ReadLoop.



(** The test of the loop for the end of the stream is
    [jsonString.includes("[DONE]")]: a piece that contains the text
    [[DONE]] anywhere ends the loop over the pieces whatever follows
    it, with the text and the function-call fragments accumulated so
    far finalized by [parseStreamedResponse]; and a read loop that
    returns a message has met such a piece in one of its reads, returns
    the variables finalized, and does not depend on the reads that come
    after. *)
Theorem sentinel_piece_ends_stream :
  forall (identifier : jsstring) (functionNames : option (gset jsstring)),
    (forall (chunkIndex : nat) (st : Stream.acc) (piece : jsstring)
            (rest : list jsstring),
        includes Stream.sentinel piece = true ->
        Stream.process_pieces identifier functionNames chunkIndex st
          (piece :: rest)
        = (emit (LogExplicitDone (chunkIndex + 1)) ;;
           do m <- catch (Runs.finalized identifier functionNames st)
                     (fun error =>
                        emit (LogStreamParsingError
                                (Stream.rawStreamedBody st)) ;;
                        throw error);
           ret (Stream.Return m)))
    /\
    (forall (chunks : list (list byte)) (ending : option js_error)
            (chunkIndex : nat) (st : Stream.acc)
            (m : ParsedResponseMessage),
        outcome (Stream.read_loop identifier functionNames chunks ending
                   chunkIndex st) = Ok m ->
        exists before value after st0,
          chunks = before ++ value :: after
          /\ Runs.state_after identifier functionNames before chunkIndex st
             = Some st0
          /\ (exists piece, In piece (Runs.pieces_of st0 value)
                            /\ includes Stream.sentinel piece = true)
          /\ (exists st',
                outcome (Runs.finalized identifier functionNames st') = Ok m)
          /\ (forall after' ending',
                Stream.read_loop identifier functionNames
                  (before ++ value :: after') ending' chunkIndex st
                = Stream.read_loop identifier functionNames chunks ending
                    chunkIndex st)).
Proof.
  intros identifier functionNames. split.
  - intros. apply process_pieces_sentinel. assumption.
  - intros. eapply read_loop_return. eassumption.
Qed.

Lemma sentinel_piece_ends_stream_witness :
  outcome (Samples.run Samples.hello_stream)
  = Ok (Samples.text_message (js "Hello"))
  /\ exists before value after st0,
       Samples.hello_stream = before ++ value :: after
       /\ Runs.state_after (js "id") None before 0 Stream.acc_init = Some st0
       /\ (exists piece, In piece (Runs.pieces_of st0 value)
                         /\ includes Stream.sentinel piece = true)
       /\ (exists st',
             outcome (Runs.finalized (js "id") None st')
             = Ok (Samples.text_message (js "Hello")))
       /\ (forall after' ending',
             Stream.read_loop (js "id") None (before ++ value :: after')
               ending' 0 Stream.acc_init
             = Stream.read_loop (js "id") None Samples.hello_stream None 0
                 Stream.acc_init).
Proof.
  split; [vm_compute; reflexivity |].
  apply (proj2 (sentinel_piece_ends_stream (js "id") None)
           Samples.hello_stream None 0%nat Stream.acc_init).
  vm_compute. reflexivity.
Defined.

(** C5 fails on this input.  The stream has three text records and
    then the sentinel record, one record to the read, and the text of
    the second record mentions the sentinel.  The call ends at the
    second read, as "explicitly marked as done", and returns the text of
    the first record alone: the text of the second record and the third
    record are lost, and the sentinel record is never read.  With
    another word in the place of the sentinel's text the same stream
    gives the whole text. *)
Theorem mention_of_sentinel_ends_stream :
  let said := Samples.mention_stream "[DONE]" in
  let plain := Samples.mention_stream "DONE" in
  map (fun value => map parse (Samples.records_of value)) (take 3 said)
  = [[Some (Samples.text_record "Hi")];
     [Some (Samples.text_record ", type [DONE] to stop")];
     [Some (Samples.text_record "!")]]
  /\ map Samples.records_of (drop 3 said) = [[Stream.sentinel]]
  /\ outcome (Samples.run said) = Ok (Samples.text_message (js "Hi"))
  /\ events (Samples.run said) = [LogExplicitDone 2]
  /\ Samples.run (take 2 said) = Samples.run said
  /\ outcome (Samples.run plain)
     = Ok (Samples.text_message (js "Hi, type DONE to stop!")).
Proof. repeat split; vm_compute; reflexivity. Qed.

(** ** Records without choices *)

Section NoChoices.

Import Stream.

Variable identifier : jsstring.
Variable functionNames : option (gset jsstring).

Lemma process_pieces_record (chunkIndex : nat) (st : acc)
    (piece : jsstring) (rest : list jsstring) (json : json) :
  is_empty piece = false -> includes sentinel piece = false ->
  parse (trim piece) = Some json ->
  process_pieces identifier functionNames chunkIndex st (piece :: rest) =
    (do st' <- process_record chunkIndex st json;
     process_pieces identifier functionNames chunkIndex st' rest).
Proof.
  intros He Hi Hp. cbn [process_pieces]. rewrite He, Hi, Hp. reflexivity.
Qed.

Lemma process_record_error (chunkIndex : nat) (st : acc) (json data : json) :
  json <> JNull ->
  lacks_choices (get_prop json (js "choices")) = true ->
  get_prop json (js "error") = Some data -> truthy (Some data) = true ->
  process_record chunkIndex st json =
    ([LogOpenAIStreamError data],
     Throw (ErrorWithData (js "Stream error: OpenAI error") data)).
Proof.
  intros Hn Hl He Ht. unfold process_record, read.
  destruct json; try congruence;
    cbn [bind ret throw]; rewrite Hl; cbn [bind ret];
    rewrite He, Ht; reflexivity.
Qed.

Lemma process_record_skip (chunkIndex : nat) (st : acc) (json : json) :
  json <> JNull ->
  lacks_choices (get_prop json (js "choices")) = true ->
  truthy (get_prop json (js "error")) = false ->
  process_record chunkIndex st json =
    (if Nat.eqb chunkIndex 0 then [] else [LogNoChoices json], Ok st).
Proof.
  intros Hn Hl He. unfold process_record, read.
  destruct json; try congruence;
    cbn [bind ret throw]; rewrite Hl; cbn [bind ret];
    rewrite He; destruct (Nat.eqb chunkIndex 0); reflexivity.
Qed.

End NoChoices.

(** C7, as the code has it.  For a parsed record other than [null] whose
    [choices] are missing, falsy or without a truthy length: when its
    [error] is truthy, the loop throws at once an error that carries it
    as [data]; when its [error] is missing or falsy, the record is
    skipped, the skip is logged unless the read is the first one, and
    the loop goes on with the next piece, the variables unchanged. *)
Theorem record_without_choices :
  forall (identifier : jsstring) (functionNames : option (gset jsstring))
         (chunkIndex : nat) (st : Stream.acc)
         (piece : jsstring) (rest : list jsstring) (json : json),
    is_empty piece = false -> includes Stream.sentinel piece = false ->
    parse (trim piece) = Some json ->
    json <> JNull ->
    Stream.lacks_choices (get_prop json (js "choices")) = true ->
    (forall data,
        get_prop json (js "error") = Some data -> truthy (Some data) = true ->
        Stream.process_pieces identifier functionNames chunkIndex st
          (piece :: rest)
        = ([LogOpenAIStreamError data],
           Throw (ErrorWithData (js "Stream error: OpenAI error") data)))
    /\
    (truthy (get_prop json (js "error")) = false ->
     Stream.process_pieces identifier functionNames chunkIndex st
       (piece :: rest)
     = ((if Nat.eqb chunkIndex 0 then [] else [LogNoChoices json])
        ++ events (Stream.process_pieces identifier functionNames chunkIndex
                     st rest),
        outcome (Stream.process_pieces identifier functionNames chunkIndex
                   st rest))).
Proof.
  intros identifier functionNames chunkIndex st piece rest json
         He Hi Hp Hn Hl.
  rewrite (process_pieces_record identifier functionNames chunkIndex st
             piece rest json He Hi Hp).
  split.
  - intros data Hd Ht.
    rewrite (process_record_error chunkIndex st json data Hn Hl Hd Ht).
    reflexivity.
  - intros Hf. rewrite (process_record_skip chunkIndex st json Hn Hl Hf).
    cbn [bind].
    destruct (Stream.process_pieces identifier functionNames chunkIndex st
                rest); reflexivity.
Qed.

Lemma record_without_choices_witness :
  Stream.process_pieces (js "id") None 1 Stream.acc_init
    [jq "{'error':{'code':'content_filter'}}"; js "never read"]
  = ([LogOpenAIStreamError
        (JObj [(js "code", JStr (js "content_filter"))])],
     Throw (ErrorWithData (js "Stream error: OpenAI error")
              (JObj [(js "code", JStr (js "content_filter"))])))
  /\ Stream.process_pieces (js "id") None 1 Stream.acc_init
       [jq "{'id':'chatcmpl-1','choices':[]}"]
     = ([LogNoChoices (JObj [(js "id", JStr (js "chatcmpl-1"));
                             (js "choices", JArr [])])],
        Ok (Stream.Continue Stream.acc_init)).
Proof.
  split.
  - refine (proj1 (record_without_choices (js "id") None 1 Stream.acc_init
             (jq "{'error':{'code':'content_filter'}}") [js "never read"]
             Samples.filter_error_record _ _ _ _ _) _ _ _);
      try (vm_compute; reflexivity); discriminate.
  - refine (proj2 (record_without_choices (js "id") None 1 Stream.acc_init
             (jq "{'id':'chatcmpl-1','choices':[]}") []
             (JObj [(js "id", JStr (js "chatcmpl-1"));
                    (js "choices", JArr [])]) _ _ _ _ _) _);
      try (vm_compute; reflexivity); discriminate.
Defined.

(** C7, as it is stated, fails: this record has no choices and carries
    an [error] member, whose value is null; the loop does not throw, it
    skips the record. *)
Lemma record_with_null_error_is_skipped :
  parse (jq "{'error':null}") = Some Samples.null_error_record
  /\ has_key (js "error") [(js "error", JNull)] = true
  /\ Stream.lacks_choices (get_prop Samples.null_error_record (js "choices"))
     = true
  /\ Stream.process_pieces (js "id") None 0 Stream.acc_init
       [jq "{'error':null}"]
     = ([], Ok (Stream.Continue Stream.acc_init)).
Proof. repeat split; vm_compute; reflexivity. Qed.

(** ** Framing *)

Section Framing.

Import Stream.

Variable identifier : jsstring.
Variable functionNames : option (gset jsstring).

(** What was held back is put in front of the next buffer before the
    cut, and the hold is emptied. *)
Lemma take_chunk_prepends (st : acc) (value : list byte) :
  partialChunk st <> [] ->
  fst (take_chunk st value) = partialChunk st ++ Utf8.decode value
  /\ partialChunk (snd (take_chunk st value)) = [].
Proof.
  intros H. unfold take_chunk. simpl.
  destruct (partialChunk st); [congruence |]. simpl. auto.
Qed.

Lemma process_pieces_app (pieces more : list jsstring) :
  forall (chunkIndex : nat) (st st' : acc),
    outcome (process_pieces identifier functionNames chunkIndex st pieces)
    = Ok (Continue st') ->
    outcome (process_pieces identifier functionNames chunkIndex st
               (pieces ++ more))
    = outcome (process_pieces identifier functionNames chunkIndex st' more).
Proof.
  induction pieces as [| piece rest IH]; intros chunkIndex st st'.
  - simpl. intros [= ->]. reflexivity.
  - cbn [process_pieces app]. destruct (is_empty piece); [apply IH |].
    destruct (includes sentinel piece).
    + rewrite outcome_bind. cbn [emit outcome snd].
      rewrite outcome_bind.
      match goal with
      | |- context [outcome (catch ?c ?h)] =>
          destruct (outcome (catch c h))
      end; discriminate.
    + destruct (parse (trim piece)); [| apply IH].
      rewrite !outcome_bind.
      destruct (outcome (process_record chunkIndex st j)); [apply IH |].
      discriminate.
Qed.

(** A last piece that does not parse is held back, not dropped. *)
Lemma trailing_fragment_is_held (pieces : list jsstring)
    (fragment : jsstring) (chunkIndex : nat) (st st' : acc) :
  outcome (process_pieces identifier functionNames chunkIndex st pieces)
  = Ok (Continue st') ->
  fragment <> [] -> includes sentinel fragment = false ->
  parse (trim fragment) = None ->
  outcome (process_pieces identifier functionNames chunkIndex st
             (pieces ++ [fragment]))
  = Ok (Continue (set_partial st' fragment)).
Proof.
  intros H Hne Hs Hp.
  rewrite (process_pieces_app pieces [fragment] chunkIndex st st' H).
  cbn [process_pieces]. destruct fragment; [congruence |].
  cbn [is_empty]. rewrite Hs, Hp. reflexivity.
Qed.

End Framing.

(** C1 fails on this input.  The bytes of a stream whose text delta ends
    in a character of two bytes give that text when they come as one
    buffer, and two replacement characters in its place when the buffers
    are cut between the two bytes: every buffer is decoded on its own. *)
Theorem split_inside_character_changes_text :
  Samples.cafe_whole = Samples.cafe_head ++ Samples.cafe_tail
  /\ outcome (Samples.run [Samples.cafe_whole])
     = Ok (Samples.text_message (js "caf" ++ [0xE9%N]))
  /\ outcome (Samples.run [Samples.cafe_head; Samples.cafe_tail])
     = Ok (Samples.text_message (js "caf" ++ [0xFFFD%N; 0xFFFD%N])).
Proof. repeat split; vm_compute; reflexivity. Qed.

(** ** The retries of the OpenAI path *)

Section OpenAiRemediation.

Import OpenAiRetries Runs.

(** A block is a text block when its [type] is ["text"]. *)
Let text_only (b : OpenAIContentBlock) : Prop := exists text, b = OText text.

Lemma filter_text_sublist (blocks : list OpenAIContentBlock) :
  sublist (List.filter is_text_block blocks) blocks.
Proof.
  induction blocks as [| b bs IH]; simpl; [constructor |].
  destruct (is_text_block b); constructor; exact IH.
Qed.

Lemma filter_text_only (blocks : list OpenAIContentBlock) :
  Forall text_only (List.filter is_text_block blocks).
Proof.
  induction blocks as [| b bs IH]; simpl; [constructor |].
  destruct b; simpl; auto. constructor; [eexists; reflexivity | exact IH].
Qed.

Lemma filter_text_keeps (blocks : list OpenAIContentBlock) (text : jsstring) :
  OText text ∈ blocks -> OText text ∈ List.filter is_text_block blocks.
Proof.
  induction blocks as [| b bs IH]; [intros H; inversion H |].
  intros H. apply elem_of_cons in H. destruct H as [<- | H].
  - simpl. apply list_elem_of_here.
  - simpl. destruct (is_text_block b); [apply list_elem_of_further |]; auto.
Qed.

Lemma filter_text_largest (others blocks : list OpenAIContentBlock) :
  sublist others blocks -> Forall text_only others ->
  sublist others (List.filter is_text_block blocks).
Proof.
  induction 1 as [| b l1 l2 Hs IH | b l1 l2 Hs IH]; intros Hf.
  - constructor.
  - inversion Hf as [| ? ? [text ->] Hf']; subst. simpl.
    constructor. exact (IH Hf').
  - simpl. destruct (is_text_block b); [constructor |]; exact (IH Hf).
Qed.

Lemma strip_non_text_blocks (m : OpenAIMessage) (blocks : list OpenAIContentBlock) :
  om_content m = OBlocks blocks ->
  om_role (strip_non_text m) = om_role m /\
  exists kept,
    om_content (strip_non_text m) = OBlocks kept
    /\ sublist kept blocks
    /\ Forall (fun b => exists text, b = OText text) kept
    /\ (forall text, OText text ∈ blocks -> OText text ∈ kept)
    /\ (forall others,
          sublist others blocks ->
          Forall (fun b => exists text, b = OText text) others ->
          sublist others kept).
Proof.
  intros H. unfold strip_non_text. rewrite H. simpl. split; [reflexivity |].
  eexists. split; [reflexivity |].
  split; [apply filter_text_sublist |].
  split; [apply filter_text_only |].
  split; [apply filter_text_keeps |].
  intros others. apply filter_text_largest.
Qed.

Lemma strip_non_text_string (m : OpenAIMessage) (s : jsstring) :
  om_content m = OString s -> strip_non_text m = m.
Proof. intros H. unfold strip_non_text. rewrite H. reflexivity. Qed.

Lemma is_azure_switch (c : option AIConfig) :
  is_azure (switch_to_openai c) = false.
Proof. destruct c; reflexivity. Qed.

(** What one failure does to the two objects. *)
Lemma catch_block_state (i : nat) (error : js_error)
    (p : OpenAIPayload) (c : option AIConfig) :
  snd (catch_block i error (p, c)) =
    ({| op_model := GPTModel.GPT4_0409;
        op_messages :=
          if is_string (error_code error) (js "content_policy_violation")
          then map strip_non_text (op_messages p)
          else op_messages p;
        op_tools := op_tools p;
        op_tool_choice :=
          if (i =? 4)%nat && has_tools p then Some ChoiceNone
          else op_tool_choice p;
        op_temperature := Some temperature_0_8 |},
     if is_azure c
        && (((2 <=? i)%nat
             && is_string (error_code error) (js "content_filter"))
            || (i =? 3)%nat)
     then switch_to_openai c
     else c).
Proof.
  unfold catch_block, has_tools, set_tool_choice_none, set_messages,
    set_model_temperature.
  destruct (is_string (error_code error) (js "content_policy_violation"));
    destruct (is_string (error_code error) (js "content_filter"));
    destruct (2 <=? i)%nat; destruct (i =? 3)%nat; destruct (i =? 4)%nat;
    destruct (is_azure c) eqn:Hc; destruct (op_tools p) eqn:Ht;
    cbn -[GPTModel.GPT4_0409 temperature_0_8 strip_non_text is_azure
          switch_to_openai];
    rewrite ?is_azure_switch, ?Hc, ?Ht;
    cbn -[GPTModel.GPT4_0409 temperature_0_8 strip_non_text is_azure
          switch_to_openai];
    rewrite ?Ht;
    reflexivity.
Qed.

Variable w : world.
Variable identifier : jsstring.

(** The attempts share the two objects: after the failures [errors],
    the loop goes on from the objects as those failures left them. *)
Lemma attempts_after_failures (errors : list js_error) :
  forall (fuel i : nat) (s : retry_state),
    (forall k e, errors !! k = Some e ->
       outcome (Stream.callOpenAIStream w (i + k) identifier
                  (fst (remediated i (take k errors) s))
                  (snd (remediated i (take k errors) s))) = Throw e) ->
    snd (attempts w identifier (length errors + fuel) i s)
    = snd (attempts w identifier fuel (i + length errors)
             (remediated i errors s)).
Proof.
  induction errors as [| e rest IH]; intros fuel i s H.
  - simpl. rewrite Nat.add_0_r. reflexivity.
  - cbn [length Nat.add attempts].
    pose proof (H 0%nat e eq_refl) as H0. simpl in H0.
    rewrite Nat.add_0_r in H0.
    destruct (Stream.callOpenAIStream w i identifier (fst s) (snd s))
      as [l [res | e']]; simpl in H0; [discriminate |].
    inversion H0; subst e'.
    destruct (catch_block i e s) as [l' s'] eqn:Ec.
    assert (snd (attempts w identifier (length rest + fuel) (S i) s')
            = snd (attempts w identifier fuel (S i + length rest)
                     (remediated (S i) rest s'))) as IH'.
    { apply IH. intros k e1 Hk. specialize (H (S k) e1 Hk).
      cbn [take remediated] in H. rewrite Ec in H. simpl in H.
      replace (S i + k)%nat with (i + S k)%nat by lia. exact H. }
    destruct (attempts w identifier (length rest + fuel) (S i) s')
      as [l'' r] eqn:Ea.
    simpl in IH'. simpl. rewrite IH'.
    cbn [remediated]. rewrite Ec. simpl.
    replace (i + S (length rest))%nat with (S (i + length rest))%nat by lia.
    reflexivity.
Qed.

End OpenAiRemediation.



(** ** The dispatch *)

(** C10.  A request whose model is in none of the four enumerations is
    refused with "Invalid AI payload: Unknown model type.": nothing is
    printed, nothing is prepared, no provider is called, and the
    configuration object is left as it was. *)
Theorem unknown_model_is_refused :
  forall (w : world) (identifier : jsstring) (aiPayload : GenericPayload)
         (aiConfig : option AIConfig) (retries : Z),
    gp_model aiPayload ∉ ClaudeModel.values ->
    gp_model aiPayload ∉ GPTModel.values ->
    gp_model aiPayload ∉ GroqModel.values ->
    gp_model aiPayload ∉ GeminiModel.values ->
    Dispatch.callWithRetries w identifier aiPayload aiConfig retries
    = (([], Throw (Error_ (js "Invalid AI payload: Unknown model type."))),
       aiConfig).
Proof.
  intros w identifier aiPayload aiConfig retries Hc Hg Hq Hm.
  unfold Dispatch.callWithRetries, Dispatch.isAnthropicPayload,
    Dispatch.isOpenAiPayload, Dispatch.isGroqPayload,
    Dispatch.isGoogleAIPayload.
  rewrite !bool_decide_eq_false_2 by assumption. reflexivity.
Qed.

Lemma unknown_model_is_refused_witness :
  Dispatch.callWithRetries Samples.offline (js "id")
    (Samples.request (js "gpt-5")) None 5
  = (([], Throw (Error_ (js "Invalid AI payload: Unknown model type."))),
     None).
Proof.
  apply unknown_model_is_refused;
    apply (bool_decide_eq_false_1 _); vm_compute; reflexivity.
Defined.

(** ** Responses with neither text nor function call *)

Section Completeness.

Import Runs.

Variable w : world.
Variable identifier : jsstring.

(** The OpenAI path never returns an empty response. *)
Lemma openai_stream_complete (n : nat) (p : OpenAIPayload)
    (c : option AIConfig) (m : ParsedResponseMessage) :
  outcome (Stream.callOpenAIStream w n identifier p c) = Ok m ->
  has_text m \/ has_call m.
Proof.
  unfold Stream.callOpenAIStream. rewrite outcome_bind.
  match goal with
  | |- context [outcome ?c] => destruct (outcome c) as [endpoint | e]
  end; [| discriminate].
  rewrite outcome_bind. cbn [emit outcome snd].
  destruct (w_fetch w n endpoint _ p) as [e | | chunks ending];
    try discriminate.
  intros H.
  destruct (read_loop_return identifier _ chunks ending 0 Stream.acc_init
              m H) as (_ & _ & _ & _ & _ & _ & _ & (st' & Hf) & _).
  unfold Runs.finalized in Hf.
  destruct (parse_response_shape _ _ _ _ _ m Hf) as (_ & Hc & Hne).
  destruct Hne as [Hp | Hcall].
  - left. exists (Stream.paragraph st'). split; [| exact Hp].
    rewrite Hc. destruct (Stream.paragraph st'); [congruence | reflexivity].
  - right. destruct (parse_response_slot _ _ _ _ _ m Hf) as [E | E];
      [congruence | exact E].
Qed.

Lemma openai_attempts_complete (fuel : nat) :
  forall (i : nat) (s : OpenAiRetries.retry_state)
         (m : ParsedResponseMessage),
    fst (snd (OpenAiRetries.attempts w identifier fuel i s)) = Some m ->
    has_text m \/ has_call m.
Proof.
  induction fuel as [| fuel IH]; intros i s m.
  - discriminate.
  - cbn [OpenAiRetries.attempts].
    destruct (Stream.callOpenAIStream w i identifier (fst s) (snd s))
      as [l [res | e]] eqn:E.
    + simpl. intros [= <-].
      apply (openai_stream_complete i (fst s) (snd s)). rewrite E.
      reflexivity.
    + destruct (OpenAiRetries.catch_block i e s) as [l' s'].
      specialize (IH (S i) s' m).
      destruct (OpenAiRetries.attempts w identifier fuel (S i) s')
        as [l'' r]. exact IH.
Qed.

(** Nor does the Anthropic path. *)
Lemma anthropic_answers_complete (data : json) (m : ParsedResponseMessage) :
  outcome (AnthropicPath.read_answers data) = Ok m ->
  has_text m \/ has_call m.
Proof.
  unfold AnthropicPath.read_answers. rewrite outcome_bind.
  destruct (outcome (read_val (Some data) (js "content")))
    as [answers | e]; [| discriminate].
  rewrite outcome_bind.
  destruct (outcome (read_val answers (js "0"))) as [first | e];
    [| discriminate].
  destruct (negb (truthy first)); [discriminate |].
  rewrite outcome_bind.
  match goal with
  | |- context [outcome ?c] =>
      destruct (outcome c) as [[textResponse functionCalls] | e]
  end; [| discriminate].
  destruct (is_empty textResponse && is_empty functionCalls) eqn:E;
    [discriminate |].
  simpl. intros [= <-]. apply andb_false_iff in E. destruct E as [E | E].
  - left. exists textResponse. split; [reflexivity |].
    destruct textResponse; [discriminate | congruence].
  - right. destruct functionCalls as [| fc fcs]; [discriminate |].
    exists fc. reflexivity.
Qed.

End Completeness.

(** C3 fails on these inputs.  The Groq path and the Google path return
    a response whose content is null and whose function call is null
    when the provider's answer has neither: they lack the check that
    the OpenAI and Anthropic paths make. *)
Theorem groq_and_google_return_empty_responses :
  outcome (fst (Dispatch.callWithRetries Samples.empty_groq (js "id")
             (Samples.request GroqModel.LLAMA_3_70B_8192) None 5))
  = Ok Samples.empty_response
  /\ outcome (fst (Dispatch.callWithRetries Samples.empty_groq (js "id")
             (Samples.request GeminiModel.GEMINI_15_PRO) None 5))
     = Ok Samples.empty_response.
Proof. split; vm_compute; reflexivity. Qed.

(** ** The bounds on the attempts *)

(** C8 fails on these inputs.  With five retries and every attempt
    failing, the OpenAI path makes six attempts and throws an error
    that says five; and the error the Anthropic path throws after its
    five attempts has no response attached, although each failure came
    with one. *)
Theorem exhaustion_error_miscounts_and_drops_response :
  (let run := fst (OpenAiRetries.callOpenAiWithRetries Samples.offline
                     (js "id") Samples.picture_question None 5) in
   OpenAiRetries.attempts_made (events run) = 6%nat
   /\ outcome run
      = Throw (Error_ (js "id: Failed to call OpenAI API after 5 attempts. Please lookup OpenAI status for active issues.")))
  /\
  (let run := fst (Dispatch.callWithRetries Samples.rate_limited (js "id")
                     (Samples.request ClaudeModel.HAIKU) None 5) in
   requests_made (events run) = 5%nat
   /\ outcome run
      = Throw (ErrorWithResponse
                 (js "Failed to call Anthropic API after 5 attempts") None)).
Proof. repeat split; vm_compute; reflexivity. Qed.

(** ** The Anthropic message sequence *)

Section Jig.

Import AnthropicPath Runs.

Lemma role_eqb_eq (a b : role) : role_eqb a b = true <-> a = b.
Proof. destruct a, b; simpl; split; congruence. Qed.

Lemma role_eqb_neq (a b : role) : role_eqb a b = false <-> a <> b.
Proof. destruct a, b; simpl; split; congruence. Qed.

(** Adjacent roles differ, said with the two neighbours in view. *)
Lemma alternates_adjacent (l : list role) :
  alternates l <->
  (forall l1 a b l2, l = l1 ++ a :: b :: l2 -> a <> b).
Proof.
  induction l as [| x l IH].
  - split; [| simpl; auto]. intros _ l1 a b l2 H.
    destruct l1; discriminate H.
  - destruct l as [| y l'].
    + split; [| simpl; auto]. intros _ l1 a b l2 H.
      destruct l1 as [| ? [| ? ?]]; discriminate H.
    + split.
      * intros [Hxy Hrest] l1 a b l2 H. destruct l1 as [| z l1].
        -- simpl in H. congruence.
        -- simpl in H. injection H as -> H.
           apply (proj1 IH Hrest l1 a b l2 H).
      * intros H. split.
        -- apply (H [] x y l'). reflexivity.
        -- apply IH. intros l1 a b l2 E.
           apply (H (x :: l1) a b l2). simpl. congruence.
Qed.

Lemma alternates_rev (l : list role) : alternates l -> alternates (rev l).
Proof.
  rewrite !alternates_adjacent. intros H l1 a b l2 E.
  assert (l = rev l2 ++ b :: a :: rev l1) as E'.
  { rewrite <- (rev_involutive l), E, rev_app_distr. simpl.
    rewrite <- !app_assoc. reflexivity. }
  intros ->. exact (H _ _ _ _ E' eq_refl).
Qed.

Lemma troles_reduce_step (acc : list tracked) (t : tracked) :
  troles (reduce_step acc t) =
    match troles acc with
    | [] => [am_role (snd t)]
    | r :: _ => if role_eqb r (am_role (snd t)) then troles acc
                else am_role (snd t) :: troles acc
    end.
Proof.
  destruct acc as [| [at_ lastMessage] before]; [reflexivity |].
  simpl. destruct (role_eqb (am_role lastMessage) (am_role (snd t)));
    [reflexivity |].
  simpl. unfold converted. destruct (am_content (snd t)); reflexivity.
Qed.

Lemma reduce_step_alternates (acc : list tracked) (t : tracked) :
  alternates (troles acc) -> alternates (troles (reduce_step acc t)).
Proof.
  rewrite troles_reduce_step. destruct (troles acc) as [| r rs] eqn:E.
  - simpl. auto.
  - destruct (role_eqb r (am_role (snd t))) eqn:Er; [auto |].
    intros H. split; [| exact H].
    apply role_eqb_neq in Er. congruence.
Qed.

Lemma fold_alternates (ts acc : list tracked) :
  alternates (troles acc) ->
  alternates (troles (fold_left reduce_step ts acc)).
Proof.
  revert acc. induction ts as [| t ts IH]; intros acc H; [exact H |].
  simpl. apply IH. apply reduce_step_alternates. exact H.
Qed.

Lemma fold_roles_in (P : role -> Prop) (ts acc : list tracked) :
  Forall P (troles ts) -> Forall P (troles acc) ->
  Forall P (troles (fold_left reduce_step ts acc)).
Proof.
  revert acc. induction ts as [| t ts IH]; intros acc Hts Hacc;
    [exact Hacc |].
  simpl. inversion Hts; subst. apply IH; [assumption |].
  rewrite troles_reduce_step. destruct (troles acc) as [| r rs].
  - constructor; auto.
  - destruct (role_eqb r (am_role (snd t))); [assumption |].
    constructor; assumption.
Qed.

(** What lies under the last message is never touched again. *)
Lemma fold_keeps_tail (ts : list tracked) :
  forall (x : tracked) (tail : list tracked),
  exists pre, pre <> [] /\ fold_left reduce_step ts (x :: tail) = pre ++ tail.
Proof.
  induction ts as [| t ts IH]; intros x tail.
  - exists [x]. split; [discriminate | reflexivity].
  - cbn [fold_left]. destruct x as [at_ lastMessage].
    cbn [reduce_step].
    destruct (role_eqb (am_role lastMessage) (am_role (snd t))).
    + apply IH.
    + destruct (IH (fst t, converted (snd t)) ((at_, lastMessage) :: tail))
        as (pre & Hne & E).
      exists (pre ++ [(at_, lastMessage)]). split.
      * destruct pre; discriminate.
      * rewrite E, <- app_assoc. reflexivity.
Qed.

(** The first message keeps its role. *)
Lemma fold_keeps_bottom_role (ts : list tracked) :
  forall (acc : list tracked) (b : tracked),
    last acc = Some b ->
    exists b', last (fold_left reduce_step ts acc) = Some b'
               /\ am_role (snd b') = am_role (snd b).
Proof.
  induction ts as [| t ts IH]; intros acc b Hb.
  - exists b. auto.
  - cbn [fold_left]. destruct acc as [| [at_ lastMessage] before];
      [discriminate Hb |].
    cbn [reduce_step].
    destruct (role_eqb (am_role lastMessage) (am_role (snd t))).
    + destruct before as [| y before'].
      * simpl in Hb. injection Hb as <-.
        destruct (IH [(at_, merged lastMessage (snd t))]
                    (at_, merged lastMessage (snd t)) eq_refl)
          as (b' & Hl & Hr).
        exists b'. auto.
      * apply IH. exact Hb.
    + apply IH. exact Hb.
Qed.

Lemma troles_track (messages : list AnthropicAIMessage) :
  troles (track messages) = roles messages.
Proof.
  unfold track, troles, roles.
  assert (forall (f : nat -> option nat) (ms : list AnthropicAIMessage),
            map (fun t : tracked => am_role (snd t))
                (imap (fun i m => (f i, m)) ms)
            = map am_role ms) as H.
  { intros f ms. revert f.
    induction ms as [| m ms IH]; intros f; [reflexivity |].
    simpl. f_equal. apply (IH (fun i => f (S i))). }
  apply (H (fun i => Some i)).
Qed.

Lemma roles_rev_tracked (acc : list tracked) :
  roles (map snd (rev acc)) = rev (troles acc).
Proof.
  unfold roles, troles. rewrite map_map, map_rev. reflexivity.
Qed.

Lemma last_rev_head {A} (l : list A) : last (rev l) = head l.
Proof.
  destruct l as [| x l]; [reflexivity |]. simpl. apply last_snoc.
Qed.

Lemma closed_alternates (acc : list tracked) :
  alternates (troles acc) -> alternates (troles (closed acc)).
Proof.
  destruct acc as [| [at_ m] before]; [auto |]. unfold closed.
  destruct (role_eqb (am_role m) Assistant) eqn:E; [| auto].
  apply role_eqb_eq in E. intros H.
  change (User <> am_role m /\ alternates (troles ((at_, m) :: before))).
  split; [rewrite E; discriminate | exact H].
Qed.

Lemma closed_head (acc : list tracked) (t : tracked) :
  head (closed acc) = Some t -> am_role (snd t) <> Assistant.
Proof.
  destruct acc as [| [at_ m] before]; [discriminate |]. simpl.
  destruct (role_eqb (am_role m) Assistant) eqn:E.
  - intros [= <-]. discriminate.
  - intros [= <-]. apply role_eqb_neq. exact E.
Qed.

Lemma closed_last (acc : list tracked) :
  acc <> [] -> last (closed acc) = last acc.
Proof.
  destruct acc as [| [at_ m] before]; [congruence |]. intros _. simpl.
  destruct (role_eqb (am_role m) Assistant); reflexivity.
Qed.

Lemma closed_roles_in (P : role -> Prop) (acc : list tracked) :
  P User -> Forall P (troles acc) -> Forall P (troles (closed acc)).
Proof.
  intros HU H. destruct acc as [| [at_ m] before]; [exact H |]. simpl.
  destruct (role_eqb (am_role m) Assistant); [| exact H].
  constructor; assumption.
Qed.

Lemma jig_tracked_unfold (messages : list AnthropicAIMessage) :
  jig_tracked messages
  = rev (closed (fold_left reduce_step (opened messages) [])).
Proof. reflexivity. Qed.

(** The array handed to [reduce] starts with a user message, the
    placeholder unless the caller's first message is one. *)
Lemma opened_starts_with_user (messages : list AnthropicAIMessage) :
  exists t ts,
    opened messages = t :: ts /\ am_role (snd t) = User
    /\ (head (roles messages) <> Some User ->
        t = (None, placeholder)
        /\ forall t' ts', ts = t' :: ts' -> am_role (snd t') <> User).
Proof.
  destruct messages as [| m ms].
  - exists (None, placeholder), []. repeat split; auto; discriminate.
  - unfold opened. destruct (role_eqb (am_role m) User) eqn:E.
    + apply role_eqb_eq in E. exists (Some 0%nat, m).
      eexists. split; [reflexivity |]. split; [exact E |].
      simpl. intros H. congruence.
    + apply role_eqb_neq in E. exists (None, placeholder).
      eexists. split; [reflexivity |]. split; [reflexivity |].
      intros _. split; [reflexivity |].
      intros t' ts'. unfold track. simpl. intros [= <- _]. exact E.
Qed.

Lemma jig_first (messages : list AnthropicAIMessage) :
  exists first rest,
    jigAnthropicMessages messages = first :: rest
    /\ am_role first = User
    /\ (head (roles messages) <> Some User -> first = placeholder).
Proof.
  unfold jigAnthropicMessages. rewrite jig_tracked_unfold.
  destruct (opened_starts_with_user messages)
    as (t & ts & -> & Hu & Hph).
  cbn [fold_left reduce_step].
  destruct (fold_keeps_bottom_role ts [t] t eq_refl) as (b' & Hl & Hr).
  assert (fold_left reduce_step ts [t] <> []) as Hne.
  { intros E. rewrite E in Hl. discriminate. }
  pose proof (closed_last _ Hne) as Hcl. rewrite Hl in Hcl.
  apply last_Some in Hcl as [l El]. rewrite El.
  rewrite rev_app_distr. simpl.
  exists (snd b'), (map snd (rev l)). split; [reflexivity |].
  split; [congruence |].
  intros Hnu. destruct (Hph Hnu) as [-> Hnext].
  (* the placeholder is alone, or has a message of another role on it *)
  destruct ts as [| t' ts'].
  - simpl in Hl. injection Hl as <-. reflexivity.
  - cbn [fold_left reduce_step] in Hl. simpl snd in Hl.
    change (am_role placeholder) with User in Hl.
    assert (role_eqb User (am_role (snd t')) = false) as E.
    { apply role_eqb_neq. intros E. apply (Hnext t' ts' eq_refl).
      congruence. }
    rewrite E in Hl.
    destruct (fold_keeps_tail ts' (fst t', converted (snd t'))
                [(None, placeholder)]) as (pre & _ & Ef).
    rewrite Ef, last_snoc in Hl. injection Hl as <-. reflexivity.
Qed.

Lemma jig_alternates (messages : list AnthropicAIMessage) :
  alternates (roles (jigAnthropicMessages messages)).
Proof.
  unfold jigAnthropicMessages. rewrite jig_tracked_unfold, roles_rev_tracked.
  apply alternates_rev, closed_alternates, fold_alternates. simpl. auto.
Qed.

Lemma jig_last (messages : list AnthropicAIMessage) (m : AnthropicAIMessage) :
  last (jigAnthropicMessages messages) = Some m -> am_role m <> Assistant.
Proof.
  unfold jigAnthropicMessages. rewrite jig_tracked_unfold.
  rewrite map_rev, last_rev_head.
  generalize (closed_head (fold_left reduce_step (opened messages) [])).
  destruct (closed (fold_left reduce_step (opened messages) []))
    as [| t ts]; [discriminate |].
  intros H. simpl. intros [= <-].
  apply H. reflexivity.
Qed.

Lemma opened_roles_in (P : role -> Prop) (messages : list AnthropicAIMessage) :
  P User -> Forall P (roles messages) -> Forall P (troles (opened messages)).
Proof.
  intros HU H. destruct messages as [| m ms].
  - repeat constructor. exact HU.
  - unfold opened. destruct (role_eqb (am_role m) User).
    + rewrite troles_track. exact H.
    + change (troles ((None, placeholder) :: track (m :: ms)))
        with (User :: troles (track (m :: ms))).
      rewrite troles_track. constructor; assumption.
Qed.

Lemma jig_no_system (messages : list AnthropicAIMessage) :
  no_system messages -> no_system (jigAnthropicMessages messages).
Proof.
  unfold no_system. intros H.
  assert (Forall (fun r => r <> System) (roles messages)) as Hr.
  { unfold roles. rewrite Forall_map. exact H. }
  assert (Forall (fun r => r <> System)
            (roles (jigAnthropicMessages messages))) as Hj.
  { unfold jigAnthropicMessages.
    rewrite jig_tracked_unfold, roles_rev_tracked.
    apply Forall_rev, closed_roles_in; [discriminate |].
    apply fold_roles_in; [| constructor].
    apply opened_roles_in; [discriminate | exact Hr]. }
  unfold roles in Hj. rewrite Forall_map in Hj. exact Hj.
Qed.

(** [prepareAnthropicPayload] lets no system message through. *)
Lemma prepare_messages_no_system (w : world) (messages : list GenericMessage) :
  forall (prepared result : AnthropicAIPayload),
    no_system (ap_messages prepared) ->
    outcome (prepare_messages w messages prepared) = Ok result ->
    no_system (ap_messages result).
Proof.
  induction messages as [| message rest IH]; intros prepared result Hp.
  - simpl. intros [= <-]. exact Hp.
  - cbn [prepare_messages].
    destruct (gm_role message) eqn:Er.
    + rewrite outcome_bind.
      destruct (outcome (file_blocks w (default [] (gm_files message))))
        as [images | e]; [| discriminate].
      apply IH. unfold no_system, push_message. simpl.
      apply Forall_app. split; [exact Hp |].
      repeat constructor. simpl. discriminate.
    + rewrite outcome_bind.
      destruct (outcome (file_blocks w (default [] (gm_files message))))
        as [images | e]; [| discriminate].
      apply IH. unfold no_system, push_message. simpl.
      apply Forall_app. split; [exact Hp |].
      repeat constructor. simpl. discriminate.
    + apply IH. exact Hp.
Qed.

End Jig.

(** C2, as the code has it.  For every list of messages, the list that
    [jigAnthropicMessages] returns has no two neighbours of the same
    role, starts with a user message (the placeholder with content
    ["..."] when the input does not start with one), and does not end
    with an assistant message.  It has no system message when the input
    has none, and the input has none when it comes from
    [prepareAnthropicPayload], which moves the system messages out of
    the list. *)
Theorem jig_invariants :
  forall (messages : list AnthropicAIMessage),
    let out := AnthropicPath.jigAnthropicMessages messages in
    Runs.alternates (Runs.roles out)
    /\ (exists first rest,
          out = first :: rest /\ am_role first = User
          /\ (head (Runs.roles messages) <> Some User ->
              first = {| am_role := User; am_content := AString (js "...") |}))
    /\ (forall m, last out = Some m -> am_role m <> Assistant)
    /\ (Runs.no_system messages -> Runs.no_system out)
    /\ (forall (w : world) (payload : GenericPayload)
               (prepared : AnthropicAIPayload),
          outcome (AnthropicPath.prepareAnthropicPayload w payload)
          = Ok prepared ->
          messages = ap_messages prepared ->
          Runs.no_system out).
Proof.
  intros messages out. subst out.
  split; [apply jig_alternates |].
  split; [apply jig_first |].
  split; [apply jig_last |].
  split; [apply jig_no_system |].
  intros w payload prepared Hp ->. apply jig_no_system.
  unfold AnthropicPath.prepareAnthropicPayload in Hp.
  eapply prepare_messages_no_system; [| exact Hp]. constructor.
Qed.

Lemma jig_invariants_witness :
  let messages :=
    [{| am_role := Assistant; am_content := AString (js "hi") |}] in
  AnthropicPath.jigAnthropicMessages messages
  = [{| am_role := User; am_content := AString (js "...") |};
     {| am_role := Assistant; am_content := ABlocks [AText (js "hi")] |};
     {| am_role := User; am_content := AString (js "...") |}]
  /\ Runs.no_system (AnthropicPath.jigAnthropicMessages messages)
  /\ exists rest,
       AnthropicPath.jigAnthropicMessages messages
       = {| am_role := User; am_content := AString (js "...") |} :: rest.
Proof.
  intros messages. split; [reflexivity |].
  destruct (jig_invariants messages) as (_ & Hfirst & _ & Hsys & _).
  split.
  - apply Hsys. repeat constructor. discriminate.
  - destruct Hfirst as (first & rest & E & _ & Hph).
    exists rest. rewrite E. f_equal. apply Hph. discriminate.
Defined.

(** C2, as it is stated, fails: [jigAnthropicMessages] keeps a system
    message it is given. *)
Lemma jig_keeps_system_message :
  AnthropicPath.jigAnthropicMessages
    [{| am_role := System; am_content := AString (js "Be brief.") |};
     {| am_role := User; am_content := AString (js "Tell me a joke.") |}]
  = [{| am_role := User; am_content := AString (js "...") |};
     {| am_role := System; am_content := ABlocks [AText (js "Be brief.")] |};
     {| am_role := User;
        am_content := ABlocks [AText (js "Tell me a joke.")] |}]
  /\ ~ Runs.no_system
         (AnthropicPath.jigAnthropicMessages
            [{| am_role := System; am_content := AString (js "Be brief.") |};
             {| am_role := User;
                am_content := AString (js "Tell me a joke.") |}]).
Proof.
  split; [reflexivity |].
  intros H. inversion H as [| ? ? _ H']; subst.
  inversion H' as [| ? ? Hs _]; subst. apply Hs. reflexivity.
Qed.

(** ** How many attempts a call makes *)

Section Counting.

Variable t : event -> bool.

Lemma count_app (l1 l2 : list event) :
  count_events t (l1 ++ l2) = (count_events t l1 + count_events t l2)%nat.
Proof. unfold count_events. rewrite List.filter_app, length_app. reflexivity. Qed.

Lemma count_bind {A B} (m : M A) (k : A -> M B) :
  count_events t (events (bind m k)) =
  (count_events t (events m)
   + match outcome m with
     | Ok a => count_events t (events (k a))
     | Throw _ => 0
     end)%nat.
Proof.
  destruct m as [l [a | e]]; simpl.
  - destruct (k a) as [l' r]. simpl. apply count_app.
  - lia.
Qed.

Lemma count_cons (ev : event) (l : list event) :
  count_events t (ev :: l)
  = ((if t ev then 1 else 0) + count_events t l)%nat.
Proof. unfold count_events. simpl. destruct (t ev); reflexivity. Qed.

Lemma silent_bind {A B} (m : M A) (k : A -> M B) :
  silent t m -> (forall a, silent t (k a)) -> silent t (bind m k).
Proof.
  unfold silent. intros Hm Hk. rewrite count_bind, Hm.
  destruct (outcome m); [apply Hk | reflexivity].
Qed.

Lemma silent_catch {A} (m : M A) (h : js_error -> M A) :
  silent t m -> (forall e, silent t (h e)) -> silent t (catch m h).
Proof.
  unfold silent. intros Hm Hh. destruct m as [l [a | e]]; simpl in *;
    [exact Hm |].
  specialize (Hh e). destruct (h e) as [l' r]. simpl in *.
  rewrite count_app. lia.
Qed.

Lemma silent_ret {A} (a : A) : silent t (ret a).
Proof. reflexivity. Qed.

Lemma silent_throw {A} (e : js_error) : silent t (@throw A e).
Proof. reflexivity. Qed.

Lemma silent_lift {A} (r : result A) : silent t (lift r).
Proof. reflexivity. Qed.

Lemma silent_emit (ev : event) : t ev = false -> silent t (emit ev).
Proof. unfold silent, count_events. simpl. intros ->. reflexivity. Qed.

End Counting.

Ltac silence :=
  repeat first
    [ assumption
    | apply silent_ret
    | apply silent_throw
    | apply silent_lift
    | apply silent_emit; reflexivity
    | apply silent_bind; [| intros ?]
    | apply silent_catch; [| intros ?]
    | match goal with
      | |- silent _ (if ?b then _ else _) => destruct b
      | |- silent _ (match ?x with _ => _ end) => destruct x
      | |- silent _ (let '(_, _) := ?x in _) => destruct x
      end ].

Section StreamSilence.

Import Stream.

(** The test says nothing of what the read loop prints. *)
Variable t : event -> bool.
Hypothesis t_stream :
  forall ev,
    match ev with
    | LogArgsParseError _ | LogNoContentOrCall _ _ _
    | LogEndedViaDoneFlag _ _ | LogExplicitDone _
    | LogStreamParsingError _ | LogOpenAIStreamError _
    | LogNoChoices _ => t ev = false
    | _ => True
    end.

Lemma silent_stream_emit (ev : event) :
  match ev with
  | LogArgsParseError _ | LogNoContentOrCall _ _ _
  | LogEndedViaDoneFlag _ _ | LogExplicitDone _
  | LogStreamParsingError _ | LogOpenAIStreamError _
  | LogNoChoices _ => True
  | _ => False
  end -> silent t (emit ev).
Proof.
  intros H. apply silent_emit. pose proof (t_stream ev) as Ht.
  destruct ev; try contradiction; exact Ht.
Qed.

Ltac stream_silence :=
  repeat first
    [ apply silent_stream_emit; exact I
    | progress silence ].

Lemma parseStreamedResponse_silent
    (identifier paragraph name args : jsstring)
    (allowed : option (gset jsstring)) :
  silent t (parseStreamedResponse identifier paragraph name args allowed).
Proof. unfold parseStreamedResponse. stream_silence. Qed.

Lemma append_silent (s : jsstring) (v : jsval) : silent t (append s v).
Proof. unfold append. stream_silence. Qed.

Lemma read_silent (v : json) (k : jsstring) : silent t (read v k).
Proof. unfold read. stream_silence. Qed.

Lemma process_record_silent (chunkIndex : nat) (st : acc) (json : json) :
  silent t (process_record chunkIndex st json).
Proof.
  unfold process_record.
  apply silent_bind; [apply read_silent | intros choices].
  destruct (lacks_choices choices).
  - apply silent_bind; [apply read_silent | intros error].
    stream_silence.
  - repeat first
      [ apply append_silent
      | apply silent_bind; [| intros ?]
      | apply silent_ret
      | match goal with
        | |- silent _ (if ?b then _ else _) => destruct b
        end ].
Qed.

Lemma process_pieces_silent (identifier : jsstring)
    (functionNames : option (gset jsstring)) (pieces : list jsstring) :
  forall (chunkIndex : nat) (st : acc),
    silent t (process_pieces identifier functionNames chunkIndex st pieces).
Proof.
  induction pieces as [| piece rest IH]; intros chunkIndex st.
  - apply silent_ret.
  - cbn [process_pieces]. destruct (is_empty piece); [apply IH |].
    destruct (includes sentinel piece).
    + apply silent_bind; [apply silent_stream_emit; exact I | intros _].
      apply silent_bind; [| intros m; apply silent_ret].
      apply silent_catch; [apply parseStreamedResponse_silent |].
      intros e. stream_silence.
    + destruct (parse (trim piece)); [| apply IH].
      apply silent_bind; [apply process_record_silent |].
      intros st'. apply IH.
Qed.

Lemma read_loop_silent (identifier : jsstring)
    (functionNames : option (gset jsstring)) (chunks : list (list byte))
    (ending : option js_error) :
  forall (chunkIndex : nat) (st : acc),
    silent t (read_loop identifier functionNames chunks ending chunkIndex st).
Proof.
  induction chunks as [| value rest IH]; intros chunkIndex st.
  - simpl. destruct ending; stream_silence.
  - cbn [read_loop]. destruct (take_chunk st value) as [chunk st1].
    apply silent_bind; [apply process_pieces_silent |].
    intros [st' | m]; [apply IH | apply silent_ret].
Qed.

End StreamSilence.

Section OpenAiBound.

Import OpenAiRetries.

Variable w : world.
Variable identifier : jsstring.

(** Every call of [callOpenAIStream] shows as one attempt. *)
Lemma callOpenAIStream_one_attempt (n : nat) (p : OpenAIPayload)
    (c : option AIConfig) :
  attempts_made (events (Stream.callOpenAIStream w n identifier p c))
  = 1%nat.
Proof.
  unfold attempts_made, Stream.callOpenAIStream. rewrite count_bind.
  assert (forall config,
            count_events is_attempt
              (events (Stream.choose_endpoint p config)) = 1%nat) as H1.
  { intros config. unfold Stream.choose_endpoint.
    destruct (cfg_service config).
    - rewrite count_bind. change (count_events is_attempt
        (events (emit (LogUsingAzure (op_model p))))) with 1%nat.
      simpl outcome. cbv iota.
      assert (forall m : M jsstring, silent is_attempt m ->
                (1 + count_events is_attempt (events m))%nat = 1%nat) as Hs.
      { unfold silent. intros m ->. reflexivity. }
      apply Hs. silence.
    - rewrite count_bind. simpl outcome. cbv iota.
      change (count_events is_attempt
        (events (emit (LogUsingOpenAI (op_model p))))) with 1%nat.
      assert (forall m : M jsstring, silent is_attempt m ->
                (1 + count_events is_attempt (events m))%nat = 1%nat) as Hs.
      { unfold silent. intros m ->. reflexivity. }
      apply Hs. silence.
    - rewrite count_bind. simpl outcome. cbv iota.
      change (count_events is_attempt
        (events (emit (LogUsingOpenAI (op_model p))))) with 1%nat.
      assert (forall m : M jsstring, silent is_attempt m ->
                (1 + count_events is_attempt (events m))%nat = 1%nat) as Hs.
      { unfold silent. intros m ->. reflexivity. }
      apply Hs. silence.
    - rewrite count_bind. simpl outcome. cbv iota.
      change (count_events is_attempt
        (events (emit (LogUsingOpenAI (op_model p))))) with 1%nat.
      assert (forall m : M jsstring, silent is_attempt m ->
                (1 + count_events is_attempt (events m))%nat = 1%nat) as Hs.
      { unfold silent. intros m ->. reflexivity. }
      apply Hs. silence. }
  rewrite H1.
  match goal with
  | |- context [outcome ?m] => destruct (outcome m) as [endpoint | e]
  end; [| reflexivity].
  assert (forall m : M ParsedResponseMessage, silent is_attempt m ->
            (1 + count_events is_attempt (events m))%nat = 1%nat) as Hs.
  { unfold silent. intros m ->. reflexivity. }
  apply Hs. apply silent_bind; [apply silent_emit; reflexivity | intros _].
  destruct (w_fetch w n endpoint _ p); silence.
  apply read_loop_silent. intros ev. destruct ev; auto.
Qed.

Lemma catch_block_no_attempt (i : nat) (error : js_error) (s : retry_state) :
  attempts_made (fst (catch_block i error s)) = 0%nat.
Proof.
  unfold attempts_made, catch_block. destruct s as [p0 c0].
  destruct (error_code error) as [code |];
    repeat match goal with
           | |- context [if ?b then _ else _] => destruct b
           end; reflexivity.
Qed.

(** The loop makes at most [fuel] attempts, and exactly [fuel] when it
    returns nothing. *)
Lemma attempts_count (fuel : nat) :
  forall (i : nat) (s : retry_state),
    let run := attempts w identifier fuel i s in
    (attempts_made (fst run) <= fuel)%nat
    /\ (fst (snd run) = None -> attempts_made (fst run) = fuel).
Proof.
  induction fuel as [| fuel IH]; intros i s; [simpl; auto |].
  cbn [attempts]. cbv zeta.
  pose proof (callOpenAIStream_one_attempt i (fst s) (snd s)) as H1.
  destruct (Stream.callOpenAIStream w i identifier (fst s) (snd s))
    as [l [res | e]]; simpl in H1.
  - simpl. rewrite H1. split; [lia | discriminate].
  - pose proof (catch_block_no_attempt i e s) as H0.
    destruct (catch_block i e s) as [l' s']. simpl in H0.
    destruct (IH (S i) s') as [Hle Heq].
    destruct (attempts w identifier fuel (S i) s') as [l'' r]. simpl in *.
    unfold attempts_made in *. rewrite !count_app, H1, H0.
    split; [lia |]. intros Hn. rewrite (Heq Hn). reflexivity.
Qed.

(** [callOpenAiWithRetries] makes at most [retries + 1] attempts; it
    returns a message only if an attempt returned it; otherwise it has
    made all of them and throws the error that says [retries]. *)
Lemma openai_attempts_bounded (p : OpenAIPayload) (c : option AIConfig)
    (retries : Z) :
  let run := fst (callOpenAiWithRetries w identifier p c retries) in
  (attempts_made (events run) <= Z.to_nat (retries + 1))%nat
  /\ (forall e, outcome run = Throw e ->
        attempts_made (events run) = Z.to_nat (retries + 1)
        /\ e = Error_ (exhausted_message identifier retries)).
Proof.
  unfold callOpenAiWithRetries.
  destruct (attempts_count (Z.to_nat (retries + 1)) 0 (p, c)) as [Hle Heq].
  destruct (attempts w identifier (Z.to_nat (retries + 1)) 0 (p, c))
    as [l [[res |] s]]; simpl in *.
  - unfold attempts_made in *. rewrite count_cons. cbn [is_attempt].
    split; [exact Hle | discriminate].
  - unfold attempts_made in *. rewrite count_cons, count_app.
    change (count_events is_attempt [LogOpenAIExhausted retries]) with 0%nat.
    cbn [is_attempt]. rewrite Nat.add_0_r, Nat.add_0_l.
    split; [exact Hle |]. intros e [= <-]. split; [auto | reflexivity].
Qed.

End OpenAiBound.

Section AnthropicBound.

Import AnthropicPath.

Variable w : world.
Variable identifier : jsstring.

Lemma collect_answers_silent (answers : list json) :
  forall (textResponse : jsstring) (functionCalls : list FunctionCall),
    silent is_request (collect_answers answers textResponse functionCalls).
Proof.
  induction answers as [| answer rest IH]; intros textResponse functionCalls.
  - apply silent_ret.
  - cbn [collect_answers]. unfold read_val, answer_text.
    repeat first
      [ apply IH
      | apply silent_ret
      | apply silent_throw
      | apply silent_emit; reflexivity
      | apply silent_bind; [| intros ?]
      | match goal with
        | |- silent _ (if ?b then _ else _) => destruct b
        | |- silent _ (match ?x with _ => _ end) => destruct x
        end ].
Qed.

Lemma read_answers_silent (data : json) :
  silent is_request (read_answers data).
Proof.
  unfold read_answers, read_val.
  repeat first
    [ apply collect_answers_silent
    | apply silent_ret
    | apply silent_throw
    | apply silent_emit; reflexivity
    | apply silent_bind; [| intros ?]
    | match goal with
      | |- silent _ (if ?b then _ else _) => destruct b
      | |- silent _ (match ?x with _ => _ end) => destruct x
      | |- silent _ (let '(_, _) := ?x in _) => destruct x
      end ].
Qed.

(** Every call of [callAnthropic] sends one request. *)
Lemma callAnthropic_one_request (n : nat) (p : AnthropicAIPayload)
    (c : option AIConfig) :
  requests_made (events (callAnthropic w n identifier p c)) = 1%nat.
Proof.
  unfold requests_made, callAnthropic. rewrite count_bind.
  assert (forall m : M ParsedResponseMessage, silent is_request m ->
            (1 + count_events is_request (events m))%nat = 1%nat) as Hs.
  { unfold silent. intros m ->. reflexivity. }
  destruct (is_bedrock c).
  - rewrite count_bind. simpl outcome. cbv iota. rewrite count_bind.
    destruct (w_bedrock_send w n _) as [body | e]; simpl.
    + destruct (parse (Utf8.decode body)) as [data |]; simpl; [| reflexivity].
      apply Hs. apply read_answers_silent.
    + reflexivity.
  - rewrite count_bind. simpl outcome. cbv iota.
    destruct (w_anthropic_post w n _) as [data | e]; simpl; [| reflexivity].
    apply Hs. apply read_answers_silent.
Qed.

Lemma anthropic_loop_count (c : option AIConfig) (attempts : Z) (fuel : nat) :
  forall (i : nat) (p : AnthropicAIPayload),
    let run := attempts_loop w identifier c attempts fuel i p in
    (requests_made (fst run) <= fuel)%nat
    /\ (fst (snd run) = None -> requests_made (fst run) = fuel).
Proof.
  induction fuel as [| fuel IH]; intros i p; [simpl; auto |].
  cbn [attempts_loop]. cbv zeta.
  set (p1 := if Z.of_nat i =? attempts - 1
             then set_model p ClaudeModel.SONNET else p).
  pose proof (callAnthropic_one_request i p1 c) as H1.
  destruct (callAnthropic w i identifier p1 c) as [l [res | e]];
    simpl in H1.
  - simpl. rewrite H1. split; [lia | discriminate].
  - match goal with
    | |- context [attempts_loop w identifier c attempts fuel (S i) ?p3] =>
        destruct (IH (S i) p3) as [Hle Heq];
        destruct (attempts_loop w identifier c attempts fuel (S i) p3)
          as [l'' r]
    end.
    simpl in *. unfold requests_made in *.
    rewrite count_app, !count_cons, H1. cbn [is_request].
    split; [lia |]. intros Hn. rewrite (Heq Hn). reflexivity.
Qed.

(** [callAnthropicWithRetries] sends at most [attempts] requests; when
    it throws it has sent them all, and the error has no response. *)
Lemma anthropic_attempts_bounded (p : AnthropicAIPayload)
    (c : option AIConfig) (attempts : Z) :
  let run := fst (callAnthropicWithRetries w identifier p c attempts) in
  (requests_made (events run) <= Z.to_nat attempts)%nat
  /\ (forall e, outcome run = Throw e ->
        requests_made (events run) = Z.to_nat attempts
        /\ e = ErrorWithResponse (exhausted_message attempts) None).
Proof.
  unfold callAnthropicWithRetries.
  destruct (anthropic_loop_count c attempts (Z.to_nat attempts) 0 p)
    as [Hle Heq].
  destruct (attempts_loop w identifier c attempts (Z.to_nat attempts) 0 p)
    as [l [[res |] p']]; simpl in *;
    unfold requests_made in *; rewrite count_cons; cbn [is_request].
  - split; [exact Hle | discriminate].
  - split; [exact Hle |]. intros e [= <-]. split; [auto | reflexivity].
Qed.

End AnthropicBound.

Section GroqBound.

Import GroqPath.

Variable w : world.
Variable identifier : jsstring.

(** Every call of [callGroq] sends one request. *)
Lemma callGroq_one_request (n : nat) (p : OpenAIPayload) :
  requests_made (events (callGroq w n identifier p)) = 1%nat.
Proof.
  unfold requests_made, callGroq. rewrite count_bind.
  simpl outcome. cbv iota.
  assert (forall m : M ParsedResponseMessage, silent is_request m ->
            (1 + count_events is_request (events m))%nat = 1%nat) as Hs.
  { unfold silent. intros m ->. reflexivity. }
  apply Hs. unfold read_val, to_string_val.
  repeat first
    [ apply silent_ret
    | apply silent_throw
    | apply silent_lift
    | apply silent_emit; reflexivity
    | apply silent_bind; [| intros ?]
    | match goal with
      | |- silent _ (if ?b then _ else _) => destruct b
      | |- silent _ (match ?x with _ => _ end) => destruct x
      end ].
Qed.

Lemma groq_loop_count (p : OpenAIPayload) (fuel : nat) :
  forall (i : nat),
    let run := attempts_loop w identifier p fuel i in
    (requests_made (fst run) <= fuel)%nat
    /\ (snd run = None -> requests_made (fst run) = fuel).
Proof.
  induction fuel as [| fuel IH]; intros i; [simpl; auto |].
  cbn [attempts_loop]. cbv zeta.
  pose proof (callGroq_one_request i p) as H1.
  destruct (callGroq w i identifier p) as [l [res | e]]; simpl in H1.
  - simpl. rewrite H1. split; [lia | discriminate].
  - destruct (IH (S i)) as [Hle Heq].
    destruct (attempts_loop w identifier p fuel (S i)) as [l'' r].
    simpl in *. unfold requests_made in *.
    rewrite count_app, !count_cons, H1. cbn [is_request].
    split; [lia |]. intros Hn. rewrite (Heq Hn). reflexivity.
Qed.

(** [callGroqWithRetries] sends at most [retries] requests; when it
    throws it has sent them all, and the error has no response. *)
Lemma groq_attempts_bounded (p : OpenAIPayload) (retries : Z) :
  let run := callGroqWithRetries w identifier p retries in
  (requests_made (events run) <= Z.to_nat retries)%nat
  /\ (forall e, outcome run = Throw e ->
        requests_made (events run) = Z.to_nat retries
        /\ e = ErrorWithResponse (exhausted_message retries) None).
Proof.
  unfold callGroqWithRetries.
  destruct (groq_loop_count p (Z.to_nat retries) 0) as [Hle Heq].
  destruct (attempts_loop w identifier p (Z.to_nat retries) 0)
    as [l [res |]]; simpl in *;
    unfold requests_made in *; rewrite count_cons; cbn [is_request].
  - split; [exact Hle | discriminate].
  - split; [exact Hle |]. intros e [= <-]. split; [auto | reflexivity].
Qed.

End GroqBound.

(** ** The JavaScript values on known cases *)

(** [String(x)] for the numbers written [1], [0.1], [0.8], [1.5],
    [123.45], [1e21], [100000000000000000000], [0.000001], [1e-7],
    [5e-324], [2e-324], [1.7976931348623157e308], [1.8e308],
    [9007199254740993], [0.30000000000000004] and
    [99999999999999999999999]. *)
Example number_to_string_cases :
  map (fun '(m, e) => JsNumber.to_string (of_decimal false m e))
      [(1, 0); (1, -1); (8, -1); (15, -1); (12345, -2); (1, 21);
       (1, 20); (1, -6); (1, -7); (5, -324); (2, -324);
       (17976931348623157, 292); (18, 307); (9007199254740993, 0);
       (30000000000000004, -17); (99999999999999999999999, 0)]
  = map js
      ["1"; "0.1"; "0.8"; "1.5"; "123.45"; "1e+21";
       "100000000000000000000"; "0.000001"; "1e-7"; "5e-324"; "0";
       "1.7976931348623157e+308"; "Infinity"; "9007199254740992";
       "0.30000000000000004"; "1e+23"]%string.
Proof. vm_compute. reflexivity. Qed.

Example json_parse_cases :
  parse (jq "{'a': [1, 2.5, true, null, 'xA\n'], 'b': {}, 'a': 'z'}")
  = Some (JObj [(js "a", JArr [JNum (NFin false 1 0); JNum (NFin false 5 (-1));
                               JBool true; JNull;
                               JStr [120; 65; 10]%N]);
                (js "b", JObj []);
                (js "a", JStr (js "z"))])
  /\ option_map (fun j => get_prop j (js "a")) (parse (jq "{'a': 1, 'a': 'z'}"))
     = Some (Some (JStr (js "z")))
  /\ map parse [jq ""; jq "01"; jq "[1,]"; jq "{'a' 1}"; jq "truefalse";
                jq "1."; jq "-"; jq "{'a':1"; jq "'abc"; jq "[1 2]";
                js "undefined"]
     = repeat None 11
  /\ map parse [jq " [] "; jq "-0"; jq "1e2"; jq "false"]
     = [Some (JArr []); Some (JNum (NZero true));
        Some (JNum (NFin false 25 2)); Some (JBool false)].
Proof. repeat split; vm_compute; reflexivity. Qed.

Example to_string_cases :
  map (fun s => option_map to_string (parse (jq s)))
      ["[1,[2,null,'a'],{},true]"; "{'toString':1}"; "'text'"; "12.50"]%string
  = [Some (Some (js "1,2,,a,[object Object],true")); Some None;
     Some (Some (js "text")); Some (Some (js "12.5"))].
Proof. vm_compute. reflexivity. Qed.

Example split_data_cases :
  split_data (js "data: a" ++ newline ++ js "data: b" ++ newline
              ++ js "xdata: c")
  = [[]; js "a" ++ newline; js "b" ++ newline ++ js "xdata: c"]
  /\ split_data [] = [[]]
  /\ split_data (js "data: ") = [[]; []]
  /\ split_data (js "no marker") = [js "no marker"].
Proof. repeat split; vm_compute; reflexivity. Qed.

Example decode_cases :
  Utf8.decode [x63; xc3; xa9] = [0x63; 0xE9]%N
  /\ Utf8.decode [x63; xc3] = [0x63; 0xFFFD]%N
  /\ Utf8.decode [xa9; x63] = [0xFFFD; 0x63]%N
  /\ Utf8.decode [xf0; x9f; x98; x80] = [0xD83D; 0xDE00]%N
  /\ Utf8.decode [xef; xbb; xbf; x41] = [0x41]%N
  /\ Utf8.decode [xed; xa0; x80] = [0xFFFD; 0xFFFD; 0xFFFD]%N.
Proof. repeat split; vm_compute; reflexivity. Qed.

(** The first scenario of the specification. *)
Example hello_scenario :
  Samples.run Samples.hello_stream
  = ([LogExplicitDone 3], Ok (Samples.text_message (js "Hello"))).
Proof. vm_compute. reflexivity. Qed.

(** The same records, cut at other places, one of them inside the
    marker and one inside a record. *)
Example hello_scenario_cut_elsewhere :
  outcome (Samples.run
    [Utf8.bytes ("data: {'choices':[{'delta':{'content':'Hel'}}]}"
                 ++ Samples.nl ++ "data: {'choi");
     Utf8.bytes ("ces':[{'delta':{'content':'lo'}}]}" ++ Samples.nl ++ "da");
     Utf8.bytes ("ta: [DONE]" ++ Samples.nl)])
  = Ok (Samples.text_message (js "Hello")).
Proof. vm_compute. reflexivity. Qed.

(** A streamed function call. *)
Example function_call_scenario :
  outcome (Samples.run
    [Utf8.bytes ("data: {'choices':[{'delta':{'tool_calls':[{'index':0,'function':{'name':'get_game_score','arguments':'{\'team'}}]}}]}"
                 ++ Samples.nl);
     Utf8.bytes ("data: {'choices':[{'delta':{'tool_calls':[{'index':0,'function':{'arguments':'_name\':\'Lakers\'}'}}]}}]}"
                 ++ Samples.nl);
     Utf8.bytes ("data: [DONE]" ++ Samples.nl)])
  = Ok {| prm_role := Assistant; prm_content := Some JNull;
          prm_function_call :=
            CallOf {| fc_name := Some (JStr (js "get_game_score"));
                      fc_arguments :=
                        Some (JObj [(js "team_name",
                                     JStr (js "Lakers"))]) |} |}.
Proof. vm_compute. reflexivity. Qed.

(** With the default bounds: at most six attempts on the OpenAI path,
    at most five requests on the Anthropic path and on the Groq path. *)
Lemma default_bounds (w : world) (identifier : jsstring) :
  (forall p c,
      (OpenAiRetries.attempts_made
         (events (fst (OpenAiRetries.callOpenAiWithRetries w identifier p c
                         OpenAiRetries.default_retries))) <= 6)%nat)
  /\ (forall p c,
        (requests_made
           (events (fst (AnthropicPath.callAnthropicWithRetries w identifier
                           p c AnthropicPath.default_attempts))) <= 5)%nat)
  /\ (forall p,
        (requests_made
           (events (GroqPath.callGroqWithRetries w identifier p
                      GroqPath.default_retries)) <= 5)%nat).
Proof.
  split; [| split].
  - intros p c.
    apply (openai_attempts_bounded w identifier p c
             OpenAiRetries.default_retries).
  - intros p c.
    apply (anthropic_attempts_bounded w identifier p c
             AnthropicPath.default_attempts).
  - intros p.
    apply (groq_attempts_bounded w identifier p GroqPath.default_retries).
Qed.

(** The bytes of the first scenario, all of them of one byte per
    character, give the same message wherever they are cut in two. *)
Example hello_scenario_cut_anywhere :
  forallb (fun i => Samples.returns_text (js "Hello")
                      (Samples.run (Samples.cut i Samples.hello_bytes)))
          (seq 0 (S (length Samples.hello_bytes)))
  = true.
Proof. vm_compute. reflexivity. Qed.

(** * Further properties *)

(** ** The head of [callOpenAIStream] *)

Section StreamHead.

Import Stream.

Variable w : world.
Variable n : nat.
Variable identifier : jsstring.

Lemma silent_requests {A} (m : M A) :
  silent is_request m -> Runs.requests (events m) = [].
Proof.
  unfold silent, count_events, Runs.requests. intros H.
  destruct (List.filter is_request (events m)); [reflexivity | discriminate].
Qed.

Lemma requests_bind {A B} (m : M A) (k : A -> M B) :
  Runs.requests (events (bind m k)) =
  Runs.requests (events m)
  ++ match outcome m with
     | Ok a => Runs.requests (events (k a))
     | Throw _ => []
     end.
Proof.
  unfold Runs.requests.
  destruct m as [l [a | e]]; simpl.
  - destruct (k a) as [l' r]. simpl. apply List.filter_app.
  - rewrite app_nil_r. reflexivity.
Qed.

Lemma read_loop_requests (functionNames : option (gset jsstring))
    (chunks : list (list byte)) (ending : option js_error)
    (chunkIndex : nat) (st : acc) :
  Runs.requests (events (read_loop identifier functionNames chunks ending
                           chunkIndex st)) = [].
Proof.
  apply silent_requests. apply read_loop_silent.
  intros []; try exact I; reflexivity.
Qed.

Lemma after_fetch_requests (functionNames : option (gset jsstring))
    (f : fetch_outcome) :
  Runs.requests
    (events (match f with
             | FetchThrows e => throw e
             | FetchNoBody => throw (Error_ (js "Stream error: no response body"))
             | FetchBody chunks ending =>
                 read_loop identifier functionNames chunks ending 0 acc_init
             end)) = [].
Proof.
  destruct f; try reflexivity. apply read_loop_requests.
Qed.

(** X1.  With the service azure, [callOpenAIStream] sends nothing and
    throws when the configuration lacks the map of the deployments, when
    the map has no entry for the model, and when the entry has no
    endpoint. *)
Theorem azure_misconfiguration_sends_nothing (p : OpenAIPayload) (c : AIConfig) :
  cfg_service c = Azure ->
  let run := callOpenAIStream w n identifier p (Some c) in
  (cfg_modelConfigMap c = None ->
   run = ([LogUsingAzure (op_model p)],
          Throw (Error_ (js "OpenAI config modelConfigMap is required when using Azure OpenAI service."))))
  /\ (forall deployments,
        cfg_modelConfigMap c = Some deployments ->
        deployments !! op_model p = None ->
        run = ([LogUsingAzure (op_model p)], Throw TypeError))
  /\ (forall deployments entry,
        cfg_modelConfigMap c = Some deployments ->
        deployments !! op_model p = Some entry ->
        AnthropicPath.nonempty (az_endpoint entry) = None ->
        run = ([LogUsingAzure (op_model p)],
               Throw (Error_ (js "Azure OpenAI endpoint is required in modelConfigMap.")))).
Proof.
  intros Hs run. subst run. unfold callOpenAIStream, choose_endpoint.
  rewrite Hs. repeat split.
  - intros ->. reflexivity.
  - intros d -> ->. reflexivity.
  - intros d entry -> -> He.
    destruct (az_endpoint entry) as [[| x e] |]; try discriminate;
      reflexivity.
Qed.

(** X2.  A call of [callOpenAIStream] that gets as far as the request
    sends one request and no more, whatever the stream then holds: to
    api.openai.com unless the service is azure, and to the deployment of
    the model when it is. *)
Theorem one_request_to_the_configured_endpoint (p : OpenAIPayload)
    (c : option AIConfig) :
  let run := callOpenAIStream w n identifier p c in
  (OpenAiRetries.is_azure c = false ->
   Runs.requests (events run)
   = [Request (js "https://api.openai.com/v1/chat/completions")])
  /\ (forall cfg deployments entry e,
        c = Some cfg -> cfg_service cfg = Azure ->
        cfg_modelConfigMap cfg = Some deployments ->
        deployments !! op_model p = Some entry ->
        az_endpoint entry = Some e -> e <> [] ->
        Runs.requests (events run)
        = [Request (e ++ js "/openai/deployments/" ++ az_deployment entry
                    ++ js "/chat/completions?api-version="
                    ++ az_apiVersion entry)]).
Proof.
  intros run. subst run. unfold callOpenAIStream. split.
  - intros Haz.
    set (config := match c with Some c0 => c0 | None => default_config w end).
    assert (cfg_service config <> Azure) as Hs.
    { subst config. destruct c as [c0 |]; simpl.
      - unfold OpenAiRetries.is_azure in Haz. simpl in Haz.
        destruct (cfg_service c0); congruence.
      - discriminate. }
    rewrite requests_bind.
    assert (exists l, choose_endpoint p config = (l, Ok openai_endpoint)
                      /\ Runs.requests l = []) as (l & -> & Hl).
    { unfold choose_endpoint.
      destruct (cfg_service config); [congruence | | |].
      all: destruct (cfg_orgId config) as [[| x o] |].
      all: eexists; split; reflexivity. }
    cbn [events outcome fst snd]. rewrite Hl, requests_bind.
    cbn [events outcome emit fst snd app].
    rewrite after_fetch_requests. reflexivity.
  - intros cfg d entry e -> Hs Hm Hd He Hne.
    assert (choose_endpoint p cfg
            = ([LogUsingAzure (op_model p);
                LogUsingEndpoint (azure_endpoint entry e)],
               Ok (azure_endpoint entry e))) as Hc.
    { unfold choose_endpoint. rewrite Hs, Hm, Hd, He.
      destruct e; [congruence | reflexivity]. }
    rewrite requests_bind, Hc. cbn [events outcome fst snd].
    rewrite requests_bind. cbn [events outcome emit fst snd].
    rewrite after_fetch_requests. reflexivity.
Qed.


End StreamHead.

(** ** What the read loop accumulates *)

Section Accumulators.

Import Stream Runs.

Variable identifier : jsstring.
Variable functionNames : option (gset jsstring).

(** The text, the name and the arguments of [st'] start with those of
    [st]. *)
Let extends (st st' : acc) : Prop :=
  paragraph st `prefix_of` paragraph st'
  /\ functionCallName st `prefix_of` functionCallName st'
  /\ functionCallArgs st `prefix_of` functionCallArgs st'.

Lemma extends_refl (st : acc) : extends st st.
Proof. repeat split; reflexivity. Qed.

Lemma extends_trans (a b c : acc) : extends a b -> extends b c -> extends a c.
Proof.
  intros (H1 & H2 & H3) (K1 & K2 & K3).
  repeat split; etrans; eauto.
Qed.

Lemma append_extends (s : jsstring) (v : jsval) (s' : jsstring) :
  outcome (append s v) = Ok s' -> s `prefix_of` s'.
Proof.
  unfold append. destruct v as [j |]; simpl.
  - destruct (to_string j); simpl; [| discriminate].
    intros [= <-]. apply prefix_app_r. reflexivity.
  - intros [= <-]. apply prefix_app_r. reflexivity.
Qed.

Lemma read_outcome (v : json) (k : jsstring) (x : jsval) :
  outcome (read v k) = Ok x -> v <> JNull /\ x = get_prop v k.
Proof.
  destruct v; simpl; try discriminate; intros [= <-]; split;
    try discriminate; reflexivity.
Qed.

Lemma process_record_extends (chunkIndex : nat) (st : acc) (json : json)
    (st' : acc) :
  outcome (process_record chunkIndex st json) = Ok st' ->
  extends st st'
  /\ (truthy (get_opt (tool_call_delta json) (js "index")) = true ->
      functionCallName st' = functionCallName st
      /\ functionCallArgs st' = functionCallArgs st)
  /\ rawStreamedBody st' = rawStreamedBody st
  /\ partialChunk st' = partialChunk st.
Proof.
  unfold process_record. rewrite outcome_bind.
  destruct (outcome (read json (js "choices"))) as [choices |] eqn:Hc;
    [| discriminate].
  apply read_outcome in Hc as [Hnull ->].
  destruct (lacks_choices _) eqn:Hl.
  - rewrite outcome_bind.
    destruct (outcome (read json (js "error"))) as [error |] eqn:He;
      [| discriminate].
    destruct (truthy error).
    + destruct error; simpl; [discriminate |].
      intros [= <-]. split; [apply extends_refl | auto].
    + rewrite outcome_bind.
      destruct (negb _); simpl; intros [= <-];
        (split; [apply extends_refl | auto]).
  - fold (tool_call_delta json).
    rewrite outcome_bind.
    match goal with
    | |- context [outcome ?m] =>
        destruct (outcome m) as [st1 |] eqn:H1; [| discriminate]
    end.
    assert (extends st st1
            /\ (truthy (get_opt (tool_call_delta json) (js "index")) = true ->
                st1 = st)
            /\ paragraph st1 = paragraph st
            /\ rawStreamedBody st1 = rawStreamedBody st
            /\ partialChunk st1 = partialChunk st) as (E1 & I1 & P1 & R1 & C1).
    { revert H1.
      destruct (truthy (tool_call_delta json));
        [| intros [= <-]; split; [apply extends_refl | auto]].
      destruct (truthy (get_opt (tool_call_delta json) (js "index"))); simpl;
        [intros [= <-]; split; [apply extends_refl | auto] |].
      rewrite outcome_bind.
      match goal with
      | |- context [outcome ?m] =>
          destruct (outcome m) as [st0 |] eqn:H0; [| discriminate]
      end.
      assert (functionCallName st `prefix_of` functionCallName st0
              /\ functionCallArgs st0 = functionCallArgs st
              /\ paragraph st0 = paragraph st
              /\ rawStreamedBody st0 = rawStreamedBody st
              /\ partialChunk st0 = partialChunk st) as (N0 & A0 & P0 & R0 & C0).
      { revert H0. match goal with |- outcome (if ?b then _ else _) = _ -> _ => destruct b eqn:Hb end.
        - rewrite outcome_bind.
          destruct (outcome (append _ _)) as [s |] eqn:Hs; [| discriminate].
          apply append_extends in Hs. intros [= <-]. simpl. auto.
        - intros [= <-]. repeat split; reflexivity. }
      match goal with |- outcome (if ?b then _ else _) = _ -> _ => destruct b eqn:Hb end.
      - rewrite outcome_bind.
        destruct (outcome (append _ _)) as [s |] eqn:Hs; [| discriminate].
        apply append_extends in Hs. intros [= <-]. simpl.
        repeat split; simpl; try assumption; try discriminate.
        + rewrite P0. reflexivity.
        + rewrite <- A0. exact Hs.
      - intros [= <-]. repeat split; try assumption; try discriminate.
        + rewrite P0. reflexivity.
        + rewrite A0. reflexivity. }
    match goal with |- outcome (if ?b then _ else _) = _ -> _ => destruct b eqn:Hb end.
    + rewrite outcome_bind.
      destruct (outcome (append _ _)) as [s |] eqn:Hs; [| discriminate].
      apply append_extends in Hs. intros [= <-]. simpl.
      destruct E1 as (E1 & E2 & E3).
      repeat split; simpl; try assumption.
      * rewrite <- P1. exact Hs.
      * rewrite I1 by assumption. reflexivity.
      * rewrite I1 by assumption. reflexivity.
    + intros [= <-]. repeat split; try apply E1; try assumption.
      * rewrite I1 by assumption. reflexivity.
      * rewrite I1 by assumption. reflexivity.
Qed.


Lemma take_chunk_extends (st : acc) (value : list byte) :
  extends st (snd (take_chunk st value)).
Proof.
  unfold take_chunk. destruct (negb _); simpl; repeat split; reflexivity.
Qed.

Lemma process_pieces_extends (pieces : list jsstring) :
  forall (chunkIndex : nat) (st : acc),
    match outcome (process_pieces identifier functionNames chunkIndex st
                     pieces) with
    | Ok (Continue st') => extends st st'
    | Ok (Return m) =>
        exists st', extends st st'
                    /\ outcome (finalized identifier functionNames st') = Ok m
    | Throw _ => True
    end.
Proof.
  induction pieces as [| piece rest IH]; intros chunkIndex st.
  - simpl. apply extends_refl.
  - cbn [process_pieces].
    destruct (is_empty piece); [apply IH |].
    destruct (includes sentinel piece).
    + rewrite !outcome_bind. cbn [emit outcome snd].
      destruct (outcome (catch _ _)) as [m |] eqn:Hm; [| exact I].
      simpl. exists st. split; [apply extends_refl |].
      eapply outcome_catch_ok; [| exact Hm].
      intros e. exists e. reflexivity.
    + destruct (parse (trim piece)) as [json |].
      * rewrite outcome_bind.
        destruct (outcome (process_record chunkIndex st json)) as [st1 |] eqn:H1;
          [| exact I].
        apply process_record_extends in H1 as (E1 & _).
        specialize (IH chunkIndex st1).
        destruct (outcome (process_pieces _ _ _ st1 rest)) as [[st2 | m] |];
          [eapply extends_trans; eauto | | exact I].
        destruct IH as (st2 & E2 & F2). exists st2.
        split; [eapply extends_trans; eauto | exact F2].
      * specialize (IH chunkIndex (set_partial st piece)).
        destruct (outcome (process_pieces _ _ _ (set_partial st piece) rest))
          as [[st2 | m] |]; [exact IH | exact IH | exact I].
Qed.

Lemma state_after_extends (chunks : list (list byte)) :
  forall (chunkIndex : nat) (st st' : acc),
    state_after identifier functionNames chunks chunkIndex st = Some st' ->
    extends st st'.
Proof.
  induction chunks as [| value rest IH]; intros chunkIndex st st'.
  - intros [= <-]. apply extends_refl.
  - rewrite state_after_cons.
    pose proof (process_pieces_extends (pieces_of st value) chunkIndex
                  (snd (take_chunk st value))) as Hp.
    destruct (outcome (process_pieces _ _ _ _ _)) as [[st1 | m] |];
      try discriminate.
    intros H. apply IH in H.
    eapply extends_trans; [apply take_chunk_extends |].
    eapply extends_trans; eauto.
Qed.

Lemma read_loop_extends (chunks : list (list byte)) :
  forall (ending : option js_error) (chunkIndex : nat) (st : acc)
         (m : ParsedResponseMessage),
    outcome (read_loop identifier functionNames chunks ending chunkIndex st)
    = Ok m ->
    exists st', extends st st'
                /\ outcome (finalized identifier functionNames st') = Ok m.
Proof.
  induction chunks as [| value rest IH]; intros ending chunkIndex st m.
  - simpl. destruct ending; discriminate.
  - rewrite read_loop_cons, outcome_bind.
    pose proof (process_pieces_extends (pieces_of st value) chunkIndex
                  (snd (take_chunk st value))) as Hp.
    destruct (outcome (process_pieces _ _ _ _ _)) as [[st1 | m1] |];
      try discriminate.
    + intros H. apply IH in H as (st' & E & F). exists st'.
      split; [| exact F].
      eapply extends_trans; [apply take_chunk_extends |].
      eapply extends_trans; eauto.
    + intros [= <-]. destruct Hp as (st' & E & F). exists st'.
      split; [| exact F].
      eapply extends_trans; [apply take_chunk_extends | exact E].
Qed.

End Accumulators.

(** X3.  Nothing that the read loop has accumulated is ever dropped or
    rewritten by what comes later: after any further reads, the text, the
    function name and the arguments start with what they were; and a
    message that the call returns has a text that starts with the text
    accumulated at any earlier point. *)
Theorem accumulated_text_is_never_dropped :
  forall (identifier : jsstring) (functionNames : option (gset jsstring))
         (chunks : list (list byte)) (ending : option js_error)
         (chunkIndex : nat) (st : Stream.acc),
    (forall st',
        Runs.state_after identifier functionNames chunks chunkIndex st
        = Some st' ->
        Stream.paragraph st `prefix_of` Stream.paragraph st'
        /\ Stream.functionCallName st `prefix_of` Stream.functionCallName st'
        /\ Stream.functionCallArgs st `prefix_of` Stream.functionCallArgs st')
    /\ (forall m,
          outcome (Stream.read_loop identifier functionNames chunks ending
                     chunkIndex st) = Ok m ->
          Stream.paragraph st <> [] ->
          exists text, prm_content m = Some (JStr text)
                       /\ Stream.paragraph st `prefix_of` text).
Proof.
  intros identifier functionNames chunks ending chunkIndex st. split.
  - intros st' H. exact (state_after_extends _ _ _ _ _ _ H).
  - intros m H Hne.
    apply read_loop_extends in H as (st' & (E & _ & _) & F).
    unfold Runs.finalized in F.
    destruct (parse_response_shape _ _ _ _ _ _ F) as (_ & Hc & _).
    exists (Stream.paragraph st'). split; [| exact E].
    rewrite Hc. destruct (Stream.paragraph st') eqn:Hp; [| reflexivity].
    apply prefix_nil_inv in E. congruence.
Qed.

Lemma accumulated_text_is_never_dropped_witness :
  exists text,
    prm_content (Samples.text_message (js "Hello")) = Some (JStr text)
    /\ js "Hel" `prefix_of` text.
Proof.
  apply (proj2 (accumulated_text_is_never_dropped (js "id") None
                  (drop 1 Samples.hello_stream) None 1
                  (Stream.set_paragraph Stream.acc_init (js "Hel")))).
  - vm_compute. reflexivity.
  - discriminate.
Defined.

(** X4.  A tool call fragment whose index is not 0 is left out: the
    record changes neither the accumulated function name nor the
    accumulated arguments. *)
Theorem only_the_first_tool_call_accumulates :
  forall (chunkIndex : nat) (st st' : Stream.acc) (record : json),
    outcome (Stream.process_record chunkIndex st record) = Ok st' ->
    truthy (get_opt (Runs.tool_call_delta record) (js "index")) = true ->
    Stream.functionCallName st' = Stream.functionCallName st
    /\ Stream.functionCallArgs st' = Stream.functionCallArgs st.
Proof.
  intros chunkIndex st st' record H Hi.
  apply process_record_extends in H as (_ & H & _). exact (H Hi).
Qed.

Lemma only_the_first_tool_call_accumulates_witness :
  exists st',
    outcome (Stream.process_record 1
               (Stream.set_name Stream.acc_init (js "first"))
               Samples.second_tool_call) = Ok st'
    /\ Stream.functionCallName st' = js "first"
    /\ Stream.functionCallArgs st' = [].
Proof.
  eexists. split; [vm_compute; reflexivity |].
  apply (only_the_first_tool_call_accumulates 1
           (Stream.set_name Stream.acc_init (js "first")) _
           Samples.second_tool_call);
    vm_compute; reflexivity.
Defined.

(** ** The preparation of the payloads *)

Section Preparation.

Import Runs.

Variable w : world.

Let system_of (s : option jsstring) (messages : list GenericMessage)
  : option jsstring :=
  fold_left (fun s m => match gm_role m with
                        | System => Some (gm_content m)
                        | _ => s
                        end) messages s.


Lemma anthropic_file_blocks_are_images (files : list File)
    (blocks : list AnthropicContentBlock) :
  outcome (AnthropicPath.file_blocks w files) = Ok blocks ->
  Forall (fun b => exists t d, b = AImage t d) blocks.
Proof.
  revert blocks. induction files as [| file rest IH]; intros blocks.
  - intros [= <-]. constructor.
  - cbn [AnthropicPath.file_blocks]. rewrite outcome_bind.
    match goal with
    | |- context [outcome ?m] =>
        destruct (outcome m) as [here |] eqn:Hh; [| discriminate]
    end.
    assert (Forall (fun b => exists t d, b = AImage t d) here) as Hhere.
    { revert Hh. destruct (negb (AnthropicPath.is_image file)).
      - rewrite outcome_bind. simpl. intros [= <-]. constructor.
      - destruct (AnthropicPath.nonempty (f_url file)) as [url |].
        + rewrite outcome_bind.
          destruct (outcome (AnthropicPath.getNormalizedBase64PNG _ _ _));
            [| discriminate].
          intros [= <-]. repeat constructor. eauto.
        + destruct (AnthropicPath.nonempty (f_data file)) as [data |].
          * destruct (negb _); [discriminate |].
            intros [= <-]. repeat constructor. eauto.
          * intros [= <-]. constructor. }
    rewrite outcome_bind.
    destruct (outcome (AnthropicPath.file_blocks w rest)) as [more |];
      [| discriminate].
    intros [= <-]. apply Forall_app. split; [exact Hhere | apply IH; reflexivity].
Qed.

Lemma anthropic_prepare_messages_shape (messages : list GenericMessage) :
  forall (prepared result : AnthropicAIPayload),
    outcome (AnthropicPath.prepare_messages w messages prepared) = Ok result ->
    ap_system result = system_of (ap_system prepared) messages
    /\ (exists added,
          ap_messages result = ap_messages prepared ++ added
          /\ Forall2 on_anthropic (conversation messages) added)
    /\ ap_model result = ap_model prepared
    /\ ap_functions result = ap_functions prepared
    /\ ap_temperature result = ap_temperature prepared.
Proof.
  induction messages as [| message rest IH]; intros prepared result.
  - intros [= <-]. repeat split. exists []. rewrite app_nil_r.
    split; [reflexivity | constructor].
  - cbn [AnthropicPath.prepare_messages].
    assert (forall images,
              outcome (AnthropicPath.file_blocks w
                         (default [] (gm_files message))) = Ok images ->
              gm_role message <> System ->
              outcome
                (AnthropicPath.prepare_messages w rest
                   (AnthropicPath.push_message prepared
                      {| am_role := gm_role message;
                         am_content :=
                           ABlocks ((if is_empty (gm_content message) then []
                                     else [AText (gm_content message)])
                                    ++ images) |})) = Ok result ->
              ap_system result = system_of (ap_system prepared) (message :: rest)
              /\ (exists added,
                    ap_messages result = ap_messages prepared ++ added
                    /\ Forall2 on_anthropic
                         (conversation (message :: rest)) added)
              /\ ap_model result = ap_model prepared
              /\ ap_functions result = ap_functions prepared
              /\ ap_temperature result = ap_temperature prepared) as Hpush.
    { intros images Hi Hr H.
      apply IH in H as (Hs & (added & Ha & Hf) & Hm & Hfn & Ht).
      simpl in *. split; [| split; [| auto]].
      - subst system_of. simpl. destruct (gm_role message); congruence.
      - eexists. rewrite Ha, <- app_assoc. split; [reflexivity |].
        unfold conversation. simpl.
        destruct (gm_role message) eqn:Er; try congruence; simpl;
          (constructor; [| exact Hf]); (split; [simpl; congruence |]);
          exists images; (split; [reflexivity |]);
          eapply anthropic_file_blocks_are_images; eauto. }
    destruct (gm_role message) eqn:Er.
    + rewrite outcome_bind.
      destruct (outcome (AnthropicPath.file_blocks _ _)) as [images |] eqn:Hi;
        [| discriminate].
      apply Hpush; [reflexivity | discriminate].
    + rewrite outcome_bind.
      destruct (outcome (AnthropicPath.file_blocks _ _)) as [images |] eqn:Hi;
        [| discriminate].
      apply Hpush; [reflexivity | discriminate].
    + intros H. apply IH in H as (Hs & (added & Ha & Hf) & Hm & Hfn & Ht).
      simpl in *. repeat split; try assumption.
      * subst system_of. simpl. rewrite Er. exact Hs.
      * exists added. split; [exact Ha |].
        unfold conversation. simpl. rewrite Er. simpl. exact Hf.
Qed.


Lemma google_file_parts_are_images (files : list File)
    (parts : list GoogleAIPart) :
  outcome (GooglePath.file_parts w files) = Ok parts ->
  Forall (fun b => exists t d, b = GInlineData t d) parts.
Proof.
  revert parts. induction files as [| file rest IH]; intros parts.
  - intros [= <-]. constructor.
  - cbn [GooglePath.file_parts]. rewrite outcome_bind.
    match goal with
    | |- context [outcome ?m] =>
        destruct (outcome m) as [here |] eqn:Hh; [| discriminate]
    end.
    assert (Forall (fun b => exists t d, b = GInlineData t d) here) as Hhere.
    { revert Hh. destruct (negb (AnthropicPath.is_image file)).
      - rewrite outcome_bind. simpl. intros [= <-]. constructor.
      - destruct (AnthropicPath.nonempty (f_url file)) as [url |].
        + rewrite outcome_bind.
          destruct (outcome (AnthropicPath.getNormalizedBase64PNG _ _ _));
            [| discriminate].
          intros [= <-]. repeat constructor. eauto.
        + destruct (AnthropicPath.nonempty (f_data file)) as [data |].
          * destruct (negb _); [discriminate |].
            intros [= <-]. repeat constructor. eauto.
          * intros [= <-]. constructor. }
    rewrite outcome_bind.
    destruct (outcome (GooglePath.file_parts w rest)) as [more |];
      [| discriminate].
    intros [= <-]. apply Forall_app. split; [exact Hhere | apply IH; reflexivity].
Qed.

Lemma google_prepare_messages_shape (messages : list GenericMessage) :
  forall (prepared result : GoogleAIPayload),
    outcome (GooglePath.prepare_messages w messages prepared) = Ok result ->
    ggp_systemInstruction result
    = system_of (ggp_systemInstruction prepared) messages
    /\ (exists added,
          ggp_messages result = ggp_messages prepared ++ added
          /\ Forall2 on_google (conversation messages) added)
    /\ ggp_model result = ggp_model prepared
    /\ ggp_tools result = ggp_tools prepared.
Proof.
  induction messages as [| message rest IH]; intros prepared result.
  - intros [= <-]. repeat split. exists []. rewrite app_nil_r.
    split; [reflexivity | constructor].
  - cbn [GooglePath.prepare_messages].
    assert (forall images,
              outcome (GooglePath.file_parts w
                         (default [] (gm_files message))) = Ok images ->
              gm_role message <> System ->
              outcome
                (GooglePath.prepare_messages w rest
                   (GooglePath.push_message prepared
                      {| ggm_role := match gm_role message with
                                     | Assistant => GModel
                                     | _ => GUser
                                     end;
                         ggm_parts :=
                           (if is_empty (gm_content message) then []
                            else [GText (gm_content message)])
                           ++ images |})) = Ok result ->
              ggp_systemInstruction result
              = system_of (ggp_systemInstruction prepared) (message :: rest)
              /\ (exists added,
                    ggp_messages result = ggp_messages prepared ++ added
                    /\ Forall2 on_google
                         (conversation (message :: rest)) added)
              /\ ggp_model result = ggp_model prepared
              /\ ggp_tools result = ggp_tools prepared) as Hpush.
    { intros images Hi Hr H.
      apply IH in H as (Hs & (added & Ha & Hf) & Hm & Hfn).
      simpl in *. split; [| split; [| auto]].
      - subst system_of. simpl. destruct (gm_role message); congruence.
      - eexists. rewrite Ha, <- app_assoc. split; [reflexivity |].
        unfold conversation. simpl.
        destruct (gm_role message) eqn:Er; try congruence; simpl;
          (constructor; [| exact Hf]); (split; [simpl; rewrite ?Er; reflexivity |]);
          exists images; (split; [reflexivity |]);
          eapply google_file_parts_are_images; eauto. }
    destruct (gm_role message) eqn:Er.
    + rewrite outcome_bind.
      destruct (outcome (GooglePath.file_parts _ _)) as [images |] eqn:Hi;
        [| discriminate].
      apply Hpush; [reflexivity | discriminate].
    + rewrite outcome_bind.
      destruct (outcome (GooglePath.file_parts _ _)) as [images |] eqn:Hi;
        [| discriminate].
      apply Hpush; [reflexivity | discriminate].
    + intros H. apply IH in H as (Hs & (added & Ha & Hf) & Hm & Hfn).
      simpl in *. repeat split; try assumption.
      * subst system_of. simpl. rewrite Er. exact Hs.
      * exists added. split; [exact Ha |].
        unfold conversation. simpl. rewrite Er. simpl. exact Hf.
Qed.


Lemma openai_file_blocks_total (files : list File) :
  exists l blocks,
    Dispatch.file_blocks files = (l, Ok blocks)
    /\ Forall (fun b => exists url, b = OImageUrl url) blocks
    /\ Forall (fun ev => ev = LogSkippingFile) l.
Proof.
  induction files as [| file rest (l & blocks & IH & Hb & Hl)].
  - exists [], []. repeat split; constructor.
  - cbn [Dispatch.file_blocks]. rewrite IH.
    destruct (AnthropicPath.is_image file).
    + destruct (AnthropicPath.nonempty (f_url file)) as [url |];
        [| destruct (AnthropicPath.nonempty (f_data file)) as [data |]];
        simpl; eexists _, _; (split; [reflexivity |]); split;
        rewrite ?app_nil_r; try assumption; repeat constructor; eauto.
    + simpl. eexists _, _. split; [reflexivity |]. rewrite ?app_nil_r.
      split; [assumption | constructor; [reflexivity | assumption]].
Qed.

Lemma openai_prepare_messages_total (messages : list GenericMessage) :
  exists l prepared,
    Dispatch.prepare_messages messages = (l, Ok prepared)
    /\ Forall2 on_openai messages prepared
    /\ Forall (fun ev => ev = LogSkippingFile) l.
Proof.
  induction messages as [| message rest (l & prepared & IH & Hf & Hl)].
  - exists [], []. repeat split; constructor.
  - cbn [Dispatch.prepare_messages]. rewrite IH.
    destruct (openai_file_blocks_total (default [] (gm_files message)))
      as (l0 & blocks & -> & Hb & Hl0).
    simpl. eexists _, _. split; [reflexivity |]. split.
    + constructor; [| exact Hf]. split; [reflexivity |].
      exists blocks. split; [reflexivity | exact Hb].
    + rewrite app_nil_r. apply Forall_app. split; assumption.
Qed.

End Preparation.

(** X5.  When [prepareAnthropicPayload] returns, the system prompt of
    the payload is the content of the last system message of the
    request, the earlier ones being dropped; the other messages follow in
    their order, each with its role, its text as the first block when it
    has text, and then image blocks only; the model, the functions and
    the temperature are those of the request. *)
Theorem anthropic_payload_shape :
  forall (w : world) (payload : GenericPayload)
         (prepared : AnthropicAIPayload),
    outcome (AnthropicPath.prepareAnthropicPayload w payload) = Ok prepared ->
    ap_system prepared = Runs.last_system (gp_messages payload)
    /\ Forall2 Runs.on_anthropic (Runs.conversation (gp_messages payload))
               (ap_messages prepared)
    /\ ap_model prepared = gp_model payload
    /\ ap_functions prepared = gp_functions payload
    /\ ap_temperature prepared = gp_temperature payload.
Proof.
  intros w payload prepared H.
  apply anthropic_prepare_messages_shape in H
    as (Hs & (added & Ha & Hf) & Hm & Hfn & Ht).
  simpl in *. subst. auto 10.
Qed.

Lemma anthropic_payload_shape_witness :
  exists prepared,
    outcome (AnthropicPath.prepareAnthropicPayload Samples.offline
               (Samples.two_system_request ClaudeModel.OPUS)) = Ok prepared
    /\ ap_system prepared = Some (js "Be thorough.")
    /\ Runs.roles (ap_messages prepared) = [User].
Proof.
  eexists. split; [vm_compute; reflexivity |].
  split.
  - exact (proj1 (anthropic_payload_shape Samples.offline
                    (Samples.two_system_request ClaudeModel.OPUS) _ eq_refl)).
  - reflexivity.
Defined.

(** X6.  When [prepareGoogleAIPayload] returns, the system instruction
    is the content of the last system message of the request; the other
    messages follow in their order, an assistant message as a model
    message and any other as a user message, each with its text as the
    first part when it has text, and then inline images only. *)
Theorem google_payload_shape :
  forall (w : world) (payload : GenericPayload) (prepared : GoogleAIPayload),
    outcome (GooglePath.prepareGoogleAIPayload w payload) = Ok prepared ->
    ggp_systemInstruction prepared = Runs.last_system (gp_messages payload)
    /\ Forall2 Runs.on_google (Runs.conversation (gp_messages payload))
               (ggp_messages prepared)
    /\ ggp_model prepared = gp_model payload
    /\ ggp_tools prepared = gp_functions payload.
Proof.
  intros w payload prepared H.
  apply google_prepare_messages_shape in H
    as (Hs & (added & Ha & Hf) & Hm & Hfn).
  simpl in *. subst. auto 10.
Qed.

Lemma google_payload_shape_witness :
  exists prepared,
    outcome (GooglePath.prepareGoogleAIPayload Samples.offline
               (Samples.two_system_request GeminiModel.GEMINI_15_PRO))
    = Ok prepared
    /\ ggp_systemInstruction prepared = Some (js "Be thorough.")
    /\ map ggm_role (ggp_messages prepared) = [GUser].
Proof.
  eexists. split; [vm_compute; reflexivity |].
  split.
  - exact (proj1 (google_payload_shape Samples.offline
                    (Samples.two_system_request GeminiModel.GEMINI_15_PRO)
                    _ eq_refl)).
  - reflexivity.
Defined.

(** X7.  [prepareOpenAIPayload] never throws and asks nothing of the
    outside: it keeps every message of the request in its place, system
    messages included, each with its role, its text as the first block
    when it has text, and then image URLs only; all it prints is the
    notice of a skipped file. *)
Theorem openai_payload_never_fails :
  forall (payload : GenericPayload),
    exists l prepared,
      Dispatch.prepareOpenAIPayload payload = (l, Ok prepared)
      /\ Forall2 Runs.on_openai (gp_messages payload) (op_messages prepared)
      /\ Forall (fun ev => ev = LogSkippingFile) l
      /\ op_model prepared = gp_model payload
      /\ op_tools prepared = gp_functions payload
      /\ op_tool_choice prepared
         = option_map GroqPath.choice_of (gp_function_call payload)
      /\ op_temperature prepared = gp_temperature payload.
Proof.
  intros payload. unfold Dispatch.prepareOpenAIPayload.
  destruct (openai_prepare_messages_total (gp_messages payload))
    as (l & prepared & -> & Hf & Hl).
  simpl. eexists _, _. split; [reflexivity |]. simpl.
  rewrite app_nil_r. auto 10.
Qed.

(** X8.  An inline image whose type is not one of png, jpeg, gif and
    webp makes the preparation of an Anthropic or a Google payload throw,
    whatever comes after it; the preparation of an OpenAI payload takes
    it as a data URL. *)
Theorem unsupported_inline_image_is_refused :
  forall (w : world) (file : File) (rest : list File) (data : jsstring),
    AnthropicPath.is_image file = true ->
    AnthropicPath.nonempty (f_url file) = None ->
    AnthropicPath.nonempty (f_data file) = Some data ->
    default [] (f_mimeType file) ∉ AnthropicPath.image_types ->
    outcome (AnthropicPath.file_blocks w (file :: rest))
    = Throw (Error_ (js "Invalid image mimeType. Supported types are: image/png, image/jpeg, image/gif, image/webp"))
    /\ outcome (GooglePath.file_parts w (file :: rest))
       = Throw (Error_ (js "Invalid image mimeType. Supported types are: image/png, image/jpeg, image/gif, image/webp"))
    /\ exists more,
         outcome (Dispatch.file_blocks (file :: rest))
         = Ok (OImageUrl (js "data:" ++ default [] (f_mimeType file)
                          ++ js ";base64," ++ data) :: more).
Proof.
  intros w file rest data Hi Hu Hd Hm.
  cbn [AnthropicPath.file_blocks GooglePath.file_parts Dispatch.file_blocks].
  rewrite Hi, Hu, Hd. cbn [negb].
  rewrite bool_decide_eq_false_2 by exact Hm. cbn [negb].
  split; [reflexivity | split; [reflexivity |]].
  destruct (openai_file_blocks_total rest) as (l & more & -> & _).
  exists more. reflexivity.
Qed.

Lemma unsupported_inline_image_is_refused_witness :
  outcome (AnthropicPath.file_blocks Samples.offline [Samples.bitmap])
  = Throw (Error_ (js "Invalid image mimeType. Supported types are: image/png, image/jpeg, image/gif, image/webp")).
Proof.
  apply (unsupported_inline_image_is_refused Samples.offline Samples.bitmap
           [] (js "Qk0=")); try reflexivity.
  vm_compute. intros H. repeat (inversion H as [| ? ? ? H']; clear H; rename H' into H).
Defined.

(** ** The model enumerations, and what the paths return *)

Section Enumerations.

Import Dispatch.

Lemma claude_model_cases (model : jsstring) :
  model ∈ ClaudeModel.values ->
  model = ClaudeModel.HAIKU \/ model = ClaudeModel.SONNET
  \/ model = ClaudeModel.OPUS.
Proof.
  unfold ClaudeModel.values. rewrite !elem_of_cons, elem_of_nil. tauto.
Qed.

Lemma gpt_model_cases (model : jsstring) :
  model ∈ GPTModel.values ->
  model = GPTModel.GPT35_0613 \/ model = GPTModel.GPT35_0613_16K
  \/ model = GPTModel.GPT35_0125 \/ model = GPTModel.GPT4_1106_PREVIEW
  \/ model = GPTModel.GPT4_0125_PREVIEW \/ model = GPTModel.GPT4_0409
  \/ model = GPTModel.GPT4O.
Proof.
  unfold GPTModel.values. rewrite !elem_of_cons, elem_of_nil. tauto.
Qed.

Lemma gpt_is_not_claude (payload : GenericPayload) :
  gp_model payload ∈ GPTModel.values -> isAnthropicPayload payload = false.
Proof.
  intros H. unfold isAnthropicPayload.
  apply gpt_model_cases in H.
  repeat destruct H as [H | H]; rewrite H; vm_compute; reflexivity.
Qed.

Lemma groq_is_neither (payload : GenericPayload) :
  gp_model payload ∈ GroqModel.values ->
  isAnthropicPayload payload = false /\ isOpenAiPayload payload = false.
Proof.
  unfold GroqModel.values. rewrite list_elem_of_singleton.
  unfold isAnthropicPayload, isOpenAiPayload. intros ->.
  split; vm_compute; reflexivity.
Qed.

Lemma gemini_is_none_of_the_others (payload : GenericPayload) :
  gp_model payload ∈ GeminiModel.values ->
  isAnthropicPayload payload = false /\ isOpenAiPayload payload = false
  /\ isGroqPayload payload = false.
Proof.
  unfold GeminiModel.values. rewrite list_elem_of_singleton.
  unfold isAnthropicPayload, isOpenAiPayload, isGroqPayload. intros ->.
  repeat split; vm_compute; reflexivity.
Qed.

End Enumerations.

(** X9.  No model belongs to two of the four enumerations, so that a
    payload passes at most one of the four tests of [callWithRetries]:
    the order of the tests decides nothing. *)
Theorem dispatch_is_unambiguous :
  forall (payload : GenericPayload),
    (Dispatch.isAnthropicPayload payload = true ->
     Dispatch.isOpenAiPayload payload = false
     /\ Dispatch.isGroqPayload payload = false
     /\ Dispatch.isGoogleAIPayload payload = false)
    /\ (Dispatch.isOpenAiPayload payload = true ->
        Dispatch.isGroqPayload payload = false
        /\ Dispatch.isGoogleAIPayload payload = false)
    /\ (Dispatch.isGroqPayload payload = true ->
        Dispatch.isGoogleAIPayload payload = false).
Proof.
  intros payload.
  unfold Dispatch.isAnthropicPayload, Dispatch.isOpenAiPayload,
    Dispatch.isGroqPayload, Dispatch.isGoogleAIPayload.
  split; [| split]; intros H; apply bool_decide_eq_true in H.
  - apply claude_model_cases in H.
    repeat destruct H as [H | H]; rewrite H; vm_compute; auto.
  - apply gpt_model_cases in H.
    repeat destruct H as [H | H]; rewrite H; vm_compute; auto.
  - apply list_elem_of_singleton in H. rewrite H. vm_compute. reflexivity.
Qed.

Section PreparationSilence.

Variable w : world.

Lemma anthropic_file_blocks_silent (files : list File) :
  silent is_request (AnthropicPath.file_blocks w files).
Proof.
  induction files as [| file rest IH]; cbn [AnthropicPath.file_blocks];
    unfold AnthropicPath.getNormalizedBase64PNG; silence.
Qed.

Lemma anthropic_prepare_messages_silent (messages : list GenericMessage) :
  forall prepared,
    silent is_request (AnthropicPath.prepare_messages w messages prepared).
Proof.
  induction messages as [| message rest IH]; intros prepared;
    cbn [AnthropicPath.prepare_messages].
  - silence.
  - destruct (gm_role message); try apply IH;
      (apply silent_bind; [apply anthropic_file_blocks_silent |]);
      intros; apply IH.
Qed.

Lemma google_file_parts_silent (files : list File) :
  silent is_request (GooglePath.file_parts w files).
Proof.
  induction files as [| file rest IH]; cbn [GooglePath.file_parts];
    unfold AnthropicPath.getNormalizedBase64PNG; silence.
Qed.

Lemma google_prepare_messages_silent (messages : list GenericMessage) :
  forall prepared,
    silent is_request (GooglePath.prepare_messages w messages prepared).
Proof.
  induction messages as [| message rest IH]; intros prepared;
    cbn [GooglePath.prepare_messages].
  - silence.
  - destruct (gm_role message); try apply IH;
      (apply silent_bind; [apply google_file_parts_silent |]);
      intros; apply IH.
Qed.

Lemma openai_prepare_silent (payload : GenericPayload) :
  silent is_request (Dispatch.prepareOpenAIPayload payload).
Proof.
  unfold Dispatch.prepareOpenAIPayload.
  destruct (openai_prepare_messages_total (gp_messages payload))
    as (l & prepared & -> & _ & Hl).
  unfold silent, count_events. simpl. rewrite app_nil_r.
  induction Hl as [| ev l' -> _ IH]; [reflexivity | exact IH].
Qed.

End PreparationSilence.

Section PathsReturnSomething.

Import Runs.

Variable w : world.
Variable identifier : jsstring.

Lemma anthropic_call_shape (n : nat) (p : AnthropicAIPayload)
    (c : option AIConfig) (m : ParsedResponseMessage) :
  outcome (AnthropicPath.callAnthropic w n identifier p c) = Ok m ->
  prm_role m = Assistant
  /\ (exists text, prm_content m = Some (JStr text))
  /\ prm_function_call m <> CallNull
  /\ (prm_function_call m = CallUndefined -> has_text m).
Proof.
  unfold AnthropicPath.callAnthropic. intros H.
  apply outcome_bind_ok in H as (data & _ & H).
  unfold AnthropicPath.read_answers in H.
  apply outcome_bind_ok in H as (answers & _ & H).
  apply outcome_bind_ok in H as (first & _ & H).
  destruct (negb (truthy first)); [rewrite outcome_bind in H; discriminate |].
  apply outcome_bind_ok in H as ([textResponse functionCalls] & _ & H).
  destruct (is_empty textResponse && is_empty functionCalls) eqn:E;
    [rewrite outcome_bind in H; discriminate |].
  injection H as <-. simpl. repeat split.
  - eauto.
  - destruct functionCalls; discriminate.
  - intros Hc. destruct functionCalls; [| discriminate].
    exists textResponse. split; [reflexivity |].
    destruct textResponse; [discriminate | discriminate].
Qed.

Lemma anthropic_loop_result (c : option AIConfig) (attempts : Z)
    (fuel : nat) :
  forall (i : nat) (p : AnthropicAIPayload) (m : ParsedResponseMessage),
    fst (snd (AnthropicPath.attempts_loop w identifier c attempts fuel i p))
    = Some m ->
    exists n p', outcome (AnthropicPath.callAnthropic w n identifier p' c)
                 = Ok m.
Proof.
  induction fuel as [| fuel IH]; intros i p m; [discriminate |].
  cbn [AnthropicPath.attempts_loop].
  match goal with
  | |- context [AnthropicPath.callAnthropic w i identifier ?q c] =>
      destruct (AnthropicPath.callAnthropic w i identifier q c)
        as [l [res | e]] eqn:Hc
  end.
  - simpl. intros [= <-]. eexists _, _. rewrite Hc. reflexivity.
  - match goal with
    | |- context [AnthropicPath.attempts_loop w identifier c attempts fuel
                    (S i) ?q] =>
        specialize (IH (S i) q m);
        destruct (AnthropicPath.attempts_loop w identifier c attempts fuel
                    (S i) q) as [l'' r]
    end.
    simpl. exact IH.
Qed.

End PathsReturnSomething.

(** The tool uses of an answer are collected in their order, the text
    blocks and the blocks of other types being passed over. *)
Lemma is_string_one (v : jsval) (a b : jsstring) :
  is_string v a = true -> is_string v b = true -> a = b.
Proof.
  destruct v as [[] |]; simpl; try discriminate.
  unfold JsString.eqb. intros Ha Hb.
  apply bool_decide_eq_true in Ha, Hb. congruence.
Qed.

Lemma collect_answers_calls (answers : list json) :
  forall (text text' : jsstring) (calls calls' : list FunctionCall),
    outcome (AnthropicPath.collect_answers answers text calls)
    = Ok (text', calls') ->
    calls' = calls ++ Runs.tool_uses answers.
Proof.
  induction answers as [| answer rest IH]; intros text text' calls calls'.
  - simpl. intros [= _ <-]. unfold Runs.tool_uses. simpl.
    rewrite app_nil_r. reflexivity.
  - cbn [AnthropicPath.collect_answers]. intros H.
    apply outcome_bind_ok in H as (type & Ht & H).
    unfold read_val in Ht.
    destruct (nullish (Some answer)) eqn:Hn; [discriminate |].
    injection Ht as <-.
    assert (get_opt (Some answer) (js "type") = get_prop answer (js "type"))
      as E by (destruct answer; try reflexivity; discriminate).
    change (match answer with JNull => None | _ => get_prop answer (js "type") end)
      with (get_opt (Some answer) (js "type")) in H.
    rewrite E in H. unfold Runs.tool_uses. cbn [List.filter].
    destruct (negb (truthy (get_prop answer (js "type"))));
      [rewrite outcome_bind in H; discriminate |].
    destruct (is_string (get_prop answer (js "type")) (js "text")) eqn:Htext.
    + assert (is_string (get_prop answer (js "type")) (js "tool_use") = false)
        as ->.
      { destruct (is_string _ (js "tool_use")) eqn:Hu; [| reflexivity].
        pose proof (is_string_one _ _ _ Htext Hu) as Hx.
        discriminate Hx. }
      destruct (get_prop answer (js "text")) as [[] |]; try discriminate.
      apply outcome_bind_ok in H as (t & _ & H).
      apply IH in H. exact H.
    + destruct (is_string (get_prop answer (js "type")) (js "tool_use")).
      * apply IH in H. rewrite H, <- app_assoc. reflexivity.
      * apply IH in H. exact H.
Qed.

Lemma read_answers_calls (data : json) (m : ParsedResponseMessage) :
  outcome (AnthropicPath.read_answers data) = Ok m ->
  exists answers,
    get_prop data (js "content") = Some (JArr answers)
    /\ prm_function_call m = match Runs.tool_uses answers with
                             | fc :: _ => CallOf fc
                             | [] => CallUndefined
                             end.
Proof.
  unfold AnthropicPath.read_answers. intros H.
  apply outcome_bind_ok in H as (answers & Ha & H).
  unfold read_val in Ha.
  destruct (nullish (Some data)) eqn:Hn; [discriminate |].
  injection Ha as <-.
  assert (get_opt (Some data) (js "content") = get_prop data (js "content"))
    as E by (destruct data; try reflexivity; discriminate).
  change (match data with JNull => None | _ => get_prop data (js "content") end)
    with (get_opt (Some data) (js "content")) in H.
  rewrite E in H.
  apply outcome_bind_ok in H as (first & _ & H).
  destruct (negb (truthy first)); [rewrite outcome_bind in H; discriminate |].
  apply outcome_bind_ok in H as ([textResponse functionCalls] & Hc & H).
  destruct (get_prop data (js "content")) as [answers |];
    [| simpl in Hc; discriminate].
  destruct answers as [| | | | l |]; try (simpl in Hc; discriminate).
  exists l. split; [reflexivity |].
  apply collect_answers_calls in Hc. simpl in Hc. subst functionCalls.
  destruct (is_empty textResponse && is_empty (Runs.tool_uses l));
    [rewrite outcome_bind in H; discriminate |].
  injection H as <-. reflexivity.
Qed.

(** X10.  A message that [callAnthropic] returns has a string as its
    content, never null, and a function call that is never null: with
    the service of Anthropic it is the first of the tool uses of the
    answer of the provider, with its name and its input, and undefined
    when the answer has no tool use; when it is undefined the text is
    not empty. *)
Theorem anthropic_answer_shape :
  forall (w : world) (n : nat) (identifier : jsstring)
         (p : AnthropicAIPayload) (c : option AIConfig)
         (m : ParsedResponseMessage),
    outcome (AnthropicPath.callAnthropic w n identifier p c) = Ok m ->
    prm_role m = Assistant
    /\ (exists text, prm_content m = Some (JStr text))
    /\ prm_function_call m <> CallNull
    /\ (prm_function_call m = CallUndefined -> Runs.has_text m)
    /\ (AnthropicPath.is_bedrock c = false ->
        exists data answers,
          w_anthropic_post w n
            {| ar_service := Anthropic;
               ar_model := ap_model p;
               ar_messages :=
                 AnthropicPath.jigAnthropicMessages (ap_messages p);
               ar_tools := ap_functions p;
               ar_temperature := ap_temperature p;
               ar_system := ap_system p |} = Ok data
          /\ get_prop data (js "content") = Some (JArr answers)
          /\ prm_function_call m = match Runs.tool_uses answers with
                                   | fc :: _ => CallOf fc
                                   | [] => CallUndefined
                                   end).
Proof.
  intros w n identifier p c m H.
  destruct (anthropic_call_shape w identifier n p c m H)
    as (Hr & Hc & Hn & Hu).
  split; [exact Hr |]. split; [exact Hc |]. split; [exact Hn |].
  split; [exact Hu |].
  intros Hb. unfold AnthropicPath.callAnthropic in H. rewrite Hb in H.
  apply outcome_bind_ok in H as (data & Hd & H).
  destruct (read_answers_calls data m H) as (answers & Ha & Hf).
  exists data, answers. split; [| split; assumption].
  rewrite outcome_bind in Hd. cbn [emit outcome snd] in Hd.
  unfold lift in Hd. exact Hd.
Qed.

(** X11.  On the Anthropic path and on the OpenAI path, a message that
    [callWithRetries] returns has a text that is not empty or a function
    call. *)
Theorem claude_and_gpt_answers_are_never_empty :
  forall (w : world) (identifier : jsstring) (payload : GenericPayload)
         (config : option AIConfig) (retries : Z)
         (m : ParsedResponseMessage),
    gp_model payload ∈ ClaudeModel.values
    \/ gp_model payload ∈ GPTModel.values ->
    outcome (fst (Dispatch.callWithRetries w identifier payload config
                    retries)) = Ok m ->
    Runs.has_text m \/ Runs.has_call m.
Proof.
  intros w identifier payload config retries m [Hm | Hm];
    unfold Dispatch.callWithRetries.
  - unfold Dispatch.isAnthropicPayload.
    rewrite bool_decide_eq_true_2 by exact Hm. cbn [fst].
    intros H. apply outcome_bind_ok in H as (_ & _ & H).
    apply outcome_bind_ok in H as (prepared & _ & H).
    unfold AnthropicPath.callAnthropicWithRetries in H.
    destruct (AnthropicPath.attempts_loop _ _ _ _ _ _ _)
      as [l [[res |] p]] eqn:Hl; simpl in H; [| discriminate].
    injection H as ->.
    pose proof (anthropic_loop_result w identifier config retries
                  (Z.to_nat retries) 0 prepared m) as Hr.
    rewrite Hl in Hr. destruct (Hr eq_refl) as (n & p' & Hc).
    apply anthropic_call_shape in Hc as (_ & _ & Hn & Hu).
    destruct (prm_function_call m) as [| | fc] eqn:Hf.
    + congruence.
    + left. apply Hu. reflexivity.
    + right. exists fc. exact Hf.
  - rewrite (gpt_is_not_claude payload Hm).
    unfold Dispatch.isOpenAiPayload.
    rewrite bool_decide_eq_true_2 by exact Hm.
    unfold Dispatch.prepareOpenAIPayload.
    destruct (openai_prepare_messages_total (gp_messages payload))
      as (l & prepared & -> & _).
    cbn [bind ret].
    match goal with
    | |- context [OpenAiRetries.callOpenAiWithRetries w identifier ?p config
                    retries] =>
        set (q := p);
        destruct (OpenAiRetries.callOpenAiWithRetries w identifier q config
                    retries) as [run s] eqn:Hq
    end.
    cbn [fst]. intros H.
    apply outcome_bind_ok in H as (_ & _ & H).
    destruct run as [lr rr]. simpl in H. subst rr.
    unfold OpenAiRetries.callOpenAiWithRetries in Hq.
    destruct (OpenAiRetries.attempts _ _ _ _ _) as [l' [[res |] s']] eqn:Ha;
      [| discriminate].
    injection Hq as _ -> _.
    eapply (openai_attempts_complete w identifier).
    rewrite Ha. reflexivity.
Qed.



Lemma claude_and_gpt_answers_are_never_empty_witness :
  Runs.has_text (Samples.text_message (js "Hello"))
  \/ Runs.has_call (Samples.text_message (js "Hello")).
Proof.
  apply (claude_and_gpt_answers_are_never_empty Samples.greeting (js "id")
           (Samples.request GPTModel.GPT4O) None 5).
  - right. apply (bool_decide_unpack _). vm_compute. exact I.
  - vm_compute. reflexivity.
Defined.

(** ** The requests of [callWithRetries] *)

Section RequestBounds.

Variable w : world.
Variable identifier : jsstring.

Lemma choose_endpoint_silent (p : OpenAIPayload) (config : AIConfig) :
  silent is_request (Stream.choose_endpoint p config).
Proof. unfold Stream.choose_endpoint. silence. Qed.

Lemma callOpenAIStream_requests (n : nat) (p : OpenAIPayload)
    (c : option AIConfig) :
  (requests_made (events (Stream.callOpenAIStream w n identifier p c)) <= 1)%nat.
Proof.
  unfold requests_made, Stream.callOpenAIStream. rewrite count_bind.
  rewrite choose_endpoint_silent.
  destruct (outcome (Stream.choose_endpoint _ _)) as [endpoint |]; [| lia].
  rewrite count_bind. cbn [emit events outcome fst snd].
  change (count_events is_request [Request endpoint]) with 1%nat.
  match goal with
  | |- context [count_events is_request (events ?m)] =>
      assert (silent is_request m) as ->; [| lia]
  end.
  destruct (w_fetch w n endpoint _ p); silence.
  apply read_loop_silent. intros ev. destruct ev; auto.
Qed.

Lemma catch_block_no_request (i : nat) (error : js_error)
    (s : OpenAiRetries.retry_state) :
  requests_made (fst (OpenAiRetries.catch_block i error s)) = 0%nat.
Proof.
  unfold requests_made, OpenAiRetries.catch_block. destruct s as [p0 c0].
  destruct (OpenAiRetries.error_code error) as [code |];
    repeat match goal with
           | |- context [if ?b then _ else _] => destruct b
           end; reflexivity.
Qed.

Lemma attempts_requests (fuel : nat) :
  forall (i : nat) (s : OpenAiRetries.retry_state),
    (requests_made (fst (OpenAiRetries.attempts w identifier fuel i s))
     <= fuel)%nat.
Proof.
  induction fuel as [| fuel IH]; intros i s; [simpl; auto |].
  cbn [OpenAiRetries.attempts].
  pose proof (callOpenAIStream_requests i (fst s) (snd s)) as H1.
  destruct (Stream.callOpenAIStream w i identifier (fst s) (snd s))
    as [l [res | e]]; simpl in H1.
  - simpl. lia.
  - pose proof (catch_block_no_request i e s) as H0.
    destruct (OpenAiRetries.catch_block i e s) as [l' s']. simpl in H0.
    specialize (IH (S i) s').
    destruct (OpenAiRetries.attempts w identifier fuel (S i) s') as [l'' r].
    simpl in *. unfold requests_made in *. rewrite !count_app. lia.
Qed.

Lemma openai_requests_bounded (p : OpenAIPayload) (c : option AIConfig)
    (retries : Z) :
  (requests_made
     (events (fst (OpenAiRetries.callOpenAiWithRetries w identifier p c
                     retries)))
   <= Z.to_nat (retries + 1))%nat.
Proof.
  unfold OpenAiRetries.callOpenAiWithRetries.
  pose proof (attempts_requests (Z.to_nat (retries + 1)) 0 (p, c)) as Hle.
  destruct (OpenAiRetries.attempts w identifier (Z.to_nat (retries + 1)) 0
              (p, c)) as [l [[res |] s]]; simpl in *.
  - unfold requests_made in *. rewrite count_cons. cbn [is_request]. lia.
  - unfold requests_made in *. rewrite count_cons, count_app.
    change (count_events is_request [LogOpenAIExhausted retries]) with 0%nat.
    cbn [is_request]. lia.
Qed.

Lemma callGoogleAI_requests (payload : GoogleAIPayload) :
  (requests_made (events (GooglePath.callGoogleAI w identifier payload))
   <= 1)%nat.
Proof.
  unfold requests_made, GooglePath.callGoogleAI.
  destruct (ggp_messages payload); [unfold count_events; simpl; lia |].
  rewrite !count_bind. cbn [emit events outcome fst snd].
  change (count_events is_request [LogCallingGoogle]) with 0%nat.
  change (count_events is_request [Request (ggp_model payload)]) with 1%nat.
  destruct (w_google_send w payload); unfold count_events; simpl; lia.
Qed.

Lemma prepareAnthropicPayload_silent (payload : GenericPayload) :
  silent is_request (AnthropicPath.prepareAnthropicPayload w payload).
Proof. apply anthropic_prepare_messages_silent. Qed.

Lemma prepareGoogleAIPayload_silent (payload : GenericPayload) :
  silent is_request (GooglePath.prepareGoogleAIPayload w payload).
Proof. apply google_prepare_messages_silent. Qed.

Lemma claude_path_requests (payload : GenericPayload)
    (config : option AIConfig) (retries : Z) :
  gp_model payload ∈ ClaudeModel.values ->
  (requests_made
     (events (fst (Dispatch.callWithRetries w identifier payload config
                     retries)))
   <= Z.to_nat retries)%nat.
Proof.
  intros Hm. unfold Dispatch.callWithRetries, Dispatch.isAnthropicPayload.
  rewrite bool_decide_eq_true_2 by exact Hm. cbn [fst].
  unfold requests_made. rewrite !count_bind.
  cbn [emit events outcome fst snd].
  change (count_events is_request [LogDelegating (js "Anthropic")])
    with 0%nat.
  rewrite prepareAnthropicPayload_silent.
  destruct (outcome (AnthropicPath.prepareAnthropicPayload w payload))
    as [prepared |]; [| simpl; lia].
  pose proof (anthropic_attempts_bounded w identifier prepared config retries)
    as [H _].
  unfold requests_made in H. simpl. exact H.
Qed.

Lemma gpt_path_requests (payload : GenericPayload)
    (config : option AIConfig) (retries : Z) :
  gp_model payload ∈ GPTModel.values ->
  (requests_made
     (events (fst (Dispatch.callWithRetries w identifier payload config
                     retries)))
   <= Z.to_nat (retries + 1))%nat.
Proof.
  intros Hm. unfold Dispatch.callWithRetries.
  rewrite (gpt_is_not_claude payload Hm).
  unfold Dispatch.isOpenAiPayload.
  rewrite bool_decide_eq_true_2 by exact Hm.
  pose proof (openai_prepare_silent payload) as Hs.
  destruct (Dispatch.prepareOpenAIPayload payload) as [l [prepared | e]].
  - pose proof (openai_requests_bounded prepared config retries) as H.
    destruct (OpenAiRetries.callOpenAiWithRetries w identifier prepared
                config retries) as [run s]. cbn [fst] in *.
    unfold requests_made in *. rewrite !count_bind.
    cbn [emit events outcome fst snd].
    unfold silent in Hs. cbn [events fst] in Hs. rewrite Hs.
    change (count_events is_request [LogDelegating (js "OpenAI")])
      with 0%nat.
    simpl. exact H.
  - cbn [fst]. unfold requests_made. rewrite count_bind.
    cbn [emit events outcome fst snd].
    unfold silent in Hs. cbn [events fst] in Hs. rewrite Hs. simpl. lia.
Qed.

Lemma groq_path_requests (payload : GenericPayload)
    (config : option AIConfig) (retries : Z) :
  gp_model payload ∈ GroqModel.values ->
  (requests_made
     (events (fst (Dispatch.callWithRetries w identifier payload config
                     retries)))
   <= 5)%nat.
Proof.
  intros Hm. unfold Dispatch.callWithRetries.
  destruct (groq_is_neither payload Hm) as [-> ->].
  unfold Dispatch.isGroqPayload.
  rewrite bool_decide_eq_true_2 by exact Hm. cbn [fst].
  unfold requests_made. rewrite count_bind.
  cbn [emit events outcome fst snd].
  pose proof (groq_attempts_bounded w identifier
                (GroqPath.prepareGroqPayload payload)
                GroqPath.default_retries) as [H _].
  unfold requests_made in H. simpl. exact H.
Qed.

Lemma gemini_path_requests (payload : GenericPayload)
    (config : option AIConfig) (retries : Z) :
  gp_model payload ∈ GeminiModel.values ->
  (requests_made
     (events (fst (Dispatch.callWithRetries w identifier payload config
                     retries)))
   <= 1)%nat.
Proof.
  intros Hm. unfold Dispatch.callWithRetries.
  destruct (gemini_is_none_of_the_others payload Hm) as (-> & -> & ->).
  unfold Dispatch.isGoogleAIPayload.
  rewrite bool_decide_eq_true_2 by exact Hm. cbn [fst].
  unfold requests_made. rewrite !count_bind.
  cbn [emit events outcome fst snd].
  change (count_events is_request [LogDelegating (js "Google AI")])
    with 0%nat.
  rewrite prepareGoogleAIPayload_silent.
  destruct (outcome (GooglePath.prepareGoogleAIPayload w payload))
    as [prepared |]; [| simpl; lia].
  pose proof (callGoogleAI_requests prepared) as H.
  unfold requests_made in H. simpl. exact H.
Qed.

End RequestBounds.

(** X12.  Whatever the providers answer, [callWithRetries] sends them at
    most [retries + 1] requests for a GPT model, at most [retries] for a
    Claude model, at most 5 for the Groq model and at most 1 for the
    Gemini model, whatever [retries] is there. *)
Theorem requests_are_bounded :
  forall (w : world) (identifier : jsstring) (payload : GenericPayload)
         (config : option AIConfig) (retries : Z),
    let sent :=
      requests_made
        (events (fst (Dispatch.callWithRetries w identifier payload config
                        retries))) in
    (gp_model payload ∈ GPTModel.values ->
     (sent <= Z.to_nat (retries + 1))%nat)
    /\ (gp_model payload ∈ ClaudeModel.values ->
        (sent <= Z.to_nat retries)%nat)
    /\ (gp_model payload ∈ GroqModel.values -> (sent <= 5)%nat)
    /\ (gp_model payload ∈ GeminiModel.values -> (sent <= 1)%nat)
    /\ (sent <= Nat.max (Z.to_nat (retries + 1)) 5)%nat.
Proof.
  intros w identifier payload config retries sent. subst sent.
  pose proof (gpt_path_requests w identifier payload config retries) as Hg.
  pose proof (claude_path_requests w identifier payload config retries) as Hc.
  pose proof (groq_path_requests w identifier payload config retries) as Hq.
  pose proof (gemini_path_requests w identifier payload config retries) as Hm.
  repeat split; try assumption.
  destruct (decide (gp_model payload ∈ ClaudeModel.values)) as [H1 | H1];
    [specialize (Hc H1); lia |].
  destruct (decide (gp_model payload ∈ GPTModel.values)) as [H2 | H2];
    [specialize (Hg H2); lia |].
  destruct (decide (gp_model payload ∈ GroqModel.values)) as [H3 | H3];
    [specialize (Hq H3); lia |].
  destruct (decide (gp_model payload ∈ GeminiModel.values)) as [H4 | H4];
    [specialize (Hm H4); lia |].
  unfold Dispatch.callWithRetries, Dispatch.isAnthropicPayload,
    Dispatch.isOpenAiPayload, Dispatch.isGroqPayload,
    Dispatch.isGoogleAIPayload.
  rewrite !bool_decide_eq_false_2 by assumption.
  unfold requests_made, count_events. simpl. lia.
Qed.

(** ** The Google path and the Groq path *)

Section GooglePath.

Variable w : world.

Lemma google_system_only (messages : list GenericMessage) :
  forall prepared,
    Runs.conversation messages = [] ->
    exists result,
      GooglePath.prepare_messages w messages prepared = ([], Ok result)
      /\ ggp_messages result = ggp_messages prepared.
Proof.
  induction messages as [| message rest IH]; intros prepared.
  - intros _. exists prepared. split; reflexivity.
  - unfold Runs.conversation. cbn [List.filter GooglePath.prepare_messages].
    destruct (gm_role message); cbn [role_eqb negb]; try discriminate.
    intros H. destruct (IH (GooglePath.with_system prepared
                              (gm_content message)) H) as (result & -> & Hr).
    exists result. split; [reflexivity | exact Hr].
Qed.

End GooglePath.

(** X13.  For the Gemini model, [callWithRetries] reads neither the
    configuration nor [retries] and never tries again: an error of the
    provider's is the error of the call.  When the request has no message
    but system messages, the call throws a TypeError before anything is
    sent. *)
Theorem gemini_call_is_made_once :
  forall (w : world) (identifier : jsstring) (payload : GenericPayload)
         (config : option AIConfig) (retries : Z),
    gp_model payload ∈ GeminiModel.values ->
    let run := fst (Dispatch.callWithRetries w identifier payload config
                      retries) in
    (forall config' retries',
        fst (Dispatch.callWithRetries w identifier payload config' retries')
        = run)
    /\ (forall prepared e,
          outcome (GooglePath.prepareGoogleAIPayload w payload) = Ok prepared ->
          ggp_messages prepared <> [] ->
          w_google_send w prepared = Throw e ->
          outcome run = Throw e)
    /\ (Runs.conversation (gp_messages payload) = [] ->
        run = ([LogDelegating (js "Google AI"); LogCallingGoogle],
               Throw TypeError)).
Proof.
  intros w identifier payload config retries Hm run. subst run.
  unfold Dispatch.callWithRetries.
  destruct (gemini_is_none_of_the_others payload Hm) as (-> & -> & ->).
  unfold Dispatch.isGoogleAIPayload.
  rewrite bool_decide_eq_true_2 by exact Hm. cbn [fst].
  split; [reflexivity |]. split.
  - intros prepared e Hp Hne Hs.
    rewrite !outcome_bind. cbn [emit outcome snd]. rewrite Hp.
    unfold GooglePath.callGoogleAI. rewrite outcome_bind.
    cbn [emit outcome snd].
    destruct (ggp_messages prepared); [congruence |].
    rewrite !outcome_bind. cbn [emit outcome snd]. rewrite Hs. reflexivity.
  - intros Hc. unfold GooglePath.prepareGoogleAIPayload.
    destruct (google_system_only w (gp_messages payload)
                {| ggp_model := gp_model payload; ggp_messages := [];
                   ggp_tools := gp_functions payload;
                   ggp_systemInstruction := None |} Hc) as (result & -> & Hr).
    cbn [bind emit app]. unfold GooglePath.callGoogleAI.
    simpl in Hr. rewrite Hr. reflexivity.
Qed.

Lemma gemini_call_is_made_once_witness :
  fst (Dispatch.callWithRetries Samples.offline (js "id")
         (Samples.request GeminiModel.GEMINI_15_PRO)
         (Some Samples.azure_config) 0)
  = fst (Dispatch.callWithRetries Samples.offline (js "id")
           (Samples.request GeminiModel.GEMINI_15_PRO) None 5).
Proof.
  exact (proj1 (gemini_call_is_made_once Samples.offline (js "id")
                  (Samples.request GeminiModel.GEMINI_15_PRO) None 5
                  (list_elem_of_here _ _))
               (Some Samples.azure_config) 0).
Defined.

(** X14.  For the Groq model, [callWithRetries] reads neither the
    configuration nor [retries]: the call makes up to 5 attempts whatever
    the caller asked for, and when it throws it has sent 5 requests and
    the error says so. *)
Theorem groq_call_ignores_retries :
  forall (w : world) (identifier : jsstring) (payload : GenericPayload)
         (config : option AIConfig) (retries : Z),
    gp_model payload ∈ GroqModel.values ->
    let run := fst (Dispatch.callWithRetries w identifier payload config
                      retries) in
    (forall config' retries',
        fst (Dispatch.callWithRetries w identifier payload config' retries')
        = run)
    /\ (forall e,
          outcome run = Throw e ->
          requests_made (events run) = 5%nat
          /\ e = ErrorWithResponse
                   (js "Failed to call Groq API after 5 attempts") None).
Proof.
  intros w identifier payload config retries Hm run. subst run.
  unfold Dispatch.callWithRetries.
  destruct (groq_is_neither payload Hm) as [-> ->].
  unfold Dispatch.isGroqPayload.
  rewrite bool_decide_eq_true_2 by exact Hm. cbn [fst].
  split; [reflexivity |].
  intros e He. rewrite outcome_bind in He. cbn [emit outcome snd] in He.
  pose proof (groq_attempts_bounded w identifier
                (GroqPath.prepareGroqPayload payload)
                GroqPath.default_retries) as [_ H].
  destruct (H e He) as [Hn ->]. split; [| reflexivity].
  unfold requests_made in *. rewrite count_bind.
  cbn [emit events outcome fst snd]. rewrite Hn. reflexivity.
Qed.

Lemma groq_call_ignores_retries_witness :
  requests_made
    (events (fst (Dispatch.callWithRetries Samples.offline (js "id")
                    (Samples.request GroqModel.LLAMA_3_70B_8192) None 1)))
  = 5%nat
  /\ ErrorWithResponse (js "Failed to call Groq API after 5 attempts") None
     = ErrorWithResponse (js "Failed to call Groq API after 5 attempts") None.
Proof.
  apply (proj2 (groq_call_ignores_retries Samples.offline (js "id")
                  (Samples.request GroqModel.LLAMA_3_70B_8192) None 1
                  (list_elem_of_here _ _))).
  vm_compute. reflexivity.
Defined.

(** ** [retries] at zero *)

Lemma single_attempt (w : world) (identifier : jsstring)
    (p : OpenAIPayload) (c : option AIConfig) :
  OpenAiRetries.attempts_made
    (events (fst (OpenAiRetries.callOpenAiWithRetries w identifier p c 0)))
  = 1%nat.
Proof.
  unfold OpenAiRetries.callOpenAiWithRetries.
  change (Z.to_nat (0 + 1)) with 1%nat. cbn [OpenAiRetries.attempts fst snd].
  pose proof (callOpenAIStream_one_attempt w identifier 0 p c) as H1.
  destruct (Stream.callOpenAIStream w 0 identifier p c) as [l0 [res | e]];
    cbn [events fst] in H1.
  - cbv zeta. cbn [fst events app]. unfold OpenAiRetries.attempts_made in *.
    rewrite count_cons, H1. reflexivity.
  - pose proof (catch_block_no_attempt 0 e (p, c)) as H0.
    destruct (OpenAiRetries.catch_block 0 e (p, c)) as [l' s'].
    cbv zeta. cbn [fst events app] in *.
    unfold OpenAiRetries.attempts_made in *.
    rewrite count_cons, !count_app, H1, H0. reflexivity.
Qed.

(** X15.  With [retries] at 0 or below, [callWithRetries] on a Claude
    model sends nothing to the provider and throws; with [retries] at 0
    on a GPT model it makes one attempt. *)
Theorem no_retries_means_no_call_for_claude :
  forall (w : world) (identifier : jsstring) (payload : GenericPayload)
         (config : option AIConfig) (retries : Z),
    let run := fst (Dispatch.callWithRetries w identifier payload config
                      retries) in
    (gp_model payload ∈ ClaudeModel.values -> retries <= 0 ->
     requests_made (events run) = 0%nat
     /\ exists e, outcome run = Throw e)
    /\ (gp_model payload ∈ GPTModel.values -> retries = 0 ->
        OpenAiRetries.attempts_made (events run) = 1%nat).
Proof.
  intros w identifier payload config retries run. subst run. split.
  - intros Hm Hr.
    pose proof (claude_path_requests w identifier payload config retries Hm)
      as Hle.
    replace (Z.to_nat retries) with 0%nat in Hle by lia.
    split; [lia |].
    unfold Dispatch.callWithRetries, Dispatch.isAnthropicPayload.
    rewrite bool_decide_eq_true_2 by exact Hm. cbn [fst].
    rewrite !outcome_bind. cbn [emit outcome snd].
    destruct (outcome (AnthropicPath.prepareAnthropicPayload w payload))
      as [prepared | e]; [| eauto].
    unfold AnthropicPath.callAnthropicWithRetries.
    replace (Z.to_nat retries) with 0%nat by lia. simpl. eauto.
  - intros Hm ->. unfold Dispatch.callWithRetries.
    rewrite (gpt_is_not_claude payload Hm).
    unfold Dispatch.isOpenAiPayload.
    rewrite bool_decide_eq_true_2 by exact Hm.
    unfold Dispatch.prepareOpenAIPayload.
    destruct (openai_prepare_messages_total (gp_messages payload))
      as (l & prepared & -> & _ & Hl).
    cbn [bind ret].
    match goal with
    | |- context [OpenAiRetries.callOpenAiWithRetries w identifier ?p config
                    0] =>
        pose proof (single_attempt w identifier p config) as H1;
        destruct (OpenAiRetries.callOpenAiWithRetries w identifier p config 0)
          as [[lr rr] s]
    end.
    cbn [fst snd events emit bind app] in *.
    unfold OpenAiRetries.attempts_made in *.
    rewrite !app_nil_r, !count_cons, !count_app, H1.
    assert (count_events OpenAiRetries.is_attempt l = 0%nat) as ->.
    { clear -Hl. induction Hl as [| ev l' -> _ IH]; [reflexivity | exact IH]. }
    reflexivity.
Qed.

Lemma no_retries_means_no_call_for_claude_witness :
  requests_made
    (events (fst (Dispatch.callWithRetries Samples.offline (js "id")
                    (Samples.request ClaudeModel.OPUS) None 0))) = 0%nat
  /\ exists e,
       outcome (fst (Dispatch.callWithRetries Samples.offline (js "id")
                       (Samples.request ClaudeModel.OPUS) None 0)) = Throw e.
Proof.
  apply (proj1 (no_retries_means_no_call_for_claude Samples.offline (js "id")
                  (Samples.request ClaudeModel.OPUS) None 0)).
  - apply (bool_decide_unpack _). vm_compute. exact I.
  - lia.
Defined.

(** ** The model that the Anthropic path asks for *)

Section LastAttempt.

Import AnthropicPath.

Variables w w' : world.
Variable identifier : jsstring.
Variable c : option AIConfig.
Variable attempts : Z.

Hypothesis not_bedrock : is_bedrock c = false.
Hypothesis same_answers :
  forall n request,
    (Z.of_nat n = attempts - 1 -> ar_model request = ClaudeModel.SONNET) ->
    w_anthropic_post w n request = w_anthropic_post w' n request.

Lemma attempts_loop_same (fuel : nat) :
  forall (i : nat) (p : AnthropicAIPayload),
    attempts_loop w identifier c attempts fuel i p
    = attempts_loop w' identifier c attempts fuel i p.
Proof.
  induction fuel as [| fuel IH]; intros i p; [reflexivity |].
  cbn [attempts_loop].
  set (p1 := if Z.of_nat i =? attempts - 1
             then set_model p ClaudeModel.SONNET else p).
  assert (callAnthropic w i identifier p1 c
          = callAnthropic w' i identifier p1 c) as ->.
  { unfold callAnthropic. rewrite not_bedrock.
    rewrite same_answers; [reflexivity |].
    simpl. intros Hi. subst p1.
    destruct (Z.eqb_spec (Z.of_nat i) (attempts - 1)); [reflexivity | lia]. }
  destruct (callAnthropic w' i identifier p1 c) as [l [res | e]];
    [reflexivity |].
  rewrite IH. reflexivity.
Qed.

End LastAttempt.

(** X16.  The last of the attempts of [callAnthropicWithRetries] asks for
    the Sonnet model, whatever model the payload names: the call behaves
    the same with any two providers that differ only in how they answer,
    on that attempt, a request for another model. *)
Theorem last_attempt_asks_sonnet :
  forall (w w' : world) (identifier : jsstring) (p : AnthropicAIPayload)
         (c : option AIConfig) (attempts : Z),
    AnthropicPath.is_bedrock c = false ->
    (forall n request,
        (Z.of_nat n = attempts - 1 ->
         ar_model request = ClaudeModel.SONNET) ->
        w_anthropic_post w n request = w_anthropic_post w' n request) ->
    AnthropicPath.callAnthropicWithRetries w identifier p c attempts
    = AnthropicPath.callAnthropicWithRetries w' identifier p c attempts.
Proof.
  intros w w' identifier p c attempts Hc Hw.
  unfold AnthropicPath.callAnthropicWithRetries.
  rewrite (attempts_loop_same w w' identifier c attempts Hc Hw).
  reflexivity.
Qed.

Section Bedrock.

Import AnthropicPath.

Variable w : world.
Variable identifier : jsstring.
Variable c : option AIConfig.

Hypothesis bedrock : is_bedrock c = true.

(** The two payloads have the same messages and functions. *)
Let alike (p p' : AnthropicAIPayload) : Prop :=
  ap_messages p = ap_messages p' /\ ap_functions p = ap_functions p'.

Lemma callAnthropic_on_bedrock (n : nat) (p p' : AnthropicAIPayload) :
  alike p p' ->
  callAnthropic w n identifier p c = callAnthropic w n identifier p' c.
Proof.
  intros [Hm Hf]. unfold callAnthropic. rewrite bedrock, Hm, Hf. reflexivity.
Qed.

Lemma attempts_loop_on_bedrock (attempts : Z) (fuel : nat) :
  forall (i : nat) (p p' : AnthropicAIPayload),
    alike p p' ->
    fst (attempts_loop w identifier c attempts fuel i p)
    = fst (attempts_loop w identifier c attempts fuel i p')
    /\ fst (snd (attempts_loop w identifier c attempts fuel i p))
       = fst (snd (attempts_loop w identifier c attempts fuel i p')).
Proof.
  induction fuel as [| fuel IH]; intros i p p' Hp; [split; reflexivity |].
  cbn [attempts_loop].
  set (p1 := if Z.of_nat i =? attempts - 1
             then set_model p ClaudeModel.SONNET else p).
  set (p1' := if Z.of_nat i =? attempts - 1
              then set_model p' ClaudeModel.SONNET else p').
  assert (alike p1 p1') as H1.
  { subst p1 p1'. destruct (Z.of_nat i =? attempts - 1); exact Hp. }
  rewrite (callAnthropic_on_bedrock i p1 p1' H1).
  destruct (callAnthropic w i identifier p1' c) as [l [res | e]];
    [split; reflexivity |].
  match goal with
  | |- context [attempts_loop w identifier c attempts fuel (S i) ?q] =>
      match goal with
      | |- context [fst (let '(_, _) :=
                           attempts_loop w identifier c attempts fuel (S i) ?q'
                         in _) = fst (let '(_, _) := attempts_loop w identifier c attempts fuel (S i) ?q'' in _)] =>
          destruct (IH (S i) q' q'') as [E1 E2]
      end
  end.
  { destruct H1 as [Hm Hf]. destruct (is_rate_limit e); split; simpl;
      rewrite ?Hm, ?Hf; reflexivity. }
  match goal with
  | |- context [attempts_loop w identifier c attempts fuel (S i) ?q] =>
      destruct (attempts_loop w identifier c attempts fuel (S i) q)
        as [la [ra pa]]
  end.
  match goal with
  | |- context [attempts_loop w identifier c attempts fuel (S i) ?q] =>
      destruct (attempts_loop w identifier c attempts fuel (S i) q)
        as [lb [rb pb]]
  end.
  simpl in *. subst. split; reflexivity.
Qed.

Lemma callAnthropicWithRetries_on_bedrock (attempts : Z)
    (p p' : AnthropicAIPayload) :
  alike p p' ->
  fst (callAnthropicWithRetries w identifier p c attempts)
  = fst (callAnthropicWithRetries w identifier p' c attempts).
Proof.
  intros Hp. unfold callAnthropicWithRetries.
  destruct (attempts_loop_on_bedrock attempts (Z.to_nat attempts) 0 p p' Hp)
    as [E1 E2].
  destruct (attempts_loop w identifier c attempts (Z.to_nat attempts) 0 p)
    as [la [ra pa]].
  destruct (attempts_loop w identifier c attempts (Z.to_nat attempts) 0 p')
    as [lb [rb pb]].
  simpl in *. subst. destruct rb; reflexivity.
Qed.

(** The system messages of a request only reach the system prompt. *)
Lemma prepare_messages_conversation (messages : list GenericMessage) :
  forall (p p' : AnthropicAIPayload),
    alike p p' ->
    events (prepare_messages w messages p)
    = events (prepare_messages w (Runs.conversation messages) p')
    /\ match outcome (prepare_messages w messages p),
             outcome (prepare_messages w (Runs.conversation messages) p') with
       | Ok r, Ok r' => alike r r'
       | Throw e, Throw e' => e = e'
       | _, _ => False
       end.
Proof.
  induction messages as [| message rest IH]; intros p p' Hp.
  - simpl. split; [reflexivity | exact Hp].
  - unfold Runs.conversation. cbn [List.filter prepare_messages].
    destruct (gm_role message) eqn:Er; cbn [role_eqb negb prepare_messages];
      rewrite ?Er.
    + destruct (file_blocks w (default [] (gm_files message)))
        as [l [images | e]]; [| split; reflexivity].
      rewrite !bind_ok.
      match goal with
      | |- context [prepare_messages w rest (push_message p ?m)] =>
          destruct (IH (push_message p m) (push_message p' m)) as [E1 E2]
      end.
      { destruct Hp as [Hm Hf]. split; simpl; congruence. }
      cbn [events outcome fst snd]. fold (Runs.conversation rest).
      rewrite E1. split; [reflexivity | exact E2].
    + destruct (file_blocks w (default [] (gm_files message)))
        as [l [images | e]]; [| split; reflexivity].
      rewrite !bind_ok.
      match goal with
      | |- context [prepare_messages w rest (push_message p ?m)] =>
          destruct (IH (push_message p m) (push_message p' m)) as [E1 E2]
      end.
      { destruct Hp as [Hm Hf]. split; simpl; congruence. }
      cbn [events outcome fst snd]. fold (Runs.conversation rest).
      rewrite E1. split; [reflexivity | exact E2].
    + apply IH. destruct Hp as [Hm Hf]. split; simpl; congruence.
Qed.

Lemma claude_call_on_bedrock (payload payload' : GenericPayload)
    (retries : Z) :
  gp_model payload ∈ ClaudeModel.values ->
  gp_model payload' ∈ ClaudeModel.values ->
  Runs.conversation (gp_messages payload)
  = Runs.conversation (gp_messages payload') ->
  gp_functions payload = gp_functions payload' ->
  fst (Dispatch.callWithRetries w identifier payload c retries)
  = fst (Dispatch.callWithRetries w identifier payload' c retries).
Proof.
  intros Hm Hm' Hc Hf.
  unfold Dispatch.callWithRetries, Dispatch.isAnthropicPayload.
  rewrite !bool_decide_eq_true_2 by assumption. cbn [fst].
  unfold prepareAnthropicPayload.
  set (init := {| ap_model := gp_model payload; ap_messages := [];
                  ap_functions := gp_functions payload;
                  ap_temperature := gp_temperature payload;
                  ap_system := None |}).
  set (init' := {| ap_model := gp_model payload'; ap_messages := [];
                   ap_functions := gp_functions payload';
                   ap_temperature := gp_temperature payload';
                   ap_system := None |}).
  destruct (prepare_messages_conversation (gp_messages payload) init init)
    as [E1 O1]; [split; reflexivity |].
  destruct (prepare_messages_conversation (gp_messages payload') init' init)
    as [E2 O2]; [split; [reflexivity | symmetry; exact Hf] |].
  rewrite <- Hc in E2, O2.
  destruct (prepare_messages w (gp_messages payload) init) as [l1 [r1 | e1]];
    destruct (prepare_messages w (gp_messages payload') init')
      as [l2 [r2 | e2]];
    destruct (prepare_messages w (Runs.conversation (gp_messages payload))
                init) as [l0 [r0 | e0]];
    cbn [events outcome fst snd] in *; try contradiction; subst.
  - cbn [bind emit app].
    rewrite (callAnthropicWithRetries_on_bedrock retries r1 r2);
      [reflexivity |].
    destruct O1 as [A1 B1], O2 as [A2 B2]. split; congruence.
  - reflexivity.
Qed.

End Bedrock.

(** X17.  On Bedrock the model, the temperature and the system messages
    of a request are not used: two requests for Claude models that have
    the same messages, system messages apart, and the same functions get
    the same treatment. *)
Theorem bedrock_reads_messages_and_functions_only :
  forall (w : world) (identifier : jsstring) (c : option AIConfig)
         (payload payload' : GenericPayload) (retries : Z),
    AnthropicPath.is_bedrock c = true ->
    gp_model payload ∈ ClaudeModel.values ->
    gp_model payload' ∈ ClaudeModel.values ->
    Runs.conversation (gp_messages payload)
    = Runs.conversation (gp_messages payload') ->
    gp_functions payload = gp_functions payload' ->
    fst (Dispatch.callWithRetries w identifier payload c retries)
    = fst (Dispatch.callWithRetries w identifier payload' c retries).
Proof.
  intros w identifier c payload payload' retries Hb.
  apply claude_call_on_bedrock. exact Hb.
Qed.

(** ** The configuration object of the caller *)

Section AzureSwitch.

Import OpenAiRetries.

Variable w : world.
Variable identifier : jsstring.

Lemma switch_twice (c : option AIConfig) :
  switch_to_openai (switch_to_openai c) = switch_to_openai c.
Proof. destruct c; reflexivity. Qed.

Lemma catch_block_config (i : nat) (e : js_error) (s : retry_state) :
  snd (snd (catch_block i e s))
  = if is_azure (snd s)
       && (((2 <=? i)%nat && is_string (error_code e) (js "content_filter"))
           || (i =? 3)%nat)
    then switch_to_openai (snd s)
    else snd s.
Proof.
  destruct s as [p c]. rewrite catch_block_state. reflexivity.
Qed.

(** The configuration at the end is the one at the start, or the same
    with the service openai. *)
Lemma attempts_config_cases (fuel : nat) :
  forall (i : nat) (s : retry_state),
    let final := snd (snd (snd (attempts w identifier fuel i s))) in
    (final = snd s \/ final = switch_to_openai (snd s))
    /\ (is_azure (snd s) = false -> is_azure final = false).
Proof.
  induction fuel as [| fuel IH]; intros i s; [simpl; auto |].
  cbn [attempts]. cbv zeta.
  destruct (Stream.callOpenAIStream w i identifier (fst s) (snd s))
    as [l [res | e]]; [simpl; auto |].
  pose proof (catch_block_config i e s) as Hc.
  destruct (catch_block i e s) as [l' s']. cbn [snd] in Hc.
  destruct (IH (S i) s') as [Hcases Hstay].
  destruct (attempts w identifier fuel (S i) s') as [l'' r].
  cbn [snd] in *. rewrite Hc in Hcases, Hstay. split.
  - destruct (is_azure (snd s) && _).
    + rewrite switch_twice in Hcases. tauto.
    + exact Hcases.
  - intros Hz. rewrite Hz in Hstay. apply Hstay. exact Hz.
Qed.

Hypothesis fails : Runs.always_fails w identifier.

Lemma attempts_leave_azure (fuel : nat) :
  forall (i : nat) (s : retry_state),
    (i <= 3 < i + fuel)%nat ->
    is_azure (snd (snd (snd (attempts w identifier fuel i s)))) = false.
Proof.
  induction fuel as [| fuel IH]; intros i s Hi; [lia |].
  cbn [attempts].
  destruct (fails i (fst s) (snd s)) as [e0 He0].
  destruct (Stream.callOpenAIStream w i identifier (fst s) (snd s))
    as [l [res | e]]; [discriminate |].
  pose proof (catch_block_config i e s) as Hc.
  destruct (catch_block i e s) as [l' s']. cbn [snd] in Hc.
  destruct (Nat.eq_dec i 3%nat) as [-> | Hne].
  - destruct (attempts_config_cases fuel 4%nat s') as [_ Hstay].
    destruct (attempts w identifier fuel 4%nat s') as [l'' r]. cbn [snd] in *.
    apply Hstay. rewrite Hc. cbn [Nat.eqb].
    rewrite orb_true_r, andb_true_r.
    destruct (is_azure (snd s)) eqn:Hz; [apply is_azure_switch | exact Hz].
  - specialize (IH (S i) s' ltac:(lia)).
    destruct (attempts w identifier fuel (S i) s') as [l'' r].
    exact IH.
Qed.

End AzureSwitch.


Lemma offline_always_fails (identifier : jsstring) :
  Runs.always_fails Samples.offline identifier.
Proof.
  intros n p c. unfold Stream.callOpenAIStream. rewrite outcome_bind.
  destruct (outcome (Stream.choose_endpoint _ _)); eauto.
Qed.


(** ** The objects that [jigAnthropicMessages] writes to *)

Section JigMerges.

Import AnthropicPath Runs.

Lemma joined_cons (blocks : list AnthropicContentBlock)
    (x : AnthropicAIMessage) (followers : list AnthropicAIMessage) :
  joined blocks (x :: followers)
  = joined (blocks ++ [separator] ++ as_blocks (am_content x)) followers.
Proof.
  unfold joined. simpl. rewrite <- !app_assoc. reflexivity.
Qed.

(** A run of messages of the role of the last message of the
    accumulator is merged into that message. *)
Lemma fold_merges_run (ts : list tracked) :
  forall (at_ : option nat) (a : AnthropicAIMessage) (t : tracked),
    Forall (fun x => am_role (snd x) = am_role a) (t :: ts) ->
    fold_left reduce_step (t :: ts) [(at_, a)]
    = [(at_, {| am_role := am_role a;
                am_content :=
                  ABlocks (joined (as_blocks (am_content a))
                                  (map snd (t :: ts))) |})].
Proof.
  induction ts as [| t2 ts IH]; intros at_ a t Hr.
  - apply Forall_cons in Hr as [Ht _]. cbn [fold_left reduce_step].
    rewrite Ht, (proj2 (role_eqb_eq _ _) eq_refl).
    unfold merged, joined. simpl. rewrite app_nil_r. reflexivity.
  - apply Forall_cons in Hr as [Ht Hr].
    change (fold_left reduce_step (t :: t2 :: ts) [(at_, a)])
      with (fold_left reduce_step (t2 :: ts) (reduce_step [(at_, a)] t)).
    cbn [reduce_step]. rewrite Ht, (proj2 (role_eqb_eq _ _) eq_refl).
    rewrite (IH at_ (merged a (snd t)) t2 Hr).
    cbn [map].
    rewrite (joined_cons (as_blocks (am_content a)) (snd t)). reflexivity.
Qed.

Lemma imap_tracks {A} (h : nat -> A -> option nat * A) (l : list A) :
  (forall i x, snd (h i x) = x) -> map snd (imap h l) = l.
Proof.
  revert h. induction l as [| x l IH]; intros h Hh; [reflexivity |].
  simpl. rewrite Hh. f_equal. apply IH. intros i y. apply Hh.
Qed.

Lemma imap_tracks_roles (h : nat -> AnthropicAIMessage -> tracked)
    (r : role) (l : list AnthropicAIMessage) :
  (forall i x, snd (h i x) = x) ->
  Forall (fun x => am_role x = r) l ->
  Forall (fun x : tracked => am_role (snd x) = r) (imap h l).
Proof.
  revert h. induction l as [| x l IH]; intros h Hh H; [constructor |].
  apply Forall_cons in H as [Hx Hl]. simpl. constructor.
  - rewrite Hh. exact Hx.
  - apply IH; [intros i y; apply Hh | exact Hl].
Qed.

Lemma jig_tracked_user_run (m f : AnthropicAIMessage)
    (followers : list AnthropicAIMessage) :
  Forall (fun x => am_role x = User) (m :: f :: followers) ->
  jig_tracked (m :: f :: followers)
  = [(Some 0%nat,
      {| am_role := User;
         am_content :=
           ABlocks (joined (as_blocks (am_content m)) (f :: followers)) |})].
Proof.
  intros H. apply Forall_cons in H as [Hm Hf].
  unfold jig_tracked, opened. rewrite Hm. cbn [role_eqb].
  change (track (m :: f :: followers))
    with ((Some 0%nat, m) :: (Some 1%nat, f)
          :: imap (fun i x => (Some (S (S i)), x)) followers).
  change (fold_left reduce_step (?a :: ?l) []) with (fold_left reduce_step l [a]).
  rewrite fold_merges_run.
  - rewrite Hm. cbn [closed snd role_eqb rev app].
    change (map snd (?a :: ?l)) with (snd a :: map snd l).
    rewrite imap_tracks by reflexivity. reflexivity.
  - rewrite Hm.
    apply (imap_tracks_roles (fun i x => (Some (S i), x)) User
             (f :: followers)); [reflexivity | exact Hf].
Qed.

End JigMerges.

(** X19.  [jigAnthropicMessages] writes to the objects of the array it is
    given.  For a request that is a run of user messages, it returns one
    message with the blocks of all of them, a separator between any two,
    and that content is written into the first object of the caller's
    array, whose other objects stay; a second call on the same array,
    which is what every further attempt of [callAnthropicWithRetries]
    makes, therefore merges the followers once more. *)
Theorem jig_merges_into_the_first_object :
  forall (m f : AnthropicAIMessage) (followers : list AnthropicAIMessage),
    Forall (fun x => am_role x = User) (m :: f :: followers) ->
    let once := Runs.joined (Runs.blocks_of (am_content m))
                            (f :: followers) in
    AnthropicPath.jigAnthropicMessages (m :: f :: followers)
    = [{| am_role := User; am_content := ABlocks once |}]
    /\ AnthropicPath.messages_after_jig (m :: f :: followers)
       = {| am_role := User; am_content := ABlocks once |} :: f :: followers
    /\ AnthropicPath.jigAnthropicMessages
         (AnthropicPath.messages_after_jig (m :: f :: followers))
       = [{| am_role := User;
             am_content := ABlocks (Runs.joined once (f :: followers)) |}].
Proof.
  intros m f followers H once.
  pose proof (jig_tracked_user_run m f followers H) as Hj.
  assert (AnthropicPath.messages_after_jig (m :: f :: followers)
          = {| am_role := User; am_content := ABlocks once |}
            :: f :: followers) as Ha.
  { unfold AnthropicPath.messages_after_jig. rewrite Hj. reflexivity. }
  split; [| split].
  - unfold AnthropicPath.jigAnthropicMessages. rewrite Hj. reflexivity.
  - exact Ha.
  - rewrite Ha. unfold AnthropicPath.jigAnthropicMessages.
    rewrite jig_tracked_user_run; [reflexivity |].
    apply Forall_cons in H as [_ H]. constructor; [reflexivity | exact H].
Qed.

Lemma jig_merges_into_the_first_object_witness :
  AnthropicPath.jigAnthropicMessages
    (AnthropicPath.messages_after_jig
       [{| am_role := User; am_content := ABlocks [AText (js "a")] |};
        {| am_role := User; am_content := ABlocks [AText (js "b")] |}])
  = [{| am_role := User;
        am_content :=
          ABlocks [AText (js "a"); Runs.rule; AText (js "b");
                   Runs.rule; AText (js "b")] |}].
Proof.
  apply (jig_merges_into_the_first_object
           {| am_role := User; am_content := ABlocks [AText (js "a")] |}
           {| am_role := User; am_content := ABlocks [AText (js "b")] |} []).
  repeat constructor.
Defined.

(** ** The text of an answer of Claude's *)

Section AnswerText.

Import AnthropicPath Runs.

Lemma starts_with_app (pat rest : jsstring) :
  starts_with pat (pat ++ rest) = true.
Proof.
  induction pat as [| c pat IH]; [reflexivity |].
  simpl. rewrite N.eqb_refl. exact IH.
Qed.

(** Every tag starts with [<]. *)
Let tag (t : jsstring) : Prop := exists t', t = 60%N :: t'.

Lemma starts_with_tag (t : jsstring) (c : N) (s : jsstring) :
  tag t -> c <> 60%N -> starts_with t (c :: s) = false.
Proof.
  intros [t' ->] Hc. cbn [starts_with].
  destruct (N.eqb_spec 60 c); [congruence | reflexivity].
Qed.

Lemma remove_thinking_skips (s : jsstring) :
  forall n, remove_thinking_go n s = remove_thinking_go 0 (drop n s).
Proof.
  induction s as [| c s IH]; intros [| n]; try reflexivity.
  simpl. apply IH.
Qed.

Lemma remove_tags_skips (tags : list jsstring) (s : jsstring) :
  forall n, remove_tags_go tags n s = remove_tags_go tags 0 (drop n s).
Proof.
  induction s as [| c s IH]; intros [| n]; try reflexivity.
  simpl. apply IH.
Qed.

Lemma remove_thinking_plain (t rest : jsstring) :
  tag_free t ->
  remove_thinking (t ++ rest) = t ++ remove_thinking rest.
Proof.
  unfold remove_thinking. induction 1 as [| c t Hc Ht IH]; [reflexivity |].
  cbn [app remove_thinking_go].
  rewrite (starts_with_tag thinking_open c (t ++ rest));
    [| eexists; reflexivity | exact Hc].
  rewrite IH. reflexivity.
Qed.

Lemma index_of_after_plain (pat t rest : jsstring) :
  tag pat -> tag_free t ->
  index_of pat (t ++ pat ++ rest) = Some (length t).
Proof.
  intros Hp. induction 1 as [| c t Hc Ht IH].
  - destruct pat as [| p pat]; [destruct Hp; discriminate |].
    pose proof (starts_with_app (p :: pat) rest) as Hs.
    cbn [app] in *. cbn [index_of]. rewrite Hs. reflexivity.
  - cbn [app index_of length].
    rewrite (starts_with_tag pat c _ Hp Hc), IH. reflexivity.
Qed.

Lemma remove_thinking_open (s : jsstring) (k : nat) :
  starts_with thinking_open (60%N :: s) = true ->
  index_of thinking_close (drop (length thinking_open) (60%N :: s)) = Some k ->
  remove_thinking (60%N :: s)
  = remove_thinking
      (drop (length thinking_open + k + length thinking_close) (60%N :: s)).
Proof.
  intros Hs Hk. unfold remove_thinking. cbn [remove_thinking_go].
  rewrite Hs, Hk, remove_thinking_skips.
  change (length thinking_open) with 10%nat.
  change (length thinking_close) with 11%nat.
  replace (10 + k + 11)%nat with (S (10 + k + 11 - 1)) at 2 by lia.
  reflexivity.
Qed.

Lemma remove_thinking_block (t rest : jsstring) :
  tag_free t ->
  remove_thinking (thinking_open ++ t ++ thinking_close ++ rest)
  = remove_thinking rest.
Proof.
  intros Ht.
  pose proof (starts_with_app thinking_open
                (t ++ thinking_close ++ rest)) as Hs.
  pose proof (index_of_after_plain thinking_close t rest
                ltac:(eexists; reflexivity) Ht) as Hk.
  rewrite <- (drop_app_length thinking_open (t ++ thinking_close ++ rest))
    in Hk at 1.
  change (thinking_open ++ t ++ thinking_close ++ rest)
    with (60%N :: (js "thinking>" ++ t ++ thinking_close ++ rest)) in *.
  rewrite (remove_thinking_open _ _ Hs Hk).
  change (60%N :: (js "thinking>" ++ t ++ thinking_close ++ rest))
    with (thinking_open ++ t ++ thinking_close ++ rest).
  rewrite <- Nat.add_assoc, !drop_app_add, drop_app_length. reflexivity.
Qed.

Lemma remove_tags_plain (tags : list jsstring) (t rest : jsstring) :
  Forall tag tags -> tag_free t ->
  remove_tags tags (t ++ rest) = t ++ remove_tags tags rest.
Proof.
  intros Htags. unfold remove_tags.
  induction 1 as [| c t Hc Ht IH]; [reflexivity |].
  cbn [app remove_tags_go].
  assert (find (fun x => starts_with x (c :: t ++ rest)) tags = None) as ->.
  { clear -Htags Hc. induction Htags as [| x tags Hx _ IH]; [reflexivity |].
    simpl. rewrite (starts_with_tag x c _ Hx Hc). exact IH. }
  rewrite IH. reflexivity.
Qed.

Lemma remove_tags_tag (tags : list jsstring) (t rest : jsstring) :
  t <> [] ->
  find (fun x => starts_with x (t ++ rest)) tags = Some t ->
  remove_tags tags (t ++ rest) = remove_tags tags rest.
Proof.
  intros Hne Hf. unfold remove_tags.
  destruct t as [| c t]; [congruence |].
  cbn [app remove_tags_go].
  change (c :: t ++ rest) with ((c :: t) ++ rest). rewrite Hf.
  rewrite remove_tags_skips.
  replace (length (c :: t) - 1)%nat with (length t) by (simpl; lia).
  rewrite drop_app_length. reflexivity.
Qed.

Lemma tag_free_app (a b : jsstring) :
  tag_free a -> tag_free b -> tag_free (a ++ b).
Proof. intros Ha Hb. apply Forall_app. split; assumption. Qed.

Lemma answer_tags_are_tags : Forall tag answer_tags.
Proof. repeat constructor; eexists; reflexivity. Qed.

Lemma all_tags_are_tags : Forall tag all_tags.
Proof. repeat constructor; eexists; reflexivity. Qed.

Lemma remove_tags_nil (tags : list jsstring) : remove_tags tags [] = [].
Proof. reflexivity. Qed.

Lemma remove_thinking_other (s : jsstring) :
  starts_with thinking_open (60%N :: s) = false ->
  remove_thinking (60%N :: s) = 60%N :: remove_thinking s.
Proof.
  intros H. unfold remove_thinking. cbn [remove_thinking_go].
  rewrite H. reflexivity.
Qed.

Ltac find_tag :=
  cbn [find];
  repeat first
    [ rewrite starts_with_app
    | match goal with
      | |- context [starts_with ?p ?s] => change (starts_with p s) with false
      end ];
  reflexivity.

Lemma cleaned_answer (t a : jsstring) :
  tag_free t -> tag_free a ->
  remove_tags answer_tags
    (remove_thinking (thinking_open ++ t ++ thinking_close
                      ++ js "<answer>" ++ a ++ js "</answer>"))
  = a.
Proof.
  intros Ht Ha. rewrite remove_thinking_block by exact Ht.
  change (js "<answer>" ++ a ++ js "</answer>")
    with (60%N :: (js "answer>" ++ a) ++ js "</answer>").
  rewrite remove_thinking_other by reflexivity.
  rewrite remove_thinking_plain
    by (apply tag_free_app; [repeat constructor; discriminate | exact Ha]).
  change (remove_thinking (js "</answer>")) with (js "</answer>").
  change (60%N :: (js "answer>" ++ a) ++ js "</answer>")
    with (js "<answer>" ++ a ++ js "</answer>").
  rewrite remove_tags_tag; [| discriminate | unfold answer_tags; find_tag].
  rewrite remove_tags_plain by (exact answer_tags_are_tags || exact Ha).
  change (remove_tags answer_tags (js "</answer>")) with (@nil N).
  apply app_nil_r.
Qed.

Lemma untagged_answer (t a : jsstring) :
  tag_free t -> tag_free a ->
  remove_tags all_tags
    (thinking_open ++ t ++ thinking_close
     ++ js "<answer>" ++ a ++ js "</answer>")
  = t ++ a.
Proof.
  intros Ht Ha.
  rewrite remove_tags_tag; [| discriminate | unfold all_tags; find_tag].
  rewrite remove_tags_plain by (exact all_tags_are_tags || exact Ht).
  rewrite remove_tags_tag; [| discriminate | unfold all_tags; find_tag].
  rewrite remove_tags_tag; [| discriminate | unfold all_tags; find_tag].
  rewrite remove_tags_plain by (exact all_tags_are_tags || exact Ha).
  change (remove_tags all_tags (js "</answer>")) with (@nil N).
  rewrite app_nil_r. reflexivity.
Qed.

Lemma plain_answer (raw : jsstring) :
  tag_free raw ->
  remove_tags answer_tags (remove_thinking raw) = raw
  /\ remove_tags all_tags raw = raw.
Proof.
  intros H. rewrite <- (app_nil_r raw).
  rewrite remove_thinking_plain by exact H.
  rewrite !remove_tags_plain
    by (exact answer_tags_are_tags || exact all_tags_are_tags || exact H).
  split; reflexivity.
Qed.

End AnswerText.

(** X20.  The text of an answer of Claude's.  Of an answer made of a
    thinking block and an answer block, neither with a [<] inside, the
    text is what the answer block holds, trimmed; when that is empty, the
    text is what the two blocks hold, one after the other and as it
    stands.  Of an answer without any [<], the text is the answer
    trimmed, and the answer as it stands when nothing is left of it
    trimmed. *)
Theorem answer_text_keeps_the_answer :
  forall (t a : jsstring),
    Runs.tag_free t -> Runs.tag_free a ->
    AnthropicPath.answer_text
      (js "<thinking>" ++ t ++ js "</thinking>"
       ++ js "<answer>" ++ a ++ js "</answer>")
    = (if is_empty (trim a)
       then emit (LogNoTextInAnswer (t ++ a)) ;; ret (t ++ a)
       else ret (trim a))
    /\ AnthropicPath.answer_text a
       = (if is_empty (trim a)
          then emit (LogNoTextInAnswer a) ;; ret a
          else ret (trim a)).
Proof.
  intros t a Ht Ha. unfold AnthropicPath.answer_text. split.
  - change (js "<thinking>") with AnthropicPath.thinking_open.
    change (js "</thinking>") with AnthropicPath.thinking_close.
    rewrite (cleaned_answer t a Ht Ha), (untagged_answer t a Ht Ha).
    reflexivity.
  - destruct (plain_answer a Ha) as [-> ->]. reflexivity.
Qed.

Lemma answer_text_keeps_the_answer_witness :
  AnthropicPath.answer_text
    (js "<thinking>" ++ js "The user greets me." ++ js "</thinking>"
     ++ js "<answer>" ++ js " Hello! " ++ js "</answer>")
  = ret (js "Hello!").
Proof.
  apply (answer_text_keeps_the_answer (js "The user greets me.")
           (js " Hello! "));
    apply (bool_decide_unpack _); vm_compute; exact I.
Defined.

(** ** [isHeicImage] *)

Section Heic.

Import Utils.

Let step (cur : jsstring) (c : N) : jsstring :=
  if N.eqb c 46 then [] else cur ++ [c].

Lemma last_segment_plain (ext : jsstring) :
  Forall (fun c => c <> 46%N) ext ->
  forall cur, fold_left step ext cur = cur ++ ext.
Proof.
  induction 1 as [| c ext Hc _ IH]; intros cur.
  - rewrite app_nil_r. reflexivity.
  - cbn [fold_left]. unfold step at 2.
    destruct (N.eqb_spec c 46); [congruence |].
    rewrite IH, <- app_assoc. reflexivity.
Qed.

Lemma last_segment_after_dot (base ext : jsstring) :
  Forall (fun c => c <> 46%N) ext ->
  last_segment (base ++ js "." ++ ext) = ext
  /\ last_segment ext = ext.
Proof.
  intros H. unfold last_segment. fold step. split.
  - rewrite fold_left_app. cbn [app js map list_ascii_of_string fold_left].
    change (step (fold_left step base []) (N_of_ascii "."%char))
      with (@nil N).
    apply (last_segment_plain ext H []).
  - apply (last_segment_plain ext H []).
Qed.

End Heic.

(** X21.  [isHeicImage] reads of the name only what follows its last dot,
    and the whole name when it has no dot: a name is that of a HEIC image
    when that part, in lower case, is heic, heif or heics; whatever the
    name, the image is a HEIC image when the mime type is one of
    image/heic, image/heif and image/heic-sequence. *)
Theorem heic_is_told_by_the_last_extension :
  forall (toLowerCase : jsstring -> jsstring) (base ext : jsstring)
         (mime : option jsstring),
    Forall (fun c => c <> 46%N) ext ->
    let by_mime := match mime with
                   | Some m => bool_decide (m ∈ Utils.heic_mimes)
                   | None => false
                   end in
    Utils.isHeicImage toLowerCase (base ++ js "." ++ ext) mime
    = bool_decide (toLowerCase ext ∈ Utils.heic_extensions) || by_mime
    /\ Utils.isHeicImage toLowerCase ext mime
       = bool_decide (toLowerCase ext ∈ Utils.heic_extensions) || by_mime.
Proof.
  intros toLowerCase base ext mime H by_mime. subst by_mime.
  unfold Utils.isHeicImage.
  destruct (last_segment_after_dot base ext H) as [-> ->].
  assert (match mime with
          | Some ((_ :: _) as m) => bool_decide (m ∈ Utils.heic_mimes)
          | _ => false
          end
          = match mime with
            | Some m => bool_decide (m ∈ Utils.heic_mimes)
            | None => false
            end) as ->.
  { destruct mime as [[| c m] |]; try reflexivity. }
  split; reflexivity.
Qed.

Lemma heic_is_told_by_the_last_extension_witness :
  Utils.isHeicImage Utils.ascii_lower
    (js "https://example.com/photo.2024" ++ js "." ++ js "HEIC") None
  = true
  /\ Utils.isHeicImage Utils.ascii_lower
       (js "https://example.com/photo.heic?size=1") None
     = false.
Proof.
  split.
  - rewrite (proj1 (heic_is_told_by_the_last_extension Utils.ascii_lower
                      (js "https://example.com/photo.2024") (js "HEIC") None
                      ltac:(repeat constructor; discriminate))).
    vm_compute. reflexivity.
  - vm_compute. reflexivity.
Defined.

(** ** A record cut in two *)

Section RawIndependence.

Import Stream.

Variable identifier : jsstring.
Variable functionNames : option (gset jsstring).

Lemma set_raw_same (st : acc) : set_raw st (rawStreamedBody st) = st.
Proof. destruct st; reflexivity. Qed.

(** What the loop computes does not depend on the raw text it keeps
    for its messages, nor on the count of the reads. *)
Lemma process_record_raw (k k' : nat) (st : acc) (raw : jsstring)
    (json : json) :
  outcome (process_record k' (set_raw st raw) json)
  = match outcome (process_record k st json) with
    | Ok s => Ok (set_raw s raw)
    | Throw e => Throw e
    end.
Proof.
  unfold process_record. rewrite !outcome_bind.
  destruct (outcome (read json (js "choices"))) as [choices |];
    [| reflexivity].
  destruct (lacks_choices choices).
  - rewrite !outcome_bind.
    destruct (outcome (read json (js "error"))) as [error |]; [| reflexivity].
    destruct (truthy error).
    + destruct error; reflexivity.
    + rewrite !outcome_bind.
      destruct (negb (k =? 0)%nat), (negb (k' =? 0)%nat); reflexivity.
  - rewrite !outcome_bind.
    set (dToolCall := get_opt (get_opt (first_delta choices) (js "tool_calls"))
                              (js "0")).
    destruct (truthy dToolCall); [| cbn [outcome ret snd];
      destruct (truthy (get_opt (first_delta choices) (js "content")));
      [rewrite !outcome_bind; cbn [paragraph set_raw];
       destruct (outcome (append _ _)); reflexivity | reflexivity]].
    destruct (negb (truthy (get_opt dToolCall (js "index"))));
      [| cbn [outcome ret snd];
         destruct (truthy (get_opt (first_delta choices) (js "content")));
         [rewrite !outcome_bind; cbn [paragraph set_raw];
          destruct (outcome (append _ _)); reflexivity | reflexivity]].
    rewrite !outcome_bind.
    set (dFn := if truthy (get_opt dToolCall (js "function"))
                then get_opt dToolCall (js "function")
                else Some (JObj [])).
    destruct (truthy (get_opt dFn (js "name"))).
    + rewrite !outcome_bind. cbn [functionCallName set_raw].
      destruct (outcome (append (functionCallName st) _)) as [s1 |];
        [| reflexivity].
      cbn [outcome ret snd].
      destruct (truthy (get_opt dFn (js "arguments"))).
      * rewrite !outcome_bind. cbn [functionCallArgs set_raw set_name].
        destruct (outcome (append (functionCallArgs st) _)) as [s2 |];
          [| reflexivity].
        cbn [outcome ret snd].
        destruct (truthy (get_opt (first_delta choices) (js "content")));
          [rewrite !outcome_bind; cbn [paragraph set_raw set_name set_args];
           destruct (outcome (append _ _)); reflexivity | reflexivity].
      * cbn [outcome ret snd].
        destruct (truthy (get_opt (first_delta choices) (js "content")));
          [rewrite !outcome_bind; cbn [paragraph set_raw set_name];
           destruct (outcome (append _ _)); reflexivity | reflexivity].
    + cbn [outcome ret snd].
      destruct (truthy (get_opt dFn (js "arguments"))).
      * rewrite !outcome_bind. cbn [functionCallArgs set_raw].
        destruct (outcome (append (functionCallArgs st) _)) as [s2 |];
          [| reflexivity].
        cbn [outcome ret snd].
        destruct (truthy (get_opt (first_delta choices) (js "content")));
          [rewrite !outcome_bind; cbn [paragraph set_raw set_args];
           destruct (outcome (append _ _)); reflexivity | reflexivity].
      * cbn [outcome ret snd].
        destruct (truthy (get_opt (first_delta choices) (js "content")));
          [rewrite !outcome_bind; cbn [paragraph set_raw];
           destruct (outcome (append _ _)); reflexivity | reflexivity].
Qed.

Lemma process_pieces_raw (pieces : list jsstring) :
  forall (k k' : nat) (st : acc) (raw : jsstring),
    outcome (process_pieces identifier functionNames k' (set_raw st raw)
               pieces)
    = match outcome (process_pieces identifier functionNames k st pieces) with
      | Ok (Continue s) => Ok (Continue (set_raw s raw))
      | Ok (Return m) => Ok (Return m)
      | Throw e => Throw e
      end.
Proof.
  induction pieces as [| piece rest IH]; intros k k' st raw.
  - reflexivity.
  - cbn [process_pieces].
    destruct (is_empty piece); [apply IH |].
    destruct (includes sentinel piece).
    + rewrite !outcome_bind. cbn [emit outcome snd].
      cbn [paragraph functionCallName functionCallArgs set_raw].
      destruct (parseStreamedResponse identifier (paragraph st)
                  (functionCallName st) (functionCallArgs st) functionNames)
        as [l [m | e]]; reflexivity.
    + destruct (parse (trim piece)) as [json |].
      * rewrite !outcome_bind, (process_record_raw k k' st raw json).
        destruct (outcome (process_record k st json)) as [s |];
          [apply IH | reflexivity].
      * apply (IH k k' (set_partial st piece) raw).
Qed.

Lemma read_loop_raw (chunks : list (list byte)) (ending : option js_error) :
  forall (k k' : nat) (st : acc) (raw : jsstring),
    outcome (read_loop identifier functionNames chunks ending k'
               (set_raw st raw))
    = outcome (read_loop identifier functionNames chunks ending k st).
Proof.
  induction chunks as [| value rest IH]; intros k k' st raw.
  - simpl. destruct ending; reflexivity.
  - rewrite !read_loop_cons, !outcome_bind.
    unfold Runs.pieces_of, take_chunk.
    cbn [partialChunk rawStreamedBody set_raw].
    destruct (negb (is_empty (partialChunk st))); cbn [fst snd].
    + rewrite (process_pieces_raw _ k k'
                 (set_partial (set_raw st (rawStreamedBody st
                                           ++ Utf8.decode value ++ newline)) [])
                 (raw ++ Utf8.decode value ++ newline)).
      destruct (outcome (process_pieces _ _ k _ _)) as [[s | m] |];
        [apply IH | reflexivity | reflexivity].
    + rewrite (process_pieces_raw _ k k'
                 (set_raw st (rawStreamedBody st
                              ++ Utf8.decode value ++ newline))
                 (raw ++ Utf8.decode value ++ newline)).
      destruct (outcome (process_pieces _ _ k _ _)) as [[s | m] |];
        [apply IH | reflexivity | reflexivity].
Qed.

End RawIndependence.

Section Splitting.

Let not_terminator (c : N) : Prop := is_line_terminator c = false.

Lemma marker_has_no_terminator : Forall not_terminator marker.
Proof. repeat constructor. Qed.

(** A text that ends a line hides nothing of a pattern that has no line
    terminator. *)
Lemma starts_with_line (pat : jsstring) :
  Forall not_terminator pat ->
  forall (p : jsstring) (c : N) (q : jsstring),
    is_line_terminator c = true ->
    starts_with pat ((p ++ [c]) ++ q) = starts_with pat (p ++ [c]).
Proof.
  induction 1 as [| a pat Ha _ IH]; intros p c q Hc; [reflexivity |].
  destruct p as [| b p]; cbn [app starts_with].
  - destruct (N.eqb_spec a c) as [-> | _]; [| reflexivity].
    unfold not_terminator in Ha. congruence.
  - rewrite (IH p c q Hc). reflexivity.
Qed.

Lemma starts_with_length (pat s : jsstring) :
  starts_with pat s = true -> (length pat <= length s)%nat.
Proof.
  revert s. induction pat as [| a pat IH]; intros [| b s]; simpl;
    try lia; try discriminate.
  intros H. apply andb_true_iff in H as [_ H]. apply IH in H. lia.
Qed.

Lemma starts_with_marker_line (p : jsstring) (c : N) :
  is_line_terminator c = true ->
  starts_with marker (p ++ [c]) = true ->
  (6 < length (p ++ [c]))%nat.
Proof.
  intros Hc H. pose proof (starts_with_length _ _ H) as Hl.
  change (length marker) with 6%nat in Hl.
  destruct (Nat.eq_dec (length (p ++ [c])) 6%nat) as [E |]; [| lia].
  rewrite length_app in E. simpl in E.
  do 5 (destruct p as [| ? p]; [simpl in E; lia |]).
  destruct p; [| simpl in E; lia].
  change marker with [100; 97; 116; 97; 58; 32]%N in H.
  cbn [app starts_with] in H.
  do 5 (apply andb_true_iff in H as [_ H]).
  apply andb_true_iff in H as [H _]. apply N.eqb_eq in H. subst c.
  discriminate Hc.
Qed.

(** The state of the cut at the start of a text that ends a line:
    nothing to skip but inside the text, and an empty text only at the
    start of a line. *)
Let good (skip : nat) (bol : bool) (pre : jsstring) : Prop :=
  match pre with
  | [] => skip = 0%nat /\ bol = true
  | _ => (exists p c, pre = p ++ [c] /\ is_line_terminator c = true)
         /\ (skip < length pre)%nat
  end.

Lemma split_go_marker (cur s : jsstring) :
  split_go 0 true cur (marker ++ s) = rev cur :: split_go 0 false [] s.
Proof. reflexivity. Qed.

Lemma split_go_line (pre : jsstring) :
  forall (skip : nat) (bol : bool) (cur s : jsstring),
    good skip bol pre ->
    split_go skip bol cur (pre ++ marker ++ s)
    = split_go skip bol cur pre ++ split_go 0 false [] s.
Proof.
  induction pre as [| c pre IH]; intros skip bol cur s Hg.
  - destruct Hg as [-> ->]. rewrite app_nil_l, split_go_marker. reflexivity.
  - destruct Hg as [(p & d & Hp & Hd) Hs].
    assert (good (pred skip) false pre \/ pre = []) as Hpre.
    { destruct pre as [| c' pre']; [right; reflexivity |]. left. split.
      - destruct p as [| c0 p0]; [discriminate |].
        injection Hp as _ Hp. eauto.
      - simpl in *. lia. }
    cbn [app split_go].
    destruct skip as [| k].
    + assert (starts_with marker (c :: pre ++ marker ++ s)
              = starts_with marker (c :: pre)) as Hsw.
      { change (c :: pre ++ marker ++ s) with ((c :: pre) ++ marker ++ s).
        rewrite Hp.
        apply (starts_with_line marker marker_has_no_terminator p d _ Hd). }
      rewrite Hsw.
      destruct (bol && starts_with marker (c :: pre)) eqn:Ht.
      * apply andb_true_iff in Ht as [_ Ht].
        rewrite Hp in Ht.
        pose proof (starts_with_marker_line p d Hd Ht) as Hl.
        rewrite <- Hp in Hl. simpl in Hl.
        rewrite (IH 5%nat false [] s); [reflexivity |].
        destruct pre as [| c' pre']; [simpl in Hl; lia |]. split.
        -- destruct p as [| c0 p0]; [discriminate |].
           injection Hp as _ Hp. eauto.
        -- simpl in *. lia.
      * destruct pre as [| c' pre'].
        -- destruct p as [| c0 p0]; [| destruct p0; discriminate].
           injection Hp as ->.
           pose proof (IH 0%nat (is_line_terminator d) (d :: cur) s
                         (conj eq_refl Hd)) as E.
           cbn [app] in *. rewrite E. reflexivity.
        -- rewrite (IH 0%nat (is_line_terminator c) (c :: cur) s);
             [reflexivity |].
           split; [| simpl; lia].
           destruct p as [| c0 p0]; [discriminate |].
           injection Hp as _ Hp. eauto.
    + destruct Hpre as [Hpre | ->]; [| simpl in Hs; lia].
      rewrite (IH k false cur s Hpre). reflexivity.
Qed.

Lemma split_go_one_line (r : jsstring) :
  Forall not_terminator r ->
  forall cur, split_go 0 false cur r = [rev cur ++ r].
Proof.
  induction 1 as [| c r Hc _ IH]; intros cur.
  - simpl. rewrite app_nil_r. reflexivity.
  - cbn [split_go andb]. rewrite Hc, IH. cbn [rev].
    rewrite <- app_assoc. reflexivity.
Qed.

Lemma split_data_brace (r s : jsstring) :
  split_data ((123%N :: r) ++ s) = split_go 0 false [] ((123%N :: r) ++ s).
Proof. reflexivity. Qed.

End Splitting.

Section CutRecord.

Import Stream.

Variable identifier : jsstring.
Variable functionNames : option (gset jsstring).

Lemma read_loop_outcome (value : list byte) (rest : list (list byte))
    (ending : option js_error) (k : nat) (st : acc) :
  outcome (read_loop identifier functionNames (value :: rest) ending k st)
  = match outcome (process_pieces identifier functionNames k
                     (snd (take_chunk st value))
                     (split_data (fst (take_chunk st value)))) with
    | Ok (Continue st') =>
        outcome (read_loop identifier functionNames rest ending (S k) st')
    | Ok (Return m) => Ok m
    | Throw e => Throw e
    end.
Proof.
  rewrite read_loop_cons, outcome_bind. unfold Runs.pieces_of.
  destruct (outcome (process_pieces _ _ _ _ _)) as [[s | m] |]; reflexivity.
Qed.

Lemma take_chunk_empty (st : acc) (value : list byte) :
  partialChunk st = [] ->
  take_chunk st value
  = (Utf8.decode value,
     set_raw st (rawStreamedBody st ++ Utf8.decode value ++ newline)).
Proof.
  intros H. unfold take_chunk. cbn [partialChunk set_raw]. rewrite H.
  reflexivity.
Qed.

Lemma take_chunk_held (st : acc) (c : N) (f : jsstring) (value : list byte) :
  partialChunk st = c :: f ->
  take_chunk st value
  = ((c :: f) ++ Utf8.decode value,
     set_partial
       (set_raw st (rawStreamedBody st ++ Utf8.decode value ++ newline)) []).
Proof.
  intros H. unfold take_chunk. cbn [partialChunk set_raw]. rewrite H.
  reflexivity.
Qed.

Lemma cut_record (x y : list byte) (rest : list (list byte))
    (ending : option js_error) (k : nat) (st stp : acc)
    (pre r : jsstring) :
  partialChunk st = [] ->
  Utf8.decode (x ++ y) = Utf8.decode x ++ Utf8.decode y ->
  Utf8.decode x = pre ++ marker ++ 123%N :: r ->
  (pre = [] \/ exists p c, pre = p ++ [c] /\ is_line_terminator c = true) ->
  outcome (process_pieces identifier functionNames k st (split_data pre))
  = Ok (Continue stp) ->
  partialChunk stp = [] ->
  Forall (fun c => is_line_terminator c = false) r ->
  includes sentinel (123%N :: r) = false ->
  parse (trim (123%N :: r)) = None ->
  outcome (read_loop identifier functionNames (x :: y :: rest) ending k st)
  = outcome (read_loop identifier functionNames ((x ++ y) :: rest) ending k
               st).
Proof.
  intros Hst Hxy Hx Hpre Hp Hstp Hr Hsent Hparse.
  set (r1 := 123%N :: r) in *.
  set (b := Utf8.decode y) in *.
  assert (forall s, split_data (pre ++ marker ++ s)
                    = split_data pre ++ split_go 0 false [] s) as Hline.
  { intros s. apply split_go_line.
    destruct pre as [| c pre']; [split; reflexivity |].
    destruct Hpre as [Hpre | Hpre]; [discriminate |].
    split; [exact Hpre | simpl; lia]. }
  assert (split_go 0 false [] r1 = [r1]) as Hone.
  { apply (split_go_one_line r1). constructor; [reflexivity | exact Hr]. }
  assert (forall raw k',
            outcome (process_pieces identifier functionNames k'
                       (set_raw st raw) (split_data pre))
            = Ok (Continue (set_raw stp raw))) as Hp'.
  { intros raw k'. rewrite (process_pieces_raw _ _ _ k k'), Hp. reflexivity. }
  set (Q := split_go 0 false [] (r1 ++ b)).
  assert (split_data (Utf8.decode x) = split_data pre ++ [r1]) as Hsx.
  { rewrite Hx, Hline, Hone. reflexivity. }
  assert (split_data (Utf8.decode (x ++ y)) = split_data pre ++ Q) as Hsxy.
  { rewrite Hxy, Hx, <- !app_assoc. apply Hline. }
  (* the two reads *)
  rewrite (read_loop_outcome x), (take_chunk_empty st x Hst).
  cbn [fst snd]. rewrite Hsx.
  rewrite (trailing_fragment_is_held _ _ _ _ _ _ _ (Hp' _ _));
    [| discriminate | exact Hsent | exact Hparse].
  rewrite (read_loop_outcome y).
  rewrite (take_chunk_held (set_partial _ r1) 123%N r y eq_refl).
  cbn [fst snd].
  change (split_data ((123%N :: r) ++ Utf8.decode y)) with Q.
  (* the one read *)
  rewrite (read_loop_outcome (x ++ y)), (take_chunk_empty st (x ++ y) Hst).
  cbn [fst snd]. rewrite Hsxy.
  rewrite (process_pieces_app _ _ _ _ _ _ _ (Hp' _ _)).
  (* both go on with the same pieces *)
  match goal with
  | |- match outcome (process_pieces _ _ _ ?s1 Q) with _ => _ end
       = match outcome (process_pieces _ _ _ (set_raw stp ?raw2) Q)
         with _ => _ end =>
      assert (s1 = set_raw stp (rawStreamedBody s1)) as E1
        by (destruct stp; simpl in *; subst; reflexivity);
      rewrite E1;
      rewrite (process_pieces_raw _ _ Q k (S k) stp (rawStreamedBody s1));
      rewrite (process_pieces_raw _ _ Q k k stp raw2)
  end.
  destruct (outcome (process_pieces identifier functionNames k stp Q))
    as [[s | m] |]; try reflexivity.
  rewrite !read_loop_raw with (k := k). reflexivity.
Qed.

End CutRecord.

(** X22.  A record that is cut in two between two of its characters
    is read as if it had come whole.  When nothing is held back, and a
    read brings whole lines that are read without anything being held
    back, then the marker and the start of a record, an opening brace and
    more on one line, which is not JSON by itself, the call ends the same
    way whether the bytes that follow come in a read of their own or in
    the same read, whatever these bytes and the later reads are. *)
Theorem record_cut_in_two_is_read_whole :
  forall (identifier : jsstring) (functionNames : option (gset jsstring))
         (x y : list byte) (rest : list (list byte))
         (ending : option js_error) (k : nat) (st stp : Stream.acc)
         (pre r : jsstring),
    Stream.partialChunk st = [] ->
    Utf8.decode (x ++ y) = Utf8.decode x ++ Utf8.decode y ->
    Utf8.decode x = pre ++ js "data: " ++ 123%N :: r ->
    (pre = [] \/ exists p c, pre = p ++ [c] /\ is_line_terminator c = true) ->
    outcome (Stream.process_pieces identifier functionNames k st
               (split_data pre)) = Ok (Stream.Continue stp) ->
    Stream.partialChunk stp = [] ->
    Forall (fun c => is_line_terminator c = false) r ->
    includes Stream.sentinel (123%N :: r) = false ->
    parse (trim (123%N :: r)) = None ->
    outcome (Stream.read_loop identifier functionNames (x :: y :: rest)
               ending k st)
    = outcome (Stream.read_loop identifier functionNames ((x ++ y) :: rest)
                 ending k st).
Proof.
  intros identifier functionNames x y rest ending k st stp pre r.
  apply cut_record.
Qed.

Lemma record_cut_in_two_is_read_whole_witness :
  outcome (Samples.run
             [Utf8.bytes ("data: {'choices':[{'delta':{'content':'Hel'}}]}"
                          ++ Samples.nl ++ "data: {'choi");
              Utf8.bytes ("ces':[{'delta':{'content':'lo'}}]}" ++ Samples.nl);
              Utf8.bytes ("data: [DONE]" ++ Samples.nl)])
  = outcome (Samples.run
               [Utf8.bytes ("data: {'choices':[{'delta':{'content':'Hel'}}]}"
                            ++ Samples.nl ++ "data: {'choi")
                ++ Utf8.bytes ("ces':[{'delta':{'content':'lo'}}]}"
                               ++ Samples.nl);
                Utf8.bytes ("data: [DONE]" ++ Samples.nl)]).
Proof.
  apply (record_cut_in_two_is_read_whole (js "id") None _ _ _ None 0
           Stream.acc_init
           (Stream.set_paragraph Stream.acc_init (js "Hel"))
           (jq "data: {'choices':[{'delta':{'content':'Hel'}}]}" ++ newline)
           (jq "'choi")).
  - reflexivity.
  - vm_compute. reflexivity.
  - vm_compute. reflexivity.
  - right. exists (jq "data: {'choices':[{'delta':{'content':'Hel'}}]}"), 10%N.
    split; reflexivity.
  - vm_compute. reflexivity.
  - reflexivity.
  - apply (bool_decide_unpack _). vm_compute. exact I.
  - vm_compute. reflexivity.
  - vm_compute. reflexivity.
Defined.

(** ** Buffers of ASCII bytes, and the pieces of a text *)

Section AsciiBuffers.

Let ascii (b : byte) : Prop := (Byte.to_N b <= 127)%N.

Lemma scalars_ascii (bs : list byte) :
  Forall ascii bs -> Utf8.scalars Utf8.d_init bs = map Byte.to_N bs.
Proof.
  induction 1 as [| b bs Hb _ IH]; [reflexivity |].
  cbn [Utf8.scalars map]. unfold Utf8.step. cbn [Utf8.d_needed Utf8.d_init].
  unfold Utf8.lead. unfold ascii in Hb.
  destruct (N.leb_spec (Byte.to_N b) 127); [| lia].
  cbn [app]. rewrite IH. reflexivity.
Qed.

Lemma utf16_ascii (cps : list N) :
  Forall (fun c => (c <= 127)%N) cps -> concat (map Utf8.utf16 cps) = cps.
Proof.
  induction 1 as [| c cps Hc _ IH]; [reflexivity |].
  cbn [map concat]. unfold Utf8.utf16 at 1.
  assert ((c <? 65536)%N = true) as -> by (apply N.ltb_lt; lia).
  rewrite IH. reflexivity.
Qed.

Lemma decode_ascii (bs : list byte) :
  Forall ascii bs -> Utf8.decode bs = map Byte.to_N bs.
Proof.
  intros H. unfold Utf8.decode. rewrite (scalars_ascii bs H).
  assert (Forall (fun c => (c <= 127)%N) (map Byte.to_N bs)) as Hc.
  { apply Forall_map. exact H. }
  destruct (map Byte.to_N bs) as [| c rest] eqn:E; [reflexivity |].
  apply Forall_cons in Hc as [Hc Hrest].
  destruct (N.eqb_spec c 65279); [lia |].
  apply utf16_ascii. constructor; assumption.
Qed.

End AsciiBuffers.

(** X23.  A buffer of bytes below 0x80 decodes to the characters of these
    bytes, so that the text of two such buffers, each decoded on its own
    as the read loop does, is the text of the two decoded as one. *)
Theorem ascii_buffers_decode_piecewise :
  forall (x y : list byte),
    Forall (fun b => (Byte.to_N b <= 127)%N) x ->
    Forall (fun b => (Byte.to_N b <= 127)%N) y ->
    Utf8.decode x = map Byte.to_N x
    /\ Utf8.decode (x ++ y) = Utf8.decode x ++ Utf8.decode y.
Proof.
  intros x y Hx Hy.
  rewrite !decode_ascii by (try apply Forall_app; auto).
  split; [reflexivity | apply map_app].
Qed.

Lemma ascii_buffers_decode_piecewise_witness :
  Utf8.decode (Utf8.bytes "data: {'a" ++ Utf8.bytes "':1}")
  = Utf8.decode (Utf8.bytes "data: {'a") ++ Utf8.decode (Utf8.bytes "':1}").
Proof.
  apply (ascii_buffers_decode_piecewise (Utf8.bytes "data: {'a")
           (Utf8.bytes "':1}"));
    repeat constructor; vm_compute; discriminate.
Defined.

Section SplitJoin.

(** [pieces.join("data: ")]. *)
Let join (pieces : list jsstring) : jsstring :=
  match pieces with
  | [] => []
  | p :: ps => fold_left (fun acc x => acc ++ marker ++ x) ps p
  end.

Lemma fold_join (ps : list jsstring) (acc : jsstring) :
  fold_left (fun acc x => acc ++ marker ++ x) ps acc
  = acc ++ concat (map (fun x => marker ++ x) ps).
Proof.
  revert acc. induction ps as [| p ps IH]; intros acc; simpl.
  - rewrite app_nil_r. reflexivity.
  - rewrite IH, <- !app_assoc. reflexivity.
Qed.

Lemma split_go_nonempty (s : jsstring) :
  forall skip bol cur, split_go skip bol cur s <> [].
Proof.
  induction s as [| c s IH]; intros skip bol cur; simpl; [discriminate |].
  destruct skip; [| apply IH].
  destruct (bol && _); [discriminate | apply IH].
Qed.

Lemma starts_with_split (pat s : jsstring) :
  starts_with pat s = true -> s = pat ++ drop (length pat) s.
Proof.
  revert s. induction pat as [| a pat IH]; intros s H; [reflexivity |].
  destruct s as [| b s]; [discriminate |].
  simpl in H. apply andb_true_iff in H as [Hab H].
  apply N.eqb_eq in Hab. subst b. simpl. f_equal. apply IH. exact H.
Qed.

Lemma split_go_skip (s : jsstring) :
  forall (k : nat) (cur : jsstring),
    (k <= length s)%nat ->
    split_go k false cur s = split_go 0 false cur (drop k s).
Proof.
  induction s as [| c s IH]; intros [| k] cur Hk; try reflexivity.
  simpl. apply IH. simpl in Hk. lia.
Qed.

(** Joining the pieces with the marker gives back the text. *)
Lemma join_split_go (n : nat) :
  forall (s : jsstring) (bol : bool) (cur : jsstring),
    (length s <= n)%nat ->
    join (split_go 0 bol cur s) = rev cur ++ s.
Proof.
  induction n as [| n IH]; intros s bol cur Hn.
  - destruct s; [| simpl in Hn; lia]. simpl. rewrite app_nil_r. reflexivity.
  - destruct s as [| c s]; [simpl; rewrite app_nil_r; reflexivity |].
    cbn [split_go].
    destruct (bol && starts_with marker (c :: s)) eqn:Ht.
    + apply andb_true_iff in Ht as [_ Ht].
      pose proof (starts_with_length _ _ Ht) as Hl.
      apply starts_with_split in Ht.
      change (length marker) with 6%nat in *.
      rewrite split_go_skip by (simpl in Hl; lia).
      unfold join. rewrite fold_join.
      pose proof (IH (drop 5 s) false [] ltac:(rewrite length_drop; simpl in Hn; lia))
        as Hj.
      unfold join in Hj.
      destruct (split_go 0 false [] (drop 5 s)) as [| p ps] eqn:Es;
        [exfalso; exact (split_go_nonempty _ _ _ _ Es) |].
      rewrite fold_join in Hj. cbn [map concat rev app] in *.
      f_equal. rewrite <- app_assoc, Hj. symmetry. exact Ht.
    + rewrite (IH s (is_line_terminator c) (c :: cur))
        by (simpl in Hn; lia).
      cbn [rev]. rewrite <- app_assoc. reflexivity.
Qed.

End SplitJoin.

(** ** The functions offered *)

Section OfferedFunctions.

Variable w : world.
Variable identifier : jsstring.

Lemma stream_call_is_offered (n : nat) (p : OpenAIPayload)
    (c : option AIConfig) (m : ParsedResponseMessage) (fc : FunctionCall)
    (tools : list FunctionDefinition) :
  outcome (Stream.callOpenAIStream w n identifier p c) = Ok m ->
  prm_function_call m = CallOf fc ->
  op_tools p = Some tools ->
  exists name, fc_name fc = Some (JStr name) /\ name ∈ map fd_name tools.
Proof.
  unfold Stream.callOpenAIStream. intros H Hfc Ht.
  apply outcome_bind_ok in H as (endpoint & _ & H).
  apply outcome_bind_ok in H as (_ & _ & H).
  destruct (w_fetch w n endpoint _ p) as [e | | chunks ending];
    try discriminate.
  apply read_loop_extends in H as (st' & _ & H).
  unfold Runs.finalized in H.
  destruct (parse_response_call _ _ _ _ _ _ _ H Hfc)
    as (_ & _ & Hal & v & _ & ->).
  rewrite Ht in Hal. simpl in Hal.
  exists (Stream.functionCallName st'). split; [reflexivity |].
  specialize (Hal _ eq_refl). apply elem_of_list_to_set in Hal. exact Hal.
Qed.

Lemma attempts_result (fuel : nat) :
  forall (i : nat) (s : OpenAiRetries.retry_state)
         (m : ParsedResponseMessage),
    fst (snd (OpenAiRetries.attempts w identifier fuel i s)) = Some m ->
    exists n p c,
      op_tools p = op_tools (fst s)
      /\ outcome (Stream.callOpenAIStream w n identifier p c) = Ok m.
Proof.
  induction fuel as [| fuel IH]; intros i s m; [discriminate |].
  cbn [OpenAiRetries.attempts].
  destruct (Stream.callOpenAIStream w i identifier (fst s) (snd s))
    as [l [res | e]] eqn:Hc.
  - simpl. intros [= <-]. exists i, (fst s), (snd s). rewrite Hc. auto.
  - pose proof (catch_block_state i e (fst s) (snd s)) as Hs.
    rewrite <- surjective_pairing in Hs.
    destruct (OpenAiRetries.catch_block i e s) as [l' s'].
    specialize (IH (S i) s' m).
    destruct (OpenAiRetries.attempts w identifier fuel (S i) s') as [l'' r].
    simpl in *. intros H. destruct (IH H) as (n & p & c & Hp & Ho).
    exists n, p, c. split; [| exact Ho]. rewrite Hp, Hs. reflexivity.
Qed.

End OfferedFunctions.

(** X24.  On the OpenAI path, the function call of a message that
    [callWithRetries] returns names one of the functions that the request
    offers, when it offers some. *)
Theorem gpt_function_call_is_one_of_the_offered :
  forall (w : world) (identifier : jsstring) (payload : GenericPayload)
         (config : option AIConfig) (retries : Z)
         (m : ParsedResponseMessage) (fc : FunctionCall)
         (functions : list FunctionDefinition),
    gp_model payload ∈ GPTModel.values ->
    gp_functions payload = Some functions ->
    outcome (fst (Dispatch.callWithRetries w identifier payload config
                    retries)) = Ok m ->
    prm_function_call m = CallOf fc ->
    exists name,
      fc_name fc = Some (JStr name) /\ name ∈ map fd_name functions.
Proof.
  intros w identifier payload config retries m fc functions Hm Hf.
  unfold Dispatch.callWithRetries.
  rewrite (gpt_is_not_claude payload Hm).
  unfold Dispatch.isOpenAiPayload.
  rewrite bool_decide_eq_true_2 by exact Hm.
  unfold Dispatch.prepareOpenAIPayload.
  destruct (openai_prepare_messages_total (gp_messages payload))
    as (l & prepared & -> & _).
  cbn [bind ret].
  match goal with
  | |- context [OpenAiRetries.callOpenAiWithRetries w identifier ?p config
                  retries] =>
      set (q := p);
      destruct (OpenAiRetries.callOpenAiWithRetries w identifier q config
                  retries) as [run s] eqn:Hq
  end.
  cbn [fst]. intros H Hfc.
  apply outcome_bind_ok in H as (_ & _ & H).
  destruct run as [lr rr]. simpl in H. subst rr.
  unfold OpenAiRetries.callOpenAiWithRetries in Hq.
  destruct (OpenAiRetries.attempts _ _ _ _ _) as [l' [[res |] s']] eqn:Ha;
    [| discriminate].
  injection Hq as _ -> _.
  pose proof (attempts_result w identifier (Z.to_nat (retries + 1)) 0
                (q, config) m) as Hr.
  rewrite Ha in Hr. destruct (Hr eq_refl) as (n & p & c & Hp & Ho).
  eapply stream_call_is_offered; eauto.
  rewrite Hp. exact Hf.
Qed.

Lemma gpt_function_call_is_one_of_the_offered_witness :
  exists name,
    Some (JStr (js "get_game_score")) = Some (JStr name)
    /\ name ∈ [js "get_game_score"].
Proof.
  apply (gpt_function_call_is_one_of_the_offered Samples.scoring (js "id")
           Samples.score_request None 5
           {| prm_role := Assistant; prm_content := Some JNull;
              prm_function_call :=
                CallOf {| fc_name := Some (JStr (js "get_game_score"));
                          fc_arguments := Some (JObj []) |} |}
           {| fc_name := Some (JStr (js "get_game_score"));
              fc_arguments := Some (JObj []) |}
           [Samples.score_function]).
  - apply (bool_decide_unpack _). vm_compute. exact I.
  - reflexivity.
  - vm_compute. reflexivity.
  - reflexivity.
Defined.

(** X25.  The pieces that the read loop cuts a text into hold all of it:
    there is at least one, and joined with the marker between them they
    give the text back. *)
Theorem split_data_loses_nothing :
  forall (s : jsstring),
    split_data s <> []
    /\ match split_data s with
       | [] => []
       | p :: ps => fold_left (fun acc x => acc ++ js "data: " ++ x) ps p
       end = s.
Proof.
  intros s. split; [apply split_go_nonempty |].
  exact (join_split_go (length s) s true [] (le_n _)).
Qed.

(** ** Further instances *)

Lemma anthropic_answer_shape_witness :
  exists m,
    outcome (AnthropicPath.callAnthropic
               (Samples.answering Samples.tool_answer) 0 (js "id")
               Samples.opus_question None) = Ok m
    /\ prm_content m = Some (JStr [])
    /\ prm_function_call m
       = CallOf {| fc_name := Some (JStr (js "get_game_score"));
                   fc_arguments := Some (JObj []) |}.
Proof.
  eexists. split; [vm_compute; reflexivity |]. split; [reflexivity |].
  destruct (proj2 (proj2 (proj2 (proj2
             (anthropic_answer_shape (Samples.answering Samples.tool_answer)
                0 (js "id") Samples.opus_question None _ eq_refl))))
             eq_refl)
    as (data & answers & Hd & Ha & Hf).
  injection Hd as <-. injection Ha as <-.
  etransitivity; [exact Hf | reflexivity].
Defined.

Lemma last_attempt_asks_sonnet_witness :
  AnthropicPath.callAnthropicWithRetries
    (Samples.answering Samples.hello_answer) (js "id")
    Samples.opus_question None 1
  = AnthropicPath.callAnthropicWithRetries Samples.sonnet_at_first (js "id")
      Samples.opus_question None 1.
Proof.
  apply (last_attempt_asks_sonnet (Samples.answering Samples.hello_answer)
           Samples.sonnet_at_first (js "id") Samples.opus_question None 1).
  - reflexivity.
  - intros n request H. destruct n as [| n]; [| reflexivity].
    simpl. rewrite (H eq_refl). reflexivity.
Defined.

Lemma bedrock_reads_messages_and_functions_only_witness :
  fst (Dispatch.callWithRetries Samples.offline (js "id")
         (Samples.two_system_request ClaudeModel.OPUS)
         (Some Samples.bedrock_config) 5)
  = fst (Dispatch.callWithRetries Samples.offline (js "id")
           (Samples.request ClaudeModel.HAIKU)
           (Some Samples.bedrock_config) 5).
Proof.
  apply (bedrock_reads_messages_and_functions_only Samples.offline (js "id")
           (Some Samples.bedrock_config)
           (Samples.two_system_request ClaudeModel.OPUS)
           (Samples.request ClaudeModel.HAIKU) 5).
  - reflexivity.
  - apply (bool_decide_unpack _). vm_compute. exact I.
  - apply (bool_decide_unpack _). vm_compute. exact I.
  - reflexivity.
  - reflexivity.
Defined.

Lemma requests_are_bounded_witness :
  (requests_made
     (events (fst (Dispatch.callWithRetries Samples.offline (js "id")
                     (Samples.request GPTModel.GPT4O) None 2)))
   <= 3)%nat.
Proof.
  apply (proj1 (requests_are_bounded Samples.offline (js "id")
                  (Samples.request GPTModel.GPT4O) None 2)).
  apply (bool_decide_unpack _). vm_compute. exact I.
Defined.

Lemma azure_misconfiguration_sends_nothing_witness :
  Stream.callOpenAIStream Samples.offline 0 (js "id") Samples.picture_question
    (Some {| cfg_service := Azure; cfg_apiKey := None; cfg_baseUrl := None;
             cfg_orgId := None; cfg_modelConfigMap := None |})
  = ([LogUsingAzure GPTModel.GPT4O],
     Throw (Error_ (js "OpenAI config modelConfigMap is required when using Azure OpenAI service."))).
Proof.
  apply (azure_misconfiguration_sends_nothing Samples.offline 0%nat (js "id")
           Samples.picture_question
           {| cfg_service := Azure; cfg_apiKey := None; cfg_baseUrl := None;
              cfg_orgId := None; cfg_modelConfigMap := None |});
    reflexivity.
Defined.

Lemma one_request_to_the_configured_endpoint_witness :
  Runs.requests
    (events (Stream.callOpenAIStream Samples.greeting 0 (js "id")
               Samples.picture_question (Some Samples.azure_config)))
  = [Request (js "https://example.openai.azure.com/openai/deployments/gpt4/chat/completions?api-version=2024-02-01")].
Proof.
  apply (proj2 (one_request_to_the_configured_endpoint Samples.greeting 0
                  (js "id") Samples.picture_question
                  (Some Samples.azure_config))
           Samples.azure_config _ Samples.deployment
           (js "https://example.openai.azure.com") eq_refl eq_refl eq_refl).
  - vm_compute. reflexivity.
  - reflexivity.
  - discriminate.
Defined.
